(** * slabDaemon: the windowed sample store and the Mann-Kendall engine

    A shallow embedding of [monitor] and its helpers from [slabDaemon.c],
    together with the properties of the retention step (series, window
    boundaries, tie histograms) and of the statistic engine (S, variance,
    Z, trend flag); then the sort of the snapshot ([slabsort], [merge_objs]
    and the sort routines), the registry, the option loop and the main loop
    of [main], and what holds of whole runs of the daemon.

    Conventions of the embedding.
    - C [int] is 32 bits and [long int] 64 bits (LP64); both are kept as
      [Z] with the two's-complement wrap-around written out ([int],
      [long]).  Signed overflow is undefined in ISO C; the wrap is what the
      usual targets produce.
    - [double] is IEEE binary64 and [long double] the x87 double-extended
      format (64-bit significand), as on x86-64 Linux; both are
      [spec_float] values with the operations of [SpecFloat].
    - Sample values and timestamps are C doubles that only ever hold
      integers converted from [unsigned] and [int]; these conversions are
      exact, and the comparisons on them are the comparisons on [Z].
    - Series nodes live in a per-entity heap addressed by allocation order,
      so that [sValues], [lastMID_TERM] and [lastSHORT_TERM] alias nodes the
      way the C pointers do.  A NULL pointer is [None].
    - Tie buckets are only reached through the list head, so a bucket list
      is a plain list; the pointer returned by [searchBucket] is the
      position of the bucket.
    - The snapshot is a list of [slab_info]; [slabsort] and [merge_objs]
      only relink its nodes, which is a reordering of the list.
    - What the C library hands to [main] is an input: the options as
      [getopt_long] returns them, the number [strtol] read and whether it
      set [errno], and the snapshot of each cycle or the failure of
      [get_slabinfo]. *)

From Stdlib Require Import ZArith Lia SpecFloat Ascii.
From Stdlib Require OrdersEx.
From stdpp Require Import base numbers list strings sorting.
From Equations Require Import Equations.

Local Open Scope Z_scope.

(** ** Machine integers *)

Definition wrap (w : Z) (x : Z) : Z := (x + 2 ^ (w - 1)) mod 2 ^ w - 2 ^ (w - 1).

(** C [int]. *)
Definition int (x : Z) : Z := wrap 32 x.
(** C [long int]. *)
Definition long (x : Z) : Z := wrap 64 x.
(** C [unsigned]. *)
Definition unsigned (x : Z) : Z := x mod 2 ^ 32.

Definition INT_MAX : Z := 2 ^ 31 - 1.

(** ** Floating point *)

Definition double_of_Z (x : Z) : spec_float := binary_normalize 53 1024 x 0 false.
Definition ldouble_of_Z (x : Z) : spec_float := binary_normalize 64 16384 x 0 false.

(** Assignment of a [long double] expression to a [double]. *)
Definition double_of_ldouble (x : spec_float) : spec_float :=
  match x with
  | S754_finite sx mx ex => binary_normalize 53 1024 (cond_Zopp sx (Zpos mx)) ex sx
  | _ => x
  end.

Definition dzero : spec_float := S754_zero false.
Definition ddiv : spec_float -> spec_float -> spec_float := SFdiv 53 1024.
Definition dsqrt : spec_float -> spec_float := SFsqrt 53 1024.
Definition fabs : spec_float -> spec_float := SFabs.
(** [x > y] on doubles. *)
Definition dgt (x y : spec_float) : bool := SFltb y x.
Definition ldadd : spec_float -> spec_float -> spec_float := SFadd 64 16384.
Definition ldsub : spec_float -> spec_float -> spec_float := SFsub 64 16384.
Definition lddiv : spec_float -> spec_float -> spec_float := SFdiv 64 16384.

(** [static double criticalValue=1.96;] the binary64 number nearest to 1.96. *)
Definition criticalValue : spec_float := S754_finite false 8827055269646172 (-52).

(** ** Constants and data *)

Definition MID_TERM : Z := 3600.
Definition SHORT_TERM : Z := 900.

(** Modelled from the spec: [struct slab_info] is declared in [proc/slab.h],
    which is not among the sources.  The sample source supplies
    [{name: string, object_size: unsigned, active_objects: unsigned}]; the
    two counts are printed with [%6u]. *)
Record slab_info := {
  si_name : string;
  nr_active_objs : Z;
  obj_size : Z
}.

(** [struct s]: a node of an entity's series.  [s_next] leads to the
    next-older node, [s_prev] to the next-newer one. *)
Record s := {
  s_next : option nat;
  s_prev : option nat;
  s_timestamp : Z;
  s_value : Z
}.

(** [struct slab_buckets], without the link. *)
Record slab_buckets := {
  b_value : Z;
  tied : Z
}.

(** [struct slab_MK], without the registry link; [heap] holds the nodes
    allocated for this entity, the node at address [a] being the [a]-th one
    allocated. *)
Record slab_MK := {
  name : string;
  heap : list s;
  sValues : option nat;
  lastMID_TERM : option nat;
  lastSHORT_TERM : option nat;
  tiedbucketsTotal : list slab_buckets;
  tiedbucketsMID_TERM : list slab_buckets;
  tiedbucketsSHORT_TERM : list slab_buckets
}.

(** The three retention horizons. *)
Inductive horizon := Total | Mid | Short.

(** ** Faults *)

Inductive fault := NullDeref | WildPointer | Diverges.

Inductive outcome (A : Type) :=
  | Done (a : A)
  | Crash (f : fault).
Arguments Done {A} a.
Arguments Crash {A} f.

Definition obind {A B : Type} (m : outcome A) (k : A -> outcome B) : outcome B :=
  match m with
  | Done a => k a
  | Crash f => Crash f
  end.

Notation "'do' x <- m ; k" := (obind m (fun x => k))
  (at level 10, x pattern, m at level 100, k at level 200).

(** [p->field] for a pointer [p] into heap [h]. *)
Definition deref {A : Type} (h : list A) (p : option nat) : outcome A :=
  match p with
  | None => Crash NullDeref
  | Some a => match h !! a with
              | Some x => Done x
              | None => Crash WildPointer
              end
  end.

(** ** Registry and histogram search *)

(** [searchSLAB]: the first registry entry with this name, or NULL. *)
Fixpoint searchSLAB (s_mk_v : list slab_MK) (nm : string) : option nat :=
  match s_mk_v with
  | [] => None
  | curr :: rest =>
      if String.eqb (name curr) nm then Some 0%nat
      else S <$> searchSLAB rest nm
  end.

(** [searchBucket]: the first bucket holding exactly this value, or NULL. *)
Fixpoint searchBucket (buckets : list slab_buckets) (value : Z) : option nat :=
  match buckets with
  | [] => None
  | curr :: rest =>
      if value =? b_value curr then Some 0%nat
      else S <$> searchBucket rest value
  end.

(** [bucket->tied += d] through a pointer returned by [searchBucket]. *)
Definition add_tied (d : Z) (b : slab_buckets) : slab_buckets :=
  {| b_value := b_value b; tied := int (tied b + d) |}.

(** ** Retention *)

(** [curr->nr_active_objs*curr->obj_size], an [unsigned] product. *)
Definition sample_value (curr : slab_info) : Z :=
  unsigned (nr_active_objs curr * obj_size curr).

(** Lines 266-293: the first sample of an entity. *)
Definition first_sample (timestamp : Z) (curr : slab_info) : slab_MK :=
  let actual_slab_value :=
    {| s_next := None; s_prev := None;
       s_timestamp := timestamp; s_value := sample_value curr |} in
  let actual_slab_bucket :=
    {| b_value := s_value actual_slab_value; tied := 1 |} in
  {| name := si_name curr;
     heap := [actual_slab_value];
     sValues := Some 0%nat;
     lastMID_TERM := Some 0%nat;
     lastSHORT_TERM := Some 0%nat;
     tiedbucketsTotal := [actual_slab_bucket];
     tiedbucketsMID_TERM := [actual_slab_bucket];
     tiedbucketsSHORT_TERM := [actual_slab_bucket] |}.

(** Lines 297-304 and 305-311: retire the boundary sample of one bounded
    horizon when it is older than [timestamp - TERM]. *)
Definition clean (TERM timestamp : Z) (h : list s)
    (last : option nat) (buckets : list slab_buckets)
    : outcome (option nat * list slab_buckets) :=
  do l <- deref h last;
  if s_timestamp l <? int (timestamp - TERM) then
    let buckets' :=
      match searchBucket buckets (s_value l) with
      | Some p => alter (add_tied (-1)) p buckets
      | None => buckets
      end in
    Done (s_prev l, buckets')
  else Done (last, buckets).

(** Lines 319-351: count the new value in one histogram. *)
Definition count_in (buckets : list slab_buckets) (value : Z) : list slab_buckets :=
  match searchBucket buckets value with
  | Some p => alter (add_tied 1) p buckets
  | None => {| b_value := value; tied := 1 |} :: buckets
  end.

Definition set_prev (p : option nat) (n : s) : s :=
  {| s_next := s_next n; s_prev := p;
     s_timestamp := s_timestamp n; s_value := s_value n |}.

(** Lines 296-354: a further sample of a known entity. *)
Definition next_sample (timestamp : Z) (curr : slab_info) (actual_slab_MK : slab_MK)
    : outcome slab_MK :=
  let h := heap actual_slab_MK in
  do (lastMID, bucketsMID) <-
    clean MID_TERM timestamp h
      (lastMID_TERM actual_slab_MK) (tiedbucketsMID_TERM actual_slab_MK);
  do (lastSHORT, bucketsSHORT) <-
    clean SHORT_TERM timestamp h
      (lastSHORT_TERM actual_slab_MK) (tiedbucketsSHORT_TERM actual_slab_MK);
  let value := sample_value curr in
  let actual_slab_value := Some (length h) in
  do _ <- deref h (sValues actual_slab_MK);
  let h' :=
    match sValues actual_slab_MK with
    | Some a => alter (set_prev actual_slab_value) a h
    | None => h
    end in
  Done
    {| name := name actual_slab_MK;
       heap := h' ++ [ {| s_next := sValues actual_slab_MK; s_prev := None;
                          s_timestamp := timestamp; s_value := value |} ];
       sValues := actual_slab_value;
       lastMID_TERM := lastMID;
       lastSHORT_TERM := lastSHORT;
       tiedbucketsTotal := count_in (tiedbucketsTotal actual_slab_MK) value;
       tiedbucketsMID_TERM := count_in bucketsMID value;
       tiedbucketsSHORT_TERM := count_in bucketsSHORT value |}.

(** Lines 264-356: the retention step for the entity found (or not) in the
    registry. *)
Definition retention (timestamp : Z) (curr : slab_info) (found : option slab_MK)
    : outcome slab_MK :=
  match found with
  | None => Done (first_sample timestamp curr)
  | Some actual_slab_MK => next_sample timestamp curr actual_slab_MK
  end.

(** ** The statistic engine *)

Record accums := {
  accumTotal : Z;
  accumMID_TERM : Z;
  accumSHORT_TERM : Z
}.

Record counters := {
  counterTotal : Z;
  counterMID_TERM : Z;
  counterSHORT_TERM : Z
}.

(** [x->timestamp >= (timestamp-TERM)]. *)
Definition within (TERM timestamp : Z) (x : s) : bool :=
  int (timestamp - TERM) <=? s_timestamp x.

(** Lines 378-394: one pair of the scan. *)
Definition pair_step (timestamp : Z) (actualS actual : s) (acc : accums) : accums :=
  let both TERM := within TERM timestamp actualS && within TERM timestamp actual in
  let upd (d : Z) :=
    {| accumTotal := int (accumTotal acc + d);
       accumMID_TERM :=
         if both MID_TERM then int (accumMID_TERM acc + d) else accumMID_TERM acc;
       accumSHORT_TERM :=
         if both SHORT_TERM then int (accumSHORT_TERM acc + d) else accumSHORT_TERM acc |} in
  if s_value actual <? s_value actualS then upd 1
  else if s_value actualS <? s_value actual then upd (-1)
  else acc.

(** Lines 377-396: the inner loop, from [actual] to the tail. *)
Fixpoint scan_inner (fuel : nat) (h : list s) (timestamp : Z) (actualS : s)
    (actual : option nat) (acc : accums) : outcome accums :=
  match actual with
  | None => Done acc
  | Some _ =>
      match fuel with
      | O => Crash Diverges
      | S fuel' =>
          do x <- deref h actual;
          scan_inner fuel' h timestamp actualS (s_next x)
            (pair_step timestamp actualS x acc)
      end
  end.

(** Lines 397-403: the counters of one outer iteration. *)
Definition count_step (timestamp : Z) (actualS : s) (cnt : counters) : counters :=
  {| counterTotal := long (counterTotal cnt + 1);
     counterMID_TERM :=
       if within MID_TERM timestamp actualS then long (counterMID_TERM cnt + 1)
       else counterMID_TERM cnt;
     counterSHORT_TERM :=
       if within SHORT_TERM timestamp actualS then long (counterSHORT_TERM cnt + 1)
       else counterSHORT_TERM cnt |}.

(** Lines 374-405: the outer loop, from [actualS] to the tail. *)
Fixpoint scan_outer (fuel : nat) (h : list s) (timestamp : Z)
    (actualS : option nat) (acc : accums) (cnt : counters)
    : outcome (accums * counters) :=
  match actualS with
  | None => Done (acc, cnt)
  | Some _ =>
      match fuel with
      | O => Crash Diverges
      | S fuel' =>
          do x <- deref h actualS;
          do acc' <- scan_inner (length h) h timestamp x (s_next x) acc;
          scan_outer fuel' h timestamp (s_next x) acc' (count_step timestamp x cnt)
      end
  end.

(** [tied*(tied-1)*(2*tied+5)], computed in [int]. *)
Definition tie_term (t : Z) : Z := int (t * (t - 1) * (2 * t + 5)).

(** Lines 408-434: the tie correction of one histogram, a [long double]. *)
Fixpoint secondPartVariance (buckets : list slab_buckets) (acc : spec_float) : spec_float :=
  match buckets with
  | [] => acc
  | b :: rest =>
      secondPartVariance rest
        (if 1 <? tied b then ldadd acc (ldouble_of_Z (tie_term (tied b))) else acc)
  end.

(** What is logged for one horizon. *)
Record horizon_stats := {
  accum : Z;
  counter : Z;
  varS : spec_float;
  firstPart : spec_float;
  secondPart : spec_float;
  z : spec_float;
  trend : string
}.

(** Lines 446-453 (and 465-472, 484-491). *)
Definition decide_trend (z : spec_float) : string :=
  if dgt (fabs z) criticalValue then
    if dgt z dzero then "YES" else "NO"
  else "NO".

(** Lines 435-453 (and 454-472, 473-491): variance, Z and decision of one
    horizon. *)
Definition evaluate (accum counter : Z) (second : spec_float) : horizon_stats :=
  let first :=
    if 1 <? counter
    then ldouble_of_Z (long (counter * (counter - 1) * (2 * counter + 5)))
    else ldouble_of_Z 0 in
  let var :=
    if 1 <? counter
    then double_of_ldouble (lddiv (ldsub first second) (ldouble_of_Z 18))
    else dzero in
  let zs :=
    if 1 <? counter then
      if accum <? 0 then ddiv (double_of_Z (int (accum + 1))) (dsqrt var)
      else if 0 <? accum then ddiv (double_of_Z (int (accum - 1))) (dsqrt var)
      else double_of_Z 0
    else dzero in
  {| accum := accum; counter := counter; varS := var;
     firstPart := first; secondPart := second;
     z := zs; trend := decide_trend zs |}.

Record log_record := {
  log_timestamp : Z;
  log_name : string;
  stats_total : horizon_stats;
  stats_mid : horizon_stats;
  stats_short : horizon_stats
}.

Definition stats (H : horizon) (r : log_record) : horizon_stats :=
  match H with
  | Total => stats_total r
  | Mid => stats_mid r
  | Short => stats_short r
  end.

(** Lines 357-501: the statistics of one entity at one cycle. *)
Definition engine (timestamp : Z) (curr : slab_info) (actual_slab_MK : slab_MK)
    : outcome log_record :=
  let h := heap actual_slab_MK in
  do (acc, cnt) <-
    scan_outer (length h) h timestamp (sValues actual_slab_MK)
      {| accumTotal := 0; accumMID_TERM := 0; accumSHORT_TERM := 0 |}
      {| counterTotal := 0; counterMID_TERM := 0; counterSHORT_TERM := 0 |};
  let second buckets := secondPartVariance buckets (ldouble_of_Z 0) in
  Done
    {| log_timestamp := timestamp;
       log_name := si_name curr;
       stats_total :=
         evaluate (accumTotal acc) (counterTotal cnt)
           (second (tiedbucketsTotal actual_slab_MK));
       stats_mid :=
         evaluate (accumMID_TERM acc) (counterMID_TERM cnt)
           (second (tiedbucketsMID_TERM actual_slab_MK));
       stats_short :=
         evaluate (accumSHORT_TERM acc) (counterSHORT_TERM cnt)
           (second (tiedbucketsSHORT_TERM actual_slab_MK)) |}.

(** ** The cycle *)

(** Lines 259-505 for one entity: retention, then statistics. *)
Definition monitor_entity (timestamp : Z) (curr : slab_info) (found : option slab_MK)
    : outcome (slab_MK * log_record) :=
  do mk <- retention timestamp curr found;
  do r <- engine timestamp curr mk;
  Done (mk, r).

(** One iteration of the loop of lines 259-505 on the registry
    [slab_mk_values]: a new entity is linked at the head, a known one is
    updated in place. *)
Definition monitor_slab (timestamp : Z) (curr : slab_info) (slab_mk_values : list slab_MK)
    : outcome (list slab_MK * log_record) :=
  match searchSLAB slab_mk_values (si_name curr) with
  | None =>
      do (mk, r) <- monitor_entity timestamp curr None;
      Done (mk :: slab_mk_values, r)
  | Some p =>
      do (mk, r) <- monitor_entity timestamp curr (slab_mk_values !! p);
      Done (<[p := mk]> slab_mk_values, r)
  end.

(** [monitor], given the sorted snapshot that [get_slabinfo] and [slabsort]
    produced: the registry after the cycle and the records written.  (When
    [get_slabinfo] fails, [monitor] returns 1 before any entity is touched;
    that path has no state to speak of and is left out.) *)
Fixpoint monitor (timestamp : Z) (slab_list : list slab_info) (slab_mk_values : list slab_MK)
    : outcome (list slab_MK * list log_record) :=
  match slab_list with
  | [] => Done (slab_mk_values, [])
  | curr :: rest =>
      do (reg, r) <- monitor_slab timestamp curr slab_mk_values;
      do (reg', rs) <- monitor timestamp rest reg;
      Done (reg', r :: rs)
  end.

(** Successive cycles of one entity, each with its cycle time and snapshot
    line. *)
Fixpoint replay (found : option slab_MK) (samples : list (Z * slab_info))
    : outcome (option slab_MK) :=
  match samples with
  | [] => Done found
  | (timestamp, curr) :: rest =>
      do (mk, _) <- monitor_entity timestamp curr found;
      replay (Some mk) rest
  end.

(** A snapshot line. *)
Definition cache (n : string) (objs size : Z) : slab_info :=
  {| si_name := n; nr_active_objs := objs; obj_size := size |}.

(** The same cycles without the statistics: the engine reads the state and
    never writes it. *)
Fixpoint history (found : option slab_MK) (samples : list (Z * slab_info))
    : outcome (option slab_MK) :=
  match samples with
  | [] => Done found
  | (timestamp, curr) :: rest =>
      do mk <- retention timestamp curr found;
      history (Some mk) rest
  end.

(** The samples of an entity reported in every cycle from time [t] on, the
    cycles being [d] apart. *)
Fixpoint periodic (t d : Z) (currs : list slab_info) : list (Z * slab_info) :=
  match currs with
  | [] => []
  | curr :: rest => (t, curr) :: periodic (t + d) d rest
  end.

(** The state of an entity after the given cycles ([None] before the first
    one, and after a crash). *)
Definition state_after (samples : list (Z * slab_info)) : option slab_MK :=
  match history None samples with
  | Done st => st
  | Crash _ => None
  end.

(** A cache of one-byte objects whose active count is 1, 2, ..., k over [k]
    cycles. *)
Definition rising (k : nat) : list slab_info :=
  (fun i => cache "kmalloc-64" (Z.of_nat i) 1) <$> seq 1 k.

(** [main], lines 586-597: cycle [i] runs [monitor(i*delay, ...)]; the
    [long] product is converted to the [int] parameter. *)
Fixpoint daemon (delay i : Z) (snapshots : list (list slab_info))
    (slab_mk_values : list slab_MK) : outcome (list slab_MK) :=
  match snapshots with
  | [] => Done slab_mk_values
  | slab_list :: rest =>
      do (reg, _) <- monitor (int (long (i * delay))) slab_list slab_mk_values;
      daemon delay (int (i + 1)) rest reg
  end.

(** Six cycles under [--delay 300] in which the cache "dentry" is reported
    in cycles 0, 1, 2 and 5 only (times 0, 300, 600 and 1500). *)
Definition gap_snapshots : list (list slab_info) :=
  [ [cache "dentry" 5 192]; [cache "dentry" 7 192]; [cache "dentry" 9 192];
    [cache "inode_cache" 3 600]; [cache "inode_cache" 3 600];
    [cache "dentry" 11 192] ].

(** Cycles under [--delay 1000], longer than the short-term window. *)
Definition slow_snapshots (k : nat) : list (list slab_info) :=
  replicate k [cache "dentry" 5 192].

(** ** Sorting the snapshot *)

(** [sort_name]: [strcmp(a->name, b->name) < 0]. *)
Definition sort_name (a b : slab_info) : bool :=
  match String.compare (si_name a) (si_name b) with
  | Lt => true
  | _ => false
  end.

(** [sort_nr_active_objs]: [a->nr_active_objs > b->nr_active_objs]. *)
Definition sort_nr_active_objs (a b : slab_info) : bool :=
  nr_active_objs b <? nr_active_objs a.

(** [sort_obj_size]: [a->obj_size > b->obj_size]. *)
Definition sort_obj_size (a b : slab_info) : bool :=
  obj_size b <? obj_size a.

(** [set_sort_func]; [DEF_SORT_FUNC] is [sort_nr_active_objs]. *)
Definition set_sort_func (key : Ascii.ascii) : slab_info -> slab_info -> bool :=
  if Ascii.eqb key "n"%char then sort_name
  else if Ascii.eqb key "a"%char then sort_nr_active_objs
  else if Ascii.eqb key "s"%char then sort_obj_size
  else sort_nr_active_objs.

(** [merge_objs]: the head of [a] is taken when [sort_func] holds of the two
    heads, the head of [b] otherwise; what is left of the longer list is
    appended. *)
Fixpoint merge_objs (sort_func : slab_info -> slab_info -> bool)
    (a : list slab_info) : list slab_info -> list slab_info :=
  fix merge_b (b : list slab_info) : list slab_info :=
    match a, b with
    | [], _ => b
    | _, [] => a
    | x :: a', y :: b' =>
        if sort_func x y then x :: merge_objs sort_func a' b
        else y :: merge_b b'
    end.

(** Lines 121-124 of [slabsort]: how often [list] advances while [b], which
    starts at [list->next], runs ahead two nodes at a time. *)
Fixpoint advance (b : list slab_info) : nat :=
  match b with
  | _ :: _ :: b' => S (advance b')
  | _ => O
  end.

(** [slabsort]: the list is cut after the node [list] stopped on, the two
    parts are sorted and merged. *)
#[local] Unset Equations With Funext.
Equations? slabsort (sort_func : slab_info -> slab_info -> bool)
    (l : list slab_info) : list slab_info by wf (length l) lt :=
  slabsort sort_func [] := [];
  slabsort sort_func [x] := [x];
  slabsort sort_func (x :: y :: rest) :=
    merge_objs sort_func
      (slabsort sort_func (take (S (advance (y :: rest))) (x :: y :: rest)))
      (slabsort sort_func (drop (S (advance (y :: rest))) (x :: y :: rest))).
Proof.
  all: assert (forall b : list slab_info, 2 * advance b <= length b)%nat as Hadv
         by (fix IH 1; intros [|? [|? b']]; simpl; try lia; specialize (IH b'); lia).
  - specialize (Hadv (y :: rest)). rewrite length_take. simpl in *. lia.
  - rewrite length_drop. simpl. lia.
Qed.

(** The entity registered under a name: what [searchSLAB] points at. *)
Definition find_slab (slab_mk_values : list slab_MK) (nm : string) : option slab_MK :=
  match searchSLAB slab_mk_values nm with
  | Some p => slab_mk_values !! p
  | None => None
  end.

(** ** The command line and the main loop *)

(** What [getopt_long] hands to the switch of [main]: [-d] with what
    [strtol] made of its argument and whether it set [errno], [-s] with its
    argument, [-h], or an option it does not know. *)
Inductive cmd_option :=
  | opt_d (value : Z) (errno : bool)
  | opt_s (optarg : string)
  | opt_h
  | opt_unknown.

(** How the option loop of [main] ends: the daemon starts with a delay and a
    sort routine, or the process ends with a status. *)
Inductive startup :=
  | Start (delay : Z) (sort_func : slab_info -> slab_info -> bool)
  | Exit (status : Z).

(** [optarg[0]]; an empty argument holds the terminating NUL only. *)
Definition first_char (optarg : string) : Ascii.ascii :=
  match optarg with
  | String ch _ => ch
  | EmptyString => Ascii.zero
  end.

(** Lines 532-558: the option loop. *)
Fixpoint options (ops : list cmd_option) (delay : Z)
    (sort_func : slab_info -> slab_info -> bool) : startup :=
  match ops with
  | [] => Start delay sort_func
  | opt_d value errno :: rest =>
      if errno then Exit 1
      else if value <? 0 then Exit 1
      else options rest value sort_func
  | opt_s optarg :: rest =>
      options rest delay (set_sort_func (first_char optarg))
  | opt_h :: _ => Exit 0
  | opt_unknown :: _ => Exit 1
  end.

(** Lines 81, 530 and 532-558: [delay] starts at 30 and [sort_func] at
    [DEF_SORT_FUNC]. *)
Definition main_options (ops : list cmd_option) : startup :=
  options ops 30 sort_nr_active_objs.

(** Lines 586-597 with lines 253-257: [reads] is what [get_slabinfo]
    delivers cycle after cycle, [None] when it fails; [monitor] then returns
    1 and the loop is left.  The result holds the registry and the records
    of each completed cycle. *)
Fixpoint main_loop (sort_func : slab_info -> slab_info -> bool) (delay i : Z)
    (reads : list (option (list slab_info))) (slab_mk_values : list slab_MK)
    : outcome (list slab_MK * list (list log_record)) :=
  match reads with
  | [] => Done (slab_mk_values, [])
  | None :: _ => Done (slab_mk_values, [])
  | Some slab_list :: rest =>
      do (reg, rs) <-
        monitor (int (long (i * delay))) (slabsort sort_func slab_list) slab_mk_values;
      do (reg', log) <- main_loop sort_func delay (int (i + 1)) rest reg;
      Done (reg', rs :: log)
  end.

(** The snapshots read before [get_slabinfo] first fails. *)
Fixpoint before_failure (reads : list (option (list slab_info)))
    : list (list slab_info) :=
  match reads with
  | Some slab_list :: rest => slab_list :: before_failure rest
  | _ => []
  end.

(** ** Vocabulary of the specification *)

Definition window (H : horizon) : option Z :=
  match H with
  | Total => None
  | Mid => Some MID_TERM
  | Short => Some SHORT_TERM
  end.

Definition histogram (H : horizon) (mk : slab_MK) : list slab_buckets :=
  match H with
  | Total => tiedbucketsTotal mk
  | Mid => tiedbucketsMID_TERM mk
  | Short => tiedbucketsSHORT_TERM mk
  end.

(** The boundary pointer of a bounded horizon. *)
Definition boundary (H : horizon) (mk : slab_MK) : option nat :=
  match H with
  | Total => None
  | Mid => lastMID_TERM mk
  | Short => lastSHORT_TERM mk
  end.

(** A sample lies within the active window of [H] at time [t]. *)
Definition in_window (H : horizon) (t : Z) (x : s) : bool :=
  match window H with
  | None => true
  | Some W => t - W <=? s_timestamp x
  end.

Definition samples_within (H : horizon) (t : Z) (h : list s) : Z :=
  Z.of_nat (length (List.filter (in_window H t) h)).

Definition sum_tied (buckets : list slab_buckets) : Z :=
  foldr (fun b acc => tied b + acc) 0 buckets.

(** The count recorded for value [v]. *)
Fixpoint tied_of (buckets : list slab_buckets) (v : Z) : Z :=
  match buckets with
  | [] => 0
  | b :: rest => if v =? b_value b then tied b else tied_of rest v
  end.

(** The series of an entity, newest sample first. *)
Definition series (mk : slab_MK) : list s := reverse (heap mk).

(** The sum of [f newer older] over all pairs of a newest-first series, each
    pair taken once. *)
Fixpoint pair_sum (f : s -> s -> Z) (l : list s) : Z :=
  match l with
  | [] => 0
  | newer :: rest => foldr (fun older acc => f newer older + acc) 0 rest + pair_sum f rest
  end.

(** The Mann-Kendall S of horizon [H] at time [t]: the sign of
    [value newer - value older] over the pairs with both samples within the
    window. *)
Definition mk_S (H : horizon) (t : Z) (l : list s) : Z :=
  pair_sum
    (fun newer older =>
       if in_window H t newer && in_window H t older
       then Z.sgn (s_value newer - s_value older) else 0) l.

(** The retirement step as the specification words it: repeated while the
    boundary sample is older than the window. *)
Fixpoint clean_while (fuel : nat) (TERM timestamp : Z) (h : list s)
    (last : option nat) (buckets : list slab_buckets)
    : outcome (option nat * list slab_buckets) :=
  match fuel with
  | O => Crash Diverges
  | S fuel' =>
      do l <- deref h last;
      if s_timestamp l <? timestamp - TERM then
        clean_while fuel' TERM timestamp h (s_prev l)
          match searchBucket buckets (s_value l) with
          | Some p => alter (add_tied (-1)) p buckets
          | None => buckets
          end
      else Done (last, buckets)
  end.

(** ** Invariants *)

(** What a cycle records of a snapshot line. *)
Definition reading (tc : Z * slab_info) : Z * Z := (tc.1, sample_value tc.2).

(** The node at address [a] of a series of [n] samples. *)
Definition node (n a : nat) (tv : Z * Z) : s :=
  {| s_next := match a with O => None | S a' => Some a' end;
     s_prev := if (S a <? n)%nat then Some (S a) else None;
     s_timestamp := tv.1;
     s_value := tv.2 |}.

(** The heap of an entity whose samples were [samples], oldest first. *)
Definition build (samples : list (Z * Z)) : list s :=
  imap (node (length samples)) samples.

Definition Chain (samples : list (Z * Z)) (mk : slab_MK) : Prop :=
  samples <> [] /\
  heap mk = build samples /\
  sValues mk = Some (pred (length samples)).

Fixpoint occ (v : Z) (l : list Z) : Z :=
  match l with
  | [] => 0
  | x :: rest => (if v =? x then 1 else 0) + occ v rest
  end.

(** A histogram records exactly the occurrences in [vals]. *)
Definition counts (buckets : list slab_buckets) (vals : list Z) : Prop :=
  NoDup (b_value <$> buckets) /\ forall v, tied_of buckets v = occ v vals.

(** The nodes below address [r] are retired; [last] is what the boundary
    pointer holds in a series of [n] nodes. *)
Definition retired (r n : nat) (last : option nat) : Prop :=
  (last = Some r /\ (r < n)%nat) \/ (last = None /\ S r = n).

Definition Inv (samples : list (Z * Z)) (mk : slab_MK) : Prop :=
  Chain samples mk /\
  counts (tiedbucketsTotal mk) samples.*2 /\
  (exists r, retired r (length samples) (lastMID_TERM mk) /\
             counts (tiedbucketsMID_TERM mk) (drop r samples.*2)) /\
  (exists r, retired r (length samples) (lastSHORT_TERM mk) /\
             counts (tiedbucketsSHORT_TERM mk) (drop r samples.*2)).

(** ** Auxiliary definitions of the proofs *)

(** The histogram update of a retirement. *)
Definition uncount (buckets : list slab_buckets) (value : Z) : list slab_buckets :=
  match searchBucket buckets value with
  | Some p => alter (add_tied (-1)) p buckets
  | None => buckets
  end.

Definition sumZ (l : list Z) : Z := foldr Z.add 0 l.

(** The nodes from pointer [p] down to the tail. *)
Definition below (p : option nat) (h : list s) : list s :=
  match p with
  | None => []
  | Some a => reverse (take (S a) h)
  end.

(** The scan of a newest-first list of nodes. *)
Fixpoint scan_list (t : Z) (l : list s) (acc : accums) (cnt : counters)
    : accums * counters :=
  match l with
  | [] => (acc, cnt)
  | x :: rest =>
      scan_list t rest (foldl (fun a y => pair_step t x y a) acc rest)
        (count_step t x cnt)
  end.

(** The window test of the code, with its [int] subtraction. *)
Definition code_window (H : horizon) (t : Z) (x : s) : bool :=
  match window H with
  | None => true
  | Some W => within W t x
  end.

Definition code_term (H : horizon) (t : Z) (newer older : s) : Z :=
  if code_window H t newer && code_window H t older
  then Z.sgn (s_value newer - s_value older) else 0.

Definition acc_of (H : horizon) (a : accums) : Z :=
  match H with
  | Total => accumTotal a
  | Mid => accumMID_TERM a
  | Short => accumSHORT_TERM a
  end.

Definition cnt_of (H : horizon) (c : counters) : Z :=
  match H with
  | Total => counterTotal c
  | Mid => counterMID_TERM c
  | Short => counterSHORT_TERM c
  end.

Definition int_ok (a : accums) : Prop :=
  forall H, - 2 ^ 31 <= acc_of H a <= INT_MAX.

Definition code_count (H : horizon) (t : Z) (l : list s) : Z :=
  Z.of_nat (length (List.filter (code_window H t) l)).

Definition long_ok (c : counters) : Prop :=
  forall H, - 2 ^ 63 <= cnt_of H c < 2 ^ 63.

(** What the engine logs for horizon [H], in terms of the series. *)
Definition stats_of (H : horizon) (t : Z) (mk : slab_MK) : horizon_stats :=
  evaluate (int (pair_sum (code_term H t) (series mk)))
           (long (code_count H t (series mk)))
           (secondPartVariance (histogram H mk) (ldouble_of_Z 0)).

Definition cycle_time (t : Z) : Prop := MID_TERM - 2 ^ 31 <= t <= INT_MAX.

(** The state of an entity whose recorded samples are [samples]. *)
Definition chained (samples : list (Z * Z)) (st : option slab_MK) : Prop :=
  match st with
  | None => samples = []
  | Some mk => Chain samples mk
  end.

Definition invariant (samples : list (Z * Z)) (st : option slab_MK) : Prop :=
  match st with
  | None => samples = []
  | Some mk => Inv samples mk
  end.

(** Successive samples are [d] apart and the newest was taken at [t]. *)
Definition spaced (d t : Z) (samples : list (Z * Z)) : Prop :=
  (forall i x y, samples !! i = Some x -> samples !! S i = Some y -> y.1 = x.1 + d) /\
  (forall x, samples !! pred (length samples) = Some x -> x.1 = t).

(** Exactly the samples below address [r] are older than [t - W]. *)
Definition splits (W t : Z) (samples : list (Z * Z)) (r : nat) : Prop :=
  forall i x, samples !! i = Some x ->
    ((i < r)%nat -> x.1 < t - W) /\ ((r <= i)%nat -> t - W <= x.1).

(** The boundary pointer [last] and the histogram [bs] of a horizon of
    width [W] follow the window at time [t]. *)
Definition tracks (W t : Z) (samples : list (Z * Z))
    (last : option nat) (bs : list slab_buckets) : Prop :=
  exists r, last = Some r /\ (r < length samples)%nat /\
            counts bs (drop r samples.*2) /\ splits W t samples r.

(** The state of horizon [H] follows the window at time [t]. *)
Definition follows (H : horizon) (t : Z) (samples : list (Z * Z)) (mk : slab_MK) : Prop :=
  match window H with
  | None => counts (histogram H mk) samples.*2
  | Some W => tracks W t samples (boundary H mk) (histogram H mk)
  end.

(** The pair sum of the total horizon, on the values alone. *)
Fixpoint sign_sum (l : list Z) : Z :=
  match l with
  | [] => 0
  | newer :: rest =>
      foldr (fun older acc => Z.sgn (newer - older) + acc) 0 rest + sign_sum rest
  end.

(** An entity state reached from nothing by cycles of that entity. *)
Definition reachable (mk : slab_MK) : Prop :=
  exists inputs, replay None inputs = Done (Some mk).

(** [y] may follow [x] in a list sorted by [sort_func]: the routine does not
    put [y] before [x]. *)
Definition may_follow (sort_func : slab_info -> slab_info -> bool)
    (x y : slab_info) : Prop :=
  sort_func y x = false.

(** Room for [k] more samples in every series. *)
Definition roomy (k : nat) (reg : list slab_MK) : Prop :=
  Z.of_nat k <= INT_MAX /\
  Forall (fun mk => Z.of_nat (length (heap mk)) + Z.of_nat k <= INT_MAX) reg.

(** The cycle counter [i] of [main] after [k] more cycles. *)
Definition counter_after (i : Z) (k : nat) : Z := Nat.iter k (fun j => int (j + 1)) i.

(** Every cache named in [names] has been reported in each of the [j] cycles
    so far, [d] apart from time 0 on: its entity is in the state those
    cycles produce. *)
Definition steady (d : Z) (j : nat) (names : list string) (reg : list slab_MK) : Prop :=
  forall nm, nm ∈ names ->
    exists cs, length cs = j /\
               Forall (fun c => si_name c = nm) cs /\
               replay None (periodic 0 d cs) = Done (find_slab reg nm).

(** The buckets of every histogram hold the values of the series, each
    once. *)
Definition bucket_per_value (st : option slab_MK) : Prop :=
  match st with
  | None => True
  | Some mk =>
      forall H, NoDup (b_value <$> histogram H mk) /\
                forall v, v ∈ b_value <$> histogram H mk <-> v ∈ s_value <$> heap mk
  end.

(** The sign bit of a number; a NaN has none here. *)
Definition sign_of (x : spec_float) : option bool :=
  match x with
  | S754_zero sx | S754_infinity sx | S754_finite sx _ _ => Some sx
  | S754_nan => None
  end.

(** The total-horizon flag of a series of [n] samples, each above the one
    before and no two equal. *)
Definition flagged (n : Z) : bool :=
  String.eqb (trend (evaluate (n * (n - 1) / 2) n (ldouble_of_Z 0))) "YES".

(** One step of the check of [flagged] on successive lengths. *)
Definition flag_step (st : Z * bool) : Z * bool := (st.1 + 1, st.2 && flagged st.1).

(** ** Evaluating concrete runs *)

(** Names the result of the run that a goal [run = Done res /\ _] starts
    with, by evaluation. *)
Ltac evaluate_run E :=
  match goal with
  | |- ?run = Done ?res /\ _ =>
      assert (run = Done res) as E by (vm_compute; reflexivity)
  end.

(** Settles that the names of a concrete snapshot are distinct. *)
Ltac distinct_names := refine (bool_decide_unpack _ _); vm_compute; exact I.

(** ** Machine arithmetic *)

Lemma int_id x : - 2 ^ 31 <= x <= INT_MAX -> int x = x.
Proof.
  unfold int, wrap, INT_MAX. intros Hx.
  replace (32 - 1) with 31 by lia.
  rewrite Z.mod_small; lia.
Qed.

Lemma int_range x : - 2 ^ 31 <= int x <= INT_MAX.
Proof.
  unfold int, wrap, INT_MAX. replace (32 - 1) with 31 by lia.
  pose proof (Z.mod_pos_bound (x + 2 ^ 31) (2 ^ 32)). lia.
Qed.

Lemma int_add_int x d : int (int x + d) = int (x + d).
Proof.
  unfold int, wrap. replace (32 - 1) with 31 by lia. f_equal.
  replace ((x + 2 ^ 31) mod 2 ^ 32 - 2 ^ 31 + d + 2 ^ 31)
    with ((x + 2 ^ 31) mod 2 ^ 32 + d) by lia.
  rewrite Zplus_mod_idemp_l. f_equal. lia.
Qed.

Lemma long_id x : - 2 ^ 63 <= x < 2 ^ 63 -> long x = x.
Proof.
  unfold long, wrap. intros Hx.
  replace (64 - 1) with 63 by lia.
  rewrite Z.mod_small; lia.
Qed.

Lemma long_add_long x d : long (long x + d) = long (x + d).
Proof.
  unfold long, wrap. replace (64 - 1) with 63 by lia. f_equal.
  replace ((x + 2 ^ 63) mod 2 ^ 64 - 2 ^ 63 + d + 2 ^ 63)
    with ((x + 2 ^ 63) mod 2 ^ 64 + d) by lia.
  rewrite Zplus_mod_idemp_l. f_equal. lia.
Qed.

(** ** Histograms *)

Lemma occ_app v l1 l2 : occ v (l1 ++ l2) = occ v l1 + occ v l2.
Proof. induction l1 as [|x l1 IH]; simpl; lia. Qed.

Lemma occ_bounds v l : 0 <= occ v l <= Z.of_nat (length l).
Proof. induction l as [|x l IH]; simpl; [lia|]. destruct (v =? x); lia. Qed.

Lemma searchBucket_None bs v :
  searchBucket bs v = None <-> v ∉ b_value <$> bs.
Proof.
  induction bs as [|b bs IH]; simpl.
  - split; [intros _; apply not_elem_of_nil | done].
  - rewrite not_elem_of_cons. destruct (Z.eqb_spec v (b_value b)) as [->|Hne].
    + split; [done | intros [? _]; done].
    + rewrite fmap_None, IH. tauto.
Qed.

Lemma searchBucket_Some bs v p :
  searchBucket bs v = Some p ->
  exists b, bs !! p = Some b /\ b_value b = v.
Proof.
  revert p. induction bs as [|b bs IH]; simpl; intros p; [done|].
  destruct (Z.eqb_spec v (b_value b)) as [->|Hne].
  - intros [= <-]. eauto.
  - destruct (searchBucket bs v) as [q|] eqn:E; simpl; [|done].
    intros [= <-]. apply (IH q eq_refl).
Qed.

Lemma tied_of_absent bs v : searchBucket bs v = None -> tied_of bs v = 0.
Proof.
  induction bs as [|b bs IH]; simpl; [done|].
  destruct (v =? b_value b); [done|].
  destruct (searchBucket bs v); [done | auto].
Qed.

Lemma values_alter d (p : nat) (bs : list slab_buckets) :
  b_value <$> alter (add_tied d) p bs = b_value <$> bs.
Proof.
  revert p. induction bs as [|b bs IH]; intros [|p]; simpl; f_equal; apply IH.
Qed.

Lemma tied_of_alter d (bs : list slab_buckets) v (p : nat) w :
  searchBucket bs v = Some p ->
  tied_of (alter (add_tied d) p bs) w =
  if w =? v then int (tied_of bs v + d) else tied_of bs w.
Proof.
  revert p. induction bs as [|b bs IH]; simpl; intros p; [done|].
  destruct (Z.eqb_spec v (b_value b)) as [->|Hne].
  - intros [= <-]. simpl. destruct (w =? b_value b); done.
  - destruct (searchBucket bs v) as [q|] eqn:E; simpl; [|done].
    intros [= <-]. simpl.
    change (list_alter (add_tied d) q bs) with (alter (add_tied d) q bs).
    rewrite (IH q eq_refl).
    destruct (Z.eqb_spec w (b_value b)) as [->|Hw]; [|done].
    destruct (Z.eqb_spec (b_value b) v); [congruence | done].
Qed.

Lemma counts_count_in bs vals v :
  counts bs vals -> Z.of_nat (length vals) < INT_MAX ->
  counts (count_in bs v) (vals ++ [v]).
Proof.
  intros [Hnd Hocc] Hlen. unfold count_in.
  destruct (searchBucket bs v) as [p|] eqn:E.
  - split; [by rewrite values_alter|].
    intros w. rewrite (tied_of_alter _ _ _ _ _ E), occ_app. simpl.
    destruct (Z.eqb_spec w v) as [->|Hw]; [|rewrite Hocc; lia].
    rewrite Hocc, int_id; [lia|].
    pose proof (occ_bounds v vals). unfold INT_MAX in *. lia.
  - split.
    + simpl. apply NoDup_cons. split; [by apply searchBucket_None | done].
    + intros w. rewrite occ_app. simpl.
      destruct (Z.eqb_spec w v) as [->|Hw]; [|rewrite Hocc; lia].
      rewrite <- Hocc, (tied_of_absent _ _ E). lia.
Qed.

Lemma counts_uncount bs x vals :
  counts bs (x :: vals) -> Z.of_nat (length vals) < INT_MAX ->
  counts (uncount bs x) vals.
Proof.
  intros [Hnd Hocc] Hlen. unfold uncount.
  pose proof (Hocc x) as Hx. simpl in Hx. rewrite Z.eqb_refl in Hx.
  pose proof (occ_bounds x vals) as Hb.
  destruct (searchBucket bs x) as [p|] eqn:E.
  - split; [by rewrite values_alter|].
    intros w. rewrite (tied_of_alter _ _ _ _ _ E).
    specialize (Hocc w). simpl in Hocc.
    destruct (Z.eqb_spec w x) as [Heq|Hw]; [subst w|lia].
    rewrite Hx, int_id; unfold INT_MAX in *; lia.
  - rewrite (tied_of_absent _ _ E) in Hx. lia.
Qed.

Lemma counts_bucket bs vals b :
  counts bs vals -> b ∈ bs -> tied b = occ (b_value b) vals.
Proof.
  intros [Hnd Hocc] Hb. rewrite <- Hocc. clear Hocc.
  induction bs as [|c bs IH]; [by apply elem_of_nil in Hb|].
  simpl in Hnd. apply NoDup_cons in Hnd as [Hc Hnd]. simpl.
  apply elem_of_cons in Hb as [->|Hb]; [by rewrite Z.eqb_refl|].
  destruct (Z.eqb_spec (b_value b) (b_value c)) as [Heq|_]; [|auto].
  exfalso. apply Hc. rewrite <- Heq. by apply list_elem_of_fmap_2.
Qed.

Lemma sum_tied_sumZ bs : sum_tied bs = sumZ (tied <$> bs).
Proof.
  induction bs as [|b bs IH]; [done|].
  change (tied b + sum_tied bs = tied b + sumZ (tied <$> bs)). by rewrite IH.
Qed.

Lemma sumZ_cons x l : sumZ (x :: l) = x + sumZ l.
Proof. done. Qed.

Lemma sumZ_indicator x (vs : list Z) :
  NoDup vs -> x ∈ vs -> sumZ ((fun v => if v =? x then 1 else 0) <$> vs) = 1.
Proof.
  induction vs as [|v vs IH]; intros Hnd Hx; [by apply elem_of_nil in Hx|].
  apply NoDup_cons in Hnd as [Hv Hnd]. rewrite fmap_cons, sumZ_cons.
  destruct (Z.eqb_spec v x) as [->|Hne].
  - assert (sumZ ((fun v => if v =? x then 1 else 0) <$> vs) = 0) as ->; [|done].
    clear IH Hnd Hx. induction vs as [|w vs IH]; [done|].
    apply not_elem_of_cons in Hv as [Hw Hv]. rewrite fmap_cons, sumZ_cons.
    destruct (Z.eqb_spec w x); [congruence|]. rewrite IH by done. lia.
  - apply elem_of_cons in Hx as [?|Hx]; [congruence|]. rewrite IH by done. lia.
Qed.

Lemma sumZ_occ (vs vals : list Z) :
  NoDup vs -> (forall v, v ∈ vals -> v ∈ vs) ->
  sumZ ((fun v => occ v vals) <$> vs) = Z.of_nat (length vals).
Proof.
  intros Hnd. induction vals as [|x vals IH]; intros Hcov.
  - clear Hnd Hcov. induction vs as [|v vs IH]; [done|].
    rewrite fmap_cons, sumZ_cons, IH. done.
  - assert (sumZ ((fun v => occ v (x :: vals)) <$> vs) =
            sumZ ((fun v => if v =? x then 1 else 0) <$> vs) +
            sumZ ((fun v => occ v vals) <$> vs)) as ->.
    { clear. induction vs as [|v vs IH]; [done|].
      rewrite !fmap_cons, !sumZ_cons, IH. simpl. lia. }
    rewrite sumZ_indicator, IH; [simpl length; lia | | done |].
    + intros v Hv. apply Hcov. by apply elem_of_cons; right.
    + apply Hcov. by apply elem_of_cons; left.
Qed.

Lemma counts_cover bs vals v :
  counts bs vals -> v ∈ vals -> v ∈ b_value <$> bs.
Proof.
  intros [_ Hocc] Hv.
  destruct (searchBucket bs v) as [p|] eqn:E.
  - destruct (searchBucket_Some _ _ _ E) as (b & Hb & <-).
    apply list_elem_of_fmap_2. by eapply list_elem_of_lookup_2.
  - exfalso. pose proof (tied_of_absent _ _ E) as H0. rewrite Hocc in H0.
    clear -Hv H0. induction vals as [|x vals IH]; [by apply elem_of_nil in Hv|].
    simpl in H0. pose proof (occ_bounds v vals).
    apply elem_of_cons in Hv as [->|Hv].
    + rewrite Z.eqb_refl in H0. lia.
    + destruct (v =? x); [lia|]. apply IH; [done | lia].
Qed.

Lemma counts_sum bs vals :
  counts bs vals -> sum_tied bs = Z.of_nat (length vals).
Proof.
  intros Hc. rewrite sum_tied_sumZ.
  rewrite <- (sumZ_occ (b_value <$> bs) vals).
  - rewrite <- list_fmap_compose. f_equal. apply Forall_fmap_ext, Forall_forall.
    intros b Hb. simpl. by apply (counts_bucket bs).
  - apply Hc.
  - intros v. by apply counts_cover.
Qed.

(** ** The series as a heap *)

Lemma length_build samples : length (build samples) = length samples.
Proof. apply length_imap. Qed.

Lemma lookup_build samples a :
  build samples !! a = node (length samples) a <$> samples !! a.
Proof. apply list_lookup_imap. Qed.

Lemma build_snoc samples tv :
  samples <> [] ->
  alter (set_prev (Some (length samples))) (pred (length samples)) (build samples)
    ++ [ {| s_next := Some (pred (length samples)); s_prev := None;
            s_timestamp := tv.1; s_value := tv.2 |} ]
  = build (samples ++ [tv]).
Proof.
  intros Hne. set (n := length samples).
  assert (0 < n)%nat as Hn by (subst n; destruct samples; simpl; [done | lia]).
  apply list_eq. intros i. rewrite lookup_build, length_app. simpl length. fold n.
  destruct (decide (i < n)%nat) as [Hi|Hi].
  - rewrite lookup_app_l by (rewrite length_alter, length_build; done).
    rewrite lookup_app_l by done.
    destruct (lookup_lt_is_Some_2 samples i Hi) as [x Hx]. rewrite Hx. simpl.
    destruct (decide (i = pred n)) as [->|Hp].
    + rewrite list_lookup_alter_eq, lookup_build, Hx. simpl. fold n.
      unfold node, set_prev. simpl. f_equal. f_equal.
      destruct (Nat.ltb_spec (S (pred n)) (n + 1)); [f_equal; lia | lia].
    + rewrite list_lookup_alter_ne by done. rewrite lookup_build, Hx. simpl. fold n.
      unfold node. f_equal. f_equal.
      destruct (Nat.ltb_spec (S i) n), (Nat.ltb_spec (S i) (n + 1)); (done || lia).
  - rewrite lookup_app_r by (rewrite length_alter, length_build; fold n; lia).
    rewrite lookup_app_r by (fold n; lia).
    rewrite length_alter, length_build. fold n.
    destruct (i - n)%nat as [|k] eqn:E; simpl; [|done].
    assert (i = n) as -> by lia. unfold node. f_equal. f_equal.
    + destruct n; [lia | done].
    + destruct (Nat.ltb_spec (S n) (n + 1)); [lia | done].
Qed.

Lemma deref_build samples a x :
  samples !! a = Some x ->
  deref (build samples) (Some a) = Done (node (length samples) a x).
Proof. intros Hx. unfold deref. by rewrite lookup_build, Hx. Qed.

Lemma Chain_first t c : Chain [reading (t, c)] (first_sample t c).
Proof. split; [done|]. split; reflexivity. Qed.

Lemma Chain_head samples mk :
  Chain samples mk ->
  exists x, samples !! pred (length samples) = Some x /\
            deref (heap mk) (sValues mk)
            = Done (node (length samples) (pred (length samples)) x).
Proof.
  intros (Hne & Hh & Hs).
  destruct (lookup_lt_is_Some_2 samples (pred (length samples))) as [x Hx].
  { destruct samples; simpl; [done | lia]. }
  exists x. split; [done|]. rewrite Hh, Hs. by apply deref_build.
Qed.

Lemma retired_Some r n last a :
  retired r n last -> last = Some a -> a = r /\ (r < n)%nat.
Proof. intros [[-> ?]|[-> _]]; [by intros [= <-] | done]. Qed.

Lemma clean_Inv TERM t samples r last bs last' bs' :
  retired r (length samples) last ->
  counts bs (drop r samples.*2) ->
  Z.of_nat (length samples) < INT_MAX ->
  clean TERM t (build samples) last bs = Done (last', bs') ->
  exists r', retired r' (S (length samples)) last' /\
             counts bs' (drop r' samples.*2) /\ (r' <= length samples)%nat.
Proof.
  intros Hr Hc Hlen. unfold clean.
  destruct last as [a|]; [|done].
  destruct (retired_Some _ _ _ _ Hr eq_refl) as [-> Hrn].
  destruct (lookup_lt_is_Some_2 samples r Hrn) as [x Hx].
  rewrite (deref_build _ _ _ Hx). simpl.
  destruct (x.1 <? int (t - TERM)).
  - intros [= <- <-]. exists (S r). split; [|split; [|lia]].
    + destruct (Nat.ltb_spec (S r) (length samples)); [left | right].
      * split; [done | lia].
      * split; [done | lia].
    + assert (samples.*2 !! r = Some x.2) as Hv by (by rewrite list_lookup_fmap, Hx).
      rewrite (drop_S _ _ _ Hv) in Hc.
      apply counts_uncount in Hc; [done|].
      rewrite length_drop, length_fmap. lia.
  - intros [= <- <-]. exists r. split; [|split; [done | lia]].
    left. split; [done | lia].
Qed.

Lemma next_sample_Inv samples mk t c mk' :
  Inv samples mk ->
  Z.of_nat (length samples) < INT_MAX ->
  next_sample t c mk = Done mk' ->
  Inv (samples ++ [reading (t, c)]) mk'.
Proof.
  intros (HC & HT & (rm & Hrm & Hcm) & (rs & Hrs & Hcs)) Hlen.
  pose proof HC as (Hne & Hh & Hs).
  unfold next_sample. rewrite Hh.
  destruct (clean MID_TERM _ _ _ _) as [[lastM bM]|] eqn:EM; [|done].
  destruct (clean SHORT_TERM _ _ _ _) as [[lastS bS]|] eqn:ES; [|done].
  simpl.
  destruct (Chain_head _ _ HC) as (x & Hx & Hd). rewrite Hh in Hd. rewrite Hd. simpl.
  intros [= <-].
  destruct (clean_Inv _ _ _ _ _ _ _ _ Hrm Hcm Hlen EM) as (rm' & Hrm' & Hcm' & Hlm).
  destruct (clean_Inv _ _ _ _ _ _ _ _ Hrs Hcs Hlen ES) as (rs' & Hrs' & Hcs' & Hls).
  assert (forall r bs, (r <= length samples)%nat ->
            counts bs (drop r samples.*2) ->
            counts (count_in bs (sample_value c))
                   (drop r (samples ++ [reading (t, c)]).*2)) as Hstep.
  { intros r bs Hr Hc. rewrite fmap_app, drop_app_le by (rewrite length_fmap; lia).
    apply counts_count_in; [done|]. rewrite length_drop, length_fmap. lia. }
  split; [|split; [|split]]; simpl.
  - split; [by destruct samples|]. split; simpl.
    + rewrite Hs. rewrite <- (build_snoc samples (reading (t, c))) by done.
      by rewrite length_build.
    + by rewrite length_build, length_app, Nat.add_1_r.
  - apply (Hstep 0%nat); [lia | done].
  - exists rm'. rewrite length_app. simpl length.
    replace (length samples + 1)%nat with (S (length samples)) by lia. auto.
  - exists rs'. rewrite length_app. simpl length.
    replace (length samples + 1)%nat with (S (length samples)) by lia. auto.
Qed.

(** ** The pairwise scan *)

Lemma below_S a (h : list s) x :
  h !! S a = Some x -> below (Some (S a)) h = x :: below (Some a) h.
Proof.
  intros Hx. unfold below. rewrite (take_S_r _ _ _ Hx), reverse_app. done.
Qed.

Lemma below_0 (h : list s) x : h !! 0%nat = Some x -> below (Some 0%nat) h = [x].
Proof. destruct h; [done|]. by intros [= ->]. Qed.

Lemma below_head (h : list s) :
  h <> [] -> below (Some (pred (length h))) h = reverse h.
Proof.
  intros Hne. unfold below.
  rewrite take_ge; [done|]. destruct h; simpl; [done | lia].
Qed.

Lemma next_node n a x :
  s_next (node n a x) = match a with O => None | S a' => Some a' end.
Proof. done. Qed.

Lemma scan_inner_S fuel h t x a acc :
  scan_inner (S fuel) h t x (Some a) acc
  = obind (deref h (Some a))
      (fun y => scan_inner fuel h t x (s_next y) (pair_step t x y acc)).
Proof. done. Qed.

Lemma scan_outer_S fuel h t a acc cnt :
  scan_outer (S fuel) h t (Some a) acc cnt
  = obind (deref h (Some a)) (fun x =>
      obind (scan_inner (length h) h t x (s_next x) acc) (fun acc' =>
        scan_outer fuel h t (s_next x) acc' (count_step t x cnt))).
Proof. done. Qed.

Lemma scan_inner_build samples t x a acc fuel :
  (a < length samples)%nat -> (a < fuel)%nat ->
  scan_inner fuel (build samples) t x (Some a) acc
  = Done (foldl (fun c y => pair_step t x y c) acc (below (Some a) (build samples))).
Proof.
  revert acc fuel. induction a as [|a IH]; intros acc fuel Ha Hf.
  - destruct fuel as [|fuel]; [lia|].
    destruct (lookup_lt_is_Some_2 samples 0 Ha) as [y Hy].
    rewrite scan_inner_S, (deref_build _ _ _ Hy). cbn [obind].
    rewrite (below_0 _ (node (length samples) 0 y)) by (by rewrite lookup_build, Hy).
    rewrite next_node. by destruct fuel.
  - destruct fuel as [|fuel]; [lia|].
    destruct (lookup_lt_is_Some_2 samples (S a) Ha) as [y Hy].
    rewrite scan_inner_S, (deref_build _ _ _ Hy). cbn [obind].
    rewrite next_node, IH by lia.
    rewrite (below_S _ _ (node (length samples) (S a) y)); [done|].
    by rewrite lookup_build, Hy.
Qed.

Lemma scan_inner_next samples t x a y acc :
  (a < length samples)%nat ->
  scan_inner (length (build samples)) (build samples) t x
    (s_next (node (length samples) a y)) acc
  = Done (foldl (fun c z => pair_step t x z c) acc
            (match a with
             | O => []
             | S a' => below (Some a') (build samples)
             end)).
Proof.
  intros Ha. rewrite next_node. destruct a as [|a].
  - by destruct (length (build samples)).
  - apply scan_inner_build; rewrite ?length_build; lia.
Qed.

Lemma scan_outer_build samples t a acc cnt fuel :
  (a < length samples)%nat -> (a < fuel)%nat ->
  scan_outer fuel (build samples) t (Some a) acc cnt
  = Done (scan_list t (below (Some a) (build samples)) acc cnt).
Proof.
  revert acc cnt fuel. induction a as [|a IH]; intros acc cnt fuel Ha Hf.
  - destruct fuel as [|fuel]; [lia|].
    destruct (lookup_lt_is_Some_2 samples 0 Ha) as [y Hy].
    rewrite scan_outer_S, (deref_build _ _ _ Hy). cbn [obind].
    rewrite scan_inner_next by done. cbn [obind].
    rewrite (below_0 _ (node (length samples) 0 y)) by (by rewrite lookup_build, Hy).
    rewrite next_node. by destruct fuel.
  - destruct fuel as [|fuel]; [lia|].
    destruct (lookup_lt_is_Some_2 samples (S a) Ha) as [y Hy].
    rewrite scan_outer_S, (deref_build _ _ _ Hy). cbn [obind].
    rewrite scan_inner_next by done. cbn [obind].
    rewrite next_node, IH by lia.
    rewrite (below_S _ _ (node (length samples) (S a) y)); [done|].
    by rewrite lookup_build, Hy.
Qed.

Lemma int_int x : int (int x) = int x.
Proof. apply int_id, int_range. Qed.

Lemma pair_step_acc H t x y a :
  int (acc_of H (pair_step t x y a)) = int (acc_of H a + code_term H t x y).
Proof.
  unfold pair_step, code_term, code_window.
  destruct (Z.ltb_spec (s_value y) (s_value x)) as [Hlt|Hge].
  - rewrite (Z.sgn_pos (s_value x - s_value y)) by lia.
    destruct H; simpl; rewrite ?int_int; [done| |];
      destruct (within _ t x && within _ t y); rewrite ?int_int, ?Z.add_0_r; done.
  - destruct (Z.ltb_spec (s_value x) (s_value y)) as [Hlt|Hge'].
    + rewrite (Z.sgn_neg (s_value x - s_value y)) by lia.
      destruct H; simpl; rewrite ?int_int; [done| |];
        destruct (within _ t x && within _ t y); rewrite ?int_int, ?Z.add_0_r; done.
    + replace (s_value x - s_value y) with 0 by lia. simpl.
      destruct H; simpl; rewrite ?Z.add_0_r; [done| |];
        destruct (within _ t x && within _ t y); rewrite ?Z.add_0_r; done.
Qed.

Lemma pair_step_ok t x y a : int_ok a -> int_ok (pair_step t x y a).
Proof.
  intros Ha H. unfold pair_step.
  repeat match goal with
         | |- context [if ?b then _ else _] => destruct b
         end; destruct H; simpl; try apply int_range; apply (Ha Total) || apply (Ha Mid) || apply (Ha Short).
Qed.

Lemma fold_step_ok t x l a :
  int_ok a -> int_ok (foldl (fun c y => pair_step t x y c) a l).
Proof.
  revert a. induction l as [|y l IH]; intros a Ha; simpl; [done|].
  by apply IH, pair_step_ok.
Qed.

Lemma fold_step_acc H t x l a :
  int (acc_of H (foldl (fun c y => pair_step t x y c) a l))
  = int (acc_of H a + foldr (fun y s => code_term H t x y + s) 0 l).
Proof.
  revert a. induction l as [|y l IH]; intros a; simpl.
  - by rewrite Z.add_0_r.
  - rewrite IH, <- int_add_int, pair_step_acc, int_add_int. f_equal. lia.
Qed.

Lemma scan_list_ok t l a c : int_ok a -> int_ok (scan_list t l a c).1.
Proof.
  revert a c. induction l as [|x l IH]; intros a c Ha; simpl; [done|].
  by apply IH, fold_step_ok.
Qed.

Lemma scan_list_acc H t l a c :
  int (acc_of H (scan_list t l a c).1)
  = int (acc_of H a + pair_sum (code_term H t) l).
Proof.
  revert a c. induction l as [|x l IH]; intros a c; simpl.
  - by rewrite Z.add_0_r.
  - rewrite IH, <- int_add_int, fold_step_acc, int_add_int. f_equal. lia.
Qed.

Lemma long_range x : - 2 ^ 63 <= long x < 2 ^ 63.
Proof.
  unfold long, wrap. replace (64 - 1) with 63 by lia.
  pose proof (Z.mod_pos_bound (x + 2 ^ 63) (2 ^ 64)). lia.
Qed.

Lemma long_long x : long (long x) = long x.
Proof. apply long_id, long_range. Qed.

Lemma count_step_cnt H t x c :
  long (cnt_of H (count_step t x c))
  = long (cnt_of H c + if code_window H t x then 1 else 0).
Proof.
  unfold count_step, code_window.
  destruct H; simpl; rewrite ?long_long; [done| |];
    destruct (within _ t x); rewrite ?long_long, ?Z.add_0_r; done.
Qed.

Lemma count_step_ok t x c : long_ok c -> long_ok (count_step t x c).
Proof.
  intros Hc H. unfold count_step.
  destruct H; simpl; try apply long_range;
    destruct (within _ t x); try apply long_range;
    apply (Hc Mid) || apply (Hc Short).
Qed.

Lemma scan_list_long_ok t l a c : long_ok c -> long_ok (scan_list t l a c).2.
Proof.
  revert a c. induction l as [|x l IH]; intros a c Hc; simpl; [done|].
  by apply IH, count_step_ok.
Qed.

Lemma scan_list_cnt H t l a c :
  long (cnt_of H (scan_list t l a c).2) = long (cnt_of H c + code_count H t l).
Proof.
  revert a c. induction l as [|x l IH]; intros a c; simpl.
  - unfold code_count. simpl. by rewrite Z.add_0_r.
  - rewrite IH, <- long_add_long, count_step_cnt, long_add_long. f_equal.
    unfold code_count. simpl. destruct (code_window H t x); simpl length; lia.
Qed.

Lemma engine_Chain samples mk t c :
  Chain samples mk ->
  exists r, engine t c mk = Done r /\ log_timestamp r = t /\
            forall H, stats H r = stats_of H t mk.
Proof.
  intros (Hne & Hh & Hs). unfold engine. rewrite Hh, Hs, length_build.
  rewrite scan_outer_build by (destruct samples; simpl; [done | lia]).
  cbn [obind].
  rewrite <- (length_build samples), below_head
    by (intros E; apply Hne; apply (f_equal length) in E;
        rewrite length_build in E; by destruct samples).
  rewrite <- Hh. fold (series mk).
  set (a0 := {| accumTotal := 0; accumMID_TERM := 0; accumSHORT_TERM := 0 |}).
  set (c0 := {| counterTotal := 0; counterMID_TERM := 0; counterSHORT_TERM := 0 |}).
  destruct (scan_list t (series mk) a0 c0) as [acc cnt] eqn:E.
  eexists. split; [done|]. split; [done|].
  assert (int_ok a0) as Ha0 by (intros []; simpl; unfold INT_MAX; lia).
  assert (long_ok c0) as Hc0 by (intros []; simpl; lia).
  pose proof (scan_list_ok t (series mk) a0 c0 Ha0) as Hok.
  pose proof (scan_list_long_ok t (series mk) a0 c0 Hc0) as Hlok.
  rewrite E in Hok, Hlok. simpl in Hok, Hlok.
  intros H. unfold stats_of.
  pose proof (scan_list_acc H t (series mk) a0 c0) as HA.
  pose proof (scan_list_cnt H t (series mk) a0 c0) as HN.
  rewrite E in HA, HN. simpl fst in HA. simpl snd in HN.
  rewrite (int_id _ (Hok H)) in HA. rewrite (long_id _ (Hlok H)) in HN.
  replace (acc_of H a0) with 0 in HA by (by destruct H).
  replace (cnt_of H c0) with 0 in HN by (by destruct H).
  rewrite Z.add_0_l in HA, HN. rewrite <- HA, <- HN. by destruct H.
Qed.

Lemma code_window_exact H t x :
  cycle_time t -> code_window H t x = in_window H t x.
Proof.
  unfold cycle_time, code_window, in_window, within, INT_MAX, MID_TERM.
  intros Ht. destruct H; simpl; [done| |]; rewrite int_id; unfold INT_MAX, MID_TERM, SHORT_TERM; (done || lia).
Qed.

Lemma pair_sum_ext f g l :
  (forall x y, f x y = g x y) -> pair_sum f l = pair_sum g l.
Proof.
  intros Hfg. induction l as [|x l IH]; simpl; [done|]. rewrite IH. f_equal.
  clear IH. induction l as [|y l IH]; simpl; [done|]. by rewrite IH, Hfg.
Qed.

Lemma code_S_exact H t l :
  cycle_time t -> pair_sum (code_term H t) l = mk_S H t l.
Proof.
  intros Ht. apply pair_sum_ext. intros x y. unfold code_term.
  by rewrite !code_window_exact.
Qed.

Lemma filter_reverse_length (f : s -> bool) l :
  length (List.filter f (reverse l)) = length (List.filter f l).
Proof.
  induction l as [|x l IH]; [done|].
  rewrite reverse_cons, List.filter_app, length_app, IH. simpl.
  destruct (f x); simpl; lia.
Qed.

Lemma code_count_exact H t l :
  cycle_time t -> code_count H t (reverse l) = samples_within H t l.
Proof.
  intros Ht. unfold code_count, samples_within. f_equal.
  rewrite (List.filter_ext _ _ (fun x => code_window_exact H t x Ht)).
  apply filter_reverse_length.
Qed.

(** ** Reachable states *)

Lemma next_sample_Chain samples mk t c mk' :
  Chain samples mk -> next_sample t c mk = Done mk' ->
  Chain (samples ++ [reading (t, c)]) mk'.
Proof.
  intros HC. pose proof HC as (Hne & Hh & Hs). unfold next_sample.
  destruct (clean MID_TERM _ _ _ _) as [[lastM bM]|]; [|done].
  destruct (clean SHORT_TERM _ _ _ _) as [[lastS bS]|]; [|done].
  cbn [obind].
  destruct (Chain_head _ _ HC) as (x & Hx & Hd). rewrite Hd. cbn [obind].
  intros [= <-]. split; [by destruct samples|]. split; simpl.
  - rewrite Hs, Hh, <- (build_snoc samples (reading (t, c))) by done.
    by rewrite length_build.
  - by rewrite Hh, length_build, length_app, Nat.add_1_r.
Qed.

Lemma retention_chained samples st t c mk :
  chained samples st -> retention t c st = Done mk ->
  Chain (samples ++ [reading (t, c)]) mk.
Proof.
  destruct st as [mk0|]; simpl.
  - apply next_sample_Chain.
  - intros -> [= <-]. apply Chain_first.
Qed.

Lemma Inv_first t c : Inv [reading (t, c)] (first_sample t c).
Proof.
  assert (counts [ {| b_value := sample_value c; tied := 1 |} ] [sample_value c]) as Hc.
  { split; [apply NoDup_singleton|]. intros v. simpl. destruct (v =? sample_value c); lia. }
  split; [apply Chain_first|]. split; [done|].
  split; exists 0%nat; (split; [left; split; [done | simpl; lia] | done]).
Qed.

Lemma retention_invariant samples st t c mk :
  invariant samples st -> Z.of_nat (length samples) < INT_MAX ->
  retention t c st = Done mk ->
  Inv (samples ++ [reading (t, c)]) mk.
Proof.
  destruct st as [mk0|]; simpl.
  - apply next_sample_Inv.
  - intros -> _ [= <-]. apply Inv_first.
Qed.

Lemma Inv_Chain samples mk : Inv samples mk -> Chain samples mk.
Proof. by intros [? _]. Qed.

Lemma monitor_entity_retention samples st t c mk :
  chained samples st -> retention t c st = Done mk ->
  exists r, monitor_entity t c st = Done (mk, r) /\ log_timestamp r = t /\
            forall H, stats H r = stats_of H t mk.
Proof.
  intros Hst Hret. unfold monitor_entity. rewrite Hret. cbn [obind].
  destruct (engine_Chain _ _ t c (retention_chained _ _ _ _ _ Hst Hret))
    as (r & -> & Ht & Hr).
  by exists r.
Qed.

Lemma monitor_entity_Done samples st t c mk r :
  chained samples st -> monitor_entity t c st = Done (mk, r) ->
  retention t c st = Done mk /\ log_timestamp r = t /\
  forall H, stats H r = stats_of H t mk.
Proof.
  intros Hst. unfold monitor_entity.
  destruct (retention t c st) as [mk0|] eqn:Hret; [|done]. cbn [obind].
  destruct (monitor_entity_retention _ _ _ _ _ Hst Hret) as (r0 & Hm & Ht & Hr).
  unfold monitor_entity in Hm. rewrite Hret in Hm. cbn [obind] in Hm.
  destruct (engine t c mk0) as [r1|]; [|done]. cbn [obind] in *.
  injection Hm as ->. intros [= -> ->]. done.
Qed.

Lemma replay_history samples st inputs :
  chained samples st -> replay st inputs = history st inputs.
Proof.
  revert samples st. induction inputs as [|[t c] inputs IH]; intros samples st Hst; [done|].
  simpl. destruct (retention t c st) as [mk|] eqn:Hret.
  - destruct (monitor_entity_retention _ _ _ _ _ Hst Hret) as (r & -> & _).
    cbn [obind]. apply (IH (samples ++ [reading (t, c)])).
    by apply (retention_chained _ st).
  - unfold monitor_entity. by rewrite Hret.
Qed.

Lemma history_chained samples st inputs st' :
  chained samples st -> history st inputs = Done st' ->
  chained (samples ++ (reading <$> inputs)) st'.
Proof.
  revert samples st. induction inputs as [|[t c] inputs IH]; intros samples st Hst.
  - simpl. intros [= <-]. by rewrite app_nil_r.
  - simpl. destruct (retention t c st) as [mk|] eqn:Hret; [|done]. cbn [obind].
    intros Hh. rewrite cons_middle, app_assoc.
    apply (IH _ (Some mk)); [|done]. by apply (retention_chained _ st).
Qed.

Lemma history_invariant samples st inputs st' :
  invariant samples st ->
  Z.of_nat (length samples + length inputs) <= INT_MAX ->
  history st inputs = Done st' ->
  invariant (samples ++ (reading <$> inputs)) st'.
Proof.
  revert samples st. induction inputs as [|[t c] inputs IH]; intros samples st Hst Hlen.
  - simpl. intros [= <-]. by rewrite app_nil_r.
  - simpl. destruct (retention t c st) as [mk|] eqn:Hret; [|done]. cbn [obind].
    intros Hh. rewrite cons_middle, app_assoc.
    apply (IH _ (Some mk)); [| |done].
    + apply (retention_invariant _ st); [done| |done]. simpl in Hlen. lia.
    + rewrite length_app. simpl in *. lia.
Qed.

Lemma history_Some st inputs st' :
  history st inputs = Done st' -> inputs <> [] -> exists mk, st' = Some mk.
Proof.
  destruct inputs as [|[t c] inputs]; [done|]. intros Hh _. simpl in Hh.
  destruct (retention t c st) as [mk|]; [|done]. cbn [obind] in Hh.
  clear st. revert mk Hh. induction inputs as [|[t' c'] inputs IH]; intros mk Hh.
  - injection Hh as <-. eauto.
  - simpl in Hh. destruct (next_sample t' c' mk) as [mk'|]; [|done].
    apply (IH mk' Hh).
Qed.

(** The state reached from nothing by [inputs]. *)
Lemma reach_invariant inputs st :
  replay None inputs = Done st ->
  Z.of_nat (length inputs) <= INT_MAX ->
  invariant (reading <$> inputs) st.
Proof.
  intros Hr Hlen. rewrite (replay_history []) in Hr by done.
  apply (history_invariant [] None inputs st); done.
Qed.

Lemma reach_chained inputs st :
  replay None inputs = Done st -> chained (reading <$> inputs) st.
Proof.
  intros Hr. rewrite (replay_history []) in Hr by done.
  apply (history_chained [] None inputs st); done.
Qed.

Lemma replay_snoc st inputs t c :
  replay st (inputs ++ [(t, c)])
  = obind (replay st inputs) (fun st' =>
      obind (monitor_entity t c st') (fun p => Done (Some p.1))).
Proof.
  revert st. induction inputs as [|[t' c'] inputs IH]; intros st; simpl.
  - destruct (monitor_entity t c st) as [[mk r]|]; done.
  - destruct (monitor_entity t' c' st) as [[mk r]|]; [|done]. cbn [obind]. apply IH.
Qed.

(** ** The registry *)

Lemma replay_extend inputs st t c mk r :
  replay None inputs = Done st -> monitor_entity t c st = Done (mk, r) ->
  replay None (inputs ++ [(t, c)]) = Done (Some mk).
Proof. intros Hr Hm. by rewrite replay_snoc, Hr; cbn [obind]; rewrite Hm. Qed.

Lemma reachable_length mk inputs :
  replay None inputs = Done (Some mk) -> length (heap mk) = length inputs.
Proof.
  intros Hr. destruct (reach_chained _ _ Hr) as (_ & -> & _).
  by rewrite length_build, length_fmap.
Qed.

Lemma monitor_slab_entity t c reg reg' r :
  monitor_slab t c reg = Done (reg', r) ->
  exists found mk,
    monitor_entity t c found = Done (mk, r) /\
    (found = None \/ exists p, reg !! p = found) /\
    (reg' = mk :: reg \/ exists p, reg' = <[p := mk]> reg).
Proof.
  unfold monitor_slab. destruct (searchSLAB reg (si_name c)) as [p|].
  - destruct (monitor_entity t c (reg !! p)) as [[mk r0]|] eqn:Hm; [|done].
    cbn [obind]. intros [= <- <-]. exists (reg !! p), mk.
    split; [done|]. split; right; by exists p.
  - destruct (monitor_entity t c None) as [[mk r0]|] eqn:Hm; [|done].
    cbn [obind]. intros [= <- <-]. exists None, mk.
    split; [done|]. split; by left.
Qed.

Lemma monitor_slab_reachable t c reg reg' r :
  Forall reachable reg -> monitor_slab t c reg = Done (reg', r) ->
  Forall reachable reg'.
Proof.
  intros Hreg Hm.
  destruct (monitor_slab_entity _ _ _ _ _ Hm) as (found & mk & Hme & Hfound & Hreg').
  assert (reachable mk) as Hmk.
  { destruct Hfound as [->|[p Hp]].
    - exists [(t, c)]. by apply (replay_extend [] None t c mk r).
    - destruct found as [mk0|].
      + destruct (proj1 (Forall_lookup _ _) Hreg p mk0 Hp) as [inputs Hin].
        exists (inputs ++ [(t, c)]). by apply (replay_extend inputs (Some mk0) t c mk r).
      + exists [(t, c)]. by apply (replay_extend [] None t c mk r). }
  destruct Hreg' as [->|[p ->]]; [by constructor | by apply Forall_insert].
Qed.

Lemma monitor_reachable t slab_list reg reg' rs :
  Forall reachable reg -> monitor t slab_list reg = Done (reg', rs) ->
  Forall reachable reg'.
Proof.
  revert reg rs. induction slab_list as [|c slab_list IH]; intros reg rs Hreg; simpl.
  - by intros [= <- _].
  - destruct (monitor_slab t c reg) as [[reg1 r]|] eqn:Hs; [|done]. cbn [obind].
    destruct (monitor t slab_list reg1) as [[reg2 rs']|] eqn:Hm; [|done]. cbn [obind].
    intros [= <- _]. by apply (monitor_slab_reachable t c reg reg1 r) in Hs; eauto.
Qed.

(** Every record written by [monitor] is the record of a cycle of one
    entity. *)
Lemma monitor_records t slab_list reg reg' rs :
  monitor t slab_list reg = Done (reg', rs) ->
  Forall (fun r => exists c found mk, monitor_entity t c found = Done (mk, r)) rs.
Proof.
  revert reg rs. induction slab_list as [|c slab_list IH]; intros reg rs; simpl.
  - intros [= _ <-]. constructor.
  - destruct (monitor_slab t c reg) as [[reg1 r]|] eqn:Hs; [|done]. cbn [obind].
    destruct (monitor t slab_list reg1) as [[reg2 rs']|] eqn:Hm; [|done]. cbn [obind].
    intros [= -> <-]. constructor; [|by apply (IH reg1)].
    destruct (monitor_slab_entity _ _ _ _ _ Hs) as (found & mk & Hme & _). eauto.
Qed.

(** Every entity of the registry of the running daemon is in a state
    reached by cycles of that entity alone. *)
Lemma daemon_reachable delay snapshots : forall i reg reg',
  Forall reachable reg -> daemon delay i snapshots reg = Done reg' ->
  Forall reachable reg'.
Proof.
  induction snapshots as [|slab_list snapshots IH]; intros i reg reg' Hreg; simpl.
  - by intros [= <-].
  - destruct (monitor _ slab_list reg) as [[reg1 rs]|] eqn:Hm; [|done]. cbn [obind].
    apply IH. by apply (monitor_reachable _ _ _ _ _ Hreg Hm).
Qed.

(** ** Evenly spaced cycles *)

Lemma spaced_mono d t samples i j x y :
  spaced d t samples -> 0 <= d -> (i <= j)%nat ->
  samples !! i = Some x -> samples !! j = Some y -> x.1 <= y.1.
Proof.
  intros [Hsp _] Hd Hij Hx. revert y. induction Hij as [|j Hij IH]; intros y Hy.
  - rewrite Hx in Hy. injection Hy as ->. lia.
  - destruct (lookup_lt_is_Some_2 samples j) as [z Hz].
    { apply lookup_lt_Some in Hy. lia. }
    specialize (IH z Hz). rewrite (Hsp j z y Hz Hy). lia.
Qed.

Lemma spaced_snoc d t samples v :
  samples <> [] -> spaced d t samples -> spaced d (t + d) (samples ++ [(t + d, v)]).
Proof.
  intros Hne [Hsp Hl]. split.
  - intros i x y Hx Hy.
    destruct (decide (S i < length samples)%nat) as [Hi|Hi].
    + rewrite lookup_app_l in Hx, Hy by lia. eauto.
    + assert (S i = length samples) as Hi'.
      { apply lookup_lt_Some in Hy. rewrite length_app in Hy. simpl in Hy. lia. }
      rewrite lookup_app_l in Hx by lia.
      rewrite Hi', lookup_app_r, Nat.sub_diag in Hy by lia.
      injection Hy as <-. simpl. f_equal. symmetry. apply Hl. rewrite <- Hi'. done.
  - intros x. rewrite length_app, Nat.add_1_r. simpl.
    rewrite lookup_app_r, Nat.sub_diag by lia. by intros [= <-].
Qed.

Lemma tracks_first W t v :
  0 <= W -> tracks W t [(t, v)] (Some 0%nat) [ {| b_value := v; tied := 1 |} ].
Proof.
  intros HW. exists 0%nat. split; [done|]. split; [simpl; lia|]. split.
  - split; [apply NoDup_singleton|]. intros w. simpl. destruct (w =? v); lia.
  - intros [|i] x; simpl; [|done]. intros [= <-]. simpl. split; lia.
Qed.

Lemma clean_tracks W d t samples last bs last' bs' v :
  samples <> [] -> spaced d t samples -> tracks W t samples last bs ->
  0 <= d <= W -> - 2 ^ 31 <= t + d - W <= INT_MAX ->
  Z.of_nat (length samples) < INT_MAX ->
  clean W (t + d) (build samples) last bs = Done (last', bs') ->
  tracks W (t + d) (samples ++ [(t + d, v)]) last' (count_in bs' v).
Proof.
  intros Hne Hsp (r & -> & Hr & Hc & Hw) Hd Ht Hlen. unfold clean.
  destruct (lookup_lt_is_Some_2 samples r Hr) as [x Hx].
  rewrite (deref_build _ _ _ Hx). cbn [obind].
  rewrite (int_id _ Ht). simpl s_timestamp.
  assert (forall r', (r' <= length samples)%nat ->
            counts bs' (drop r' samples.*2) ->
            counts (count_in bs' v) (drop r' (samples ++ [(t + d, v)]).*2)) as Hins.
  { intros r' Hr' Hc'. rewrite fmap_app, drop_app_le by (rewrite length_fmap; lia).
    apply counts_count_in; [done|]. rewrite length_drop, length_fmap. lia. }
  assert (forall r', (r' <= length samples)%nat ->
            splits W (t + d) samples r' ->
            splits W (t + d) (samples ++ [(t + d, v)]) r') as Hnew.
  { intros r' Hr' Hs i y Hy.
    destruct (decide (i < length samples)%nat) as [Hi|Hi].
    - rewrite lookup_app_l in Hy by done. by apply Hs.
    - rewrite lookup_app_r in Hy by lia.
      destruct (i - length samples)%nat; [|done]. injection Hy as <-. simpl.
      split; lia. }
  destruct (Z.ltb_spec x.1 (t + d - W)) as [Hold|Hin].
  - assert (S r < length samples)%nat as HSr.
    { destruct (decide (S r < length samples)%nat) as [|Hn]; [done|]. exfalso.
      assert (r = pred (length samples)) as -> by lia.
      destruct Hsp as [_ Hl]. rewrite (Hl x Hx) in Hold. lia. }
    intros [= <- <-]. simpl s_prev.
    destruct (Nat.ltb_spec (S r) (length samples)) as [_|]; [|lia].
    exists (S r). split; [done|]. split; [rewrite length_app; lia|]. split.
    + apply Hins; [lia|].
      assert (samples.*2 !! r = Some x.2) as Hv by (by rewrite list_lookup_fmap, Hx).
      rewrite (drop_S _ _ _ Hv) in Hc.
      apply (counts_uncount _ _ _ Hc). rewrite length_drop, length_fmap. lia.
    + apply Hnew; [lia|]. intros i y Hy. split; intros Hi.
      * destruct (decide (i = r)) as [->|Hne']; [congruence|].
        destruct (Hw i y Hy) as [Hlt _]. specialize (Hlt ltac:(lia)). lia.
      * destruct (lookup_lt_is_Some_2 samples (S r) HSr) as [z Hz].
        pose proof (spaced_mono _ _ _ _ _ _ _ Hsp (proj1 Hd) Hi Hz Hy) as Hm.
        destruct Hsp as [Hstep _]. rewrite (Hstep r x z Hx Hz) in Hm.
        destruct (Hw r x Hx) as [_ Hge]. specialize (Hge ltac:(lia)). lia.
  - intros [= <- <-].
    exists r. split; [done|]. split; [rewrite length_app; lia|]. split.
    + apply Hins; [lia | done].
    + apply Hnew; [lia|]. intros i y Hy. split; intros Hi.
      * destruct (Hw i y Hy) as [Hlt _]. specialize (Hlt Hi). lia.
      * pose proof (spaced_mono _ _ _ _ _ _ _ Hsp (proj1 Hd) Hi Hx Hy). lia.
Qed.

Lemma next_sample_horizon H W t c mk mk' :
  window H = Some W -> next_sample t c mk = Done mk' ->
  exists last' bs',
    clean W t (heap mk) (boundary H mk) (histogram H mk) = Done (last', bs') /\
    boundary H mk' = last' /\ histogram H mk' = count_in bs' (sample_value c).
Proof.
  intros HW. unfold next_sample.
  destruct (clean MID_TERM _ _ _ _) as [[lastM bM]|] eqn:EM; [|done].
  destruct (clean SHORT_TERM _ _ _ _) as [[lastS bS]|] eqn:ES; [|done].
  cbn [obind]. destruct (deref _ _); [|done]. cbn [obind]. intros [= <-].
  destruct H; simpl in HW; [done| |]; injection HW as <-; simpl; eauto.
Qed.

Lemma next_sample_total t c mk mk' :
  next_sample t c mk = Done mk' ->
  tiedbucketsTotal mk' = count_in (tiedbucketsTotal mk) (sample_value c).
Proof.
  unfold next_sample.
  destruct (clean MID_TERM _ _ _ _) as [[lastM bM]|]; [|done].
  destruct (clean SHORT_TERM _ _ _ _) as [[lastS bS]|]; [|done].
  cbn [obind]. destruct (deref _ _); [|done]. cbn [obind]. by intros [= <-].
Qed.

Lemma clean_succeeds TERM t samples r bs :
  (r < length samples)%nat ->
  exists res, clean TERM t (build samples) (Some r) bs = Done res.
Proof.
  intros Hr. destruct (lookup_lt_is_Some_2 samples r Hr) as [x Hx].
  unfold clean. rewrite (deref_build _ _ _ Hx). cbn [obind].
  destruct (_ <? _); eauto.
Qed.

Lemma next_sample_succeeds samples mk t c rm rs :
  Chain samples mk ->
  lastMID_TERM mk = Some rm -> (rm < length samples)%nat ->
  lastSHORT_TERM mk = Some rs -> (rs < length samples)%nat ->
  exists mk', next_sample t c mk = Done mk'.
Proof.
  intros HC Hm Hrm Hs Hrs. pose proof HC as (Hne & Hh & _).
  unfold next_sample. rewrite Hh, Hm, Hs.
  destruct (clean_succeeds MID_TERM t samples rm (tiedbucketsMID_TERM mk) Hrm)
    as ([lastM bM] & ->).
  destruct (clean_succeeds SHORT_TERM t samples rs (tiedbucketsSHORT_TERM mk) Hrs)
    as ([lastS bS] & ->).
  cbn [obind].
  destruct (Chain_head _ _ HC) as (x & _ & Hd). rewrite Hh in Hd. rewrite Hd.
  cbn [obind]. eauto.
Qed.

Lemma window_nonneg H W : window H = Some W -> 0 <= W.
Proof. destruct H; intros [= <-]; unfold MID_TERM, SHORT_TERM; lia. Qed.

Lemma window_le_MID H W : window H = Some W -> W <= MID_TERM.
Proof. destruct H; intros [= <-]; unfold MID_TERM, SHORT_TERM; lia. Qed.

Lemma next_sample_follows H d t samples mk c mk' :
  Chain samples mk -> spaced d t samples -> follows H t samples mk ->
  0 <= d -> (forall W, window H = Some W -> d <= W) ->
  cycle_time (t + d) -> Z.of_nat (length samples) < INT_MAX ->
  next_sample (t + d) c mk = Done mk' ->
  follows H (t + d) (samples ++ [reading (t + d, c)]) mk'.
Proof.
  intros HC Hsp Hf Hd HdW Ht Hlen Hnext. pose proof HC as (Hne & Hh & _).
  unfold follows in *. destruct (window H) as [W|] eqn:EW.
  - destruct (next_sample_horizon H W _ _ _ _ EW Hnext) as (last' & bs' & Hcl & -> & ->).
    rewrite Hh in Hcl. unfold reading. simpl.
    apply (clean_tracks W d t samples _ _ _ _ _ Hne Hsp Hf); [| | done | done].
    + split; [done | by apply HdW].
    + pose proof (window_nonneg _ _ EW). pose proof (window_le_MID _ _ EW).
      unfold cycle_time in Ht. lia.
  - destruct H; simpl in EW; try done. simpl in *.
    rewrite (next_sample_total _ _ _ _ Hnext), fmap_app.
    apply counts_count_in; [done | by rewrite length_fmap].
Qed.

Lemma follows_first H t c : follows H t [reading (t, c)] (first_sample t c).
Proof.
  unfold follows. destruct (window H) as [W|] eqn:EW.
  - destruct H; simpl in *; try done; apply tracks_first; injection EW as <-;
      unfold MID_TERM, SHORT_TERM; lia.
  - destruct H; simpl in EW; try done. simpl.
    split; [apply NoDup_singleton|]. intros v. simpl.
    destruct (v =? sample_value c); lia.
Qed.

Lemma spaced_first d t c : spaced d t [reading (t, c)].
Proof.
  split.
  - intros [|i] x y; simpl; [|done]. done.
  - simpl. by intros x [= <-].
Qed.

Lemma length_periodic t d currs : length (periodic t d currs) = length currs.
Proof. revert t. induction currs as [|c currs IH]; intros t; simpl; [done|]. by rewrite IH. Qed.

(** A run of evenly spaced cycles keeps horizon [H] on its window. *)
Lemma periodic_follows H d currs : forall t samples mk st,
  Chain samples mk -> spaced d t samples -> follows H t samples mk ->
  0 <= d -> (forall W, window H = Some W -> d <= W) ->
  cycle_time t -> t + d * Z.of_nat (length currs) <= INT_MAX ->
  Z.of_nat (length samples + length currs) <= INT_MAX ->
  history (Some mk) (periodic (t + d) d currs) = Done st ->
  exists mk', st = Some mk' /\
    let samples' := samples ++ (reading <$> periodic (t + d) d currs) in
    let t' := t + d * Z.of_nat (length currs) in
    Chain samples' mk' /\ spaced d t' samples' /\ follows H t' samples' mk'.
Proof.
  induction currs as [|c currs IH]; intros t samples mk st HC Hsp Hf Hd HdW Ht Hmax Hlen.
  - simpl. intros [= <-]. exists mk. split; [done|]. simpl.
    rewrite app_nil_r, Z.mul_0_r, Z.add_0_r. done.
  - simpl. destruct (next_sample (t + d) c mk) as [mk1|] eqn:Hnext; [|done].
    cbn [obind]. intros Hh.
    assert (cycle_time (t + d)) as Ht'.
    { unfold cycle_time in *. split; [lia|]. simpl length in Hmax. nia. }
    assert (Z.of_nat (length samples) < INT_MAX) as Hn by (simpl in Hlen; lia).
    destruct (IH (t + d) (samples ++ [reading (t + d, c)]) mk1 st) as (mk' & -> & HR);
      try done.
    + by apply (next_sample_Chain samples mk).
    + destruct samples as [|s0 samples]; [by destruct HC|].
      by apply spaced_snoc.
    + by apply (next_sample_follows H d t samples mk).
    + simpl length in Hmax. lia.
    + rewrite length_app. simpl in *. lia.
    + exists mk'. split; [done|]. simpl in *.
      rewrite <- app_assoc in HR. simpl in HR.
      replace (t + d * Z.of_nat (S (length currs)))
        with (t + d + d * Z.of_nat (length currs)) by lia.
      done.
Qed.

(** ** The engine on any state *)

Lemma scan_inner_ok fuel h t x p a a' :
  int_ok a -> scan_inner fuel h t x p a = Done a' -> int_ok a'.
Proof.
  revert p a. induction fuel as [|fuel IH]; intros [q|] a Ha.
  - done.
  - by intros [= <-].
  - rewrite scan_inner_S. destruct (deref h (Some q)) as [y|]; [|done]. cbn [obind].
    apply IH. by apply pair_step_ok.
  - by intros [= <-].
Qed.

Lemma scan_outer_ok fuel h t p a c a' c' :
  int_ok a -> scan_outer fuel h t p a c = Done (a', c') -> int_ok a'.
Proof.
  revert p a c. induction fuel as [|fuel IH]; intros [q|] a c Ha.
  - done.
  - by intros [= <- _].
  - rewrite scan_outer_S. destruct (deref h (Some q)) as [y|]; [|done]. cbn [obind].
    destruct (scan_inner _ h t y (s_next y) a) as [a1|] eqn:E; [|done]. cbn [obind].
    apply IH. by apply (scan_inner_ok _ _ _ _ _ _ _ Ha E).
  - by intros [= <- _].
Qed.

Lemma engine_evaluate t c mk r H :
  engine t c mk = Done r ->
  exists a n second,
    stats H r = evaluate a n second /\ - 2 ^ 31 <= a <= INT_MAX /\
    second = secondPartVariance (histogram H mk) (ldouble_of_Z 0).
Proof.
  unfold engine.
  destruct (scan_outer _ _ _ _ _ _) as [[a n]|] eqn:E; [|done]. cbn [obind].
  intros [= <-].
  assert (int_ok a) as Ha.
  { refine (scan_outer_ok _ _ _ _ _ _ _ _ _ E).
    intros []; simpl; unfold INT_MAX; lia. }
  destruct H; simpl; eexists _, _, _; (split; [reflexivity|]); (split; [|reflexivity]).
  - apply (Ha Total).
  - apply (Ha Mid).
  - apply (Ha Short).
Qed.

Lemma monitor_entity_engine t c found mk r :
  monitor_entity t c found = Done (mk, r) ->
  retention t c found = Done mk /\ engine t c mk = Done r.
Proof.
  unfold monitor_entity. destruct (retention t c found) as [mk0|]; [|done].
  cbn [obind]. destruct (engine t c mk0) as [r0|] eqn:E; [|done]. cbn [obind].
  intros [= <- <-]. done.
Qed.

Lemma decide_trend_cases zs : decide_trend zs = "YES" \/ decide_trend zs = "NO".
Proof. unfold decide_trend. destruct (dgt _ _); [destruct (dgt _ _)|]; auto. Qed.

Lemma decide_trend_YES zs :
  decide_trend zs = "YES" <->
  dgt (fabs zs) criticalValue = true /\ dgt zs dzero = true.
Proof.
  unfold decide_trend.
  destruct (dgt (fabs zs) criticalValue), (dgt zs dzero); split; (done || intros [? ?]; done).
Qed.

Lemma below_minus_critical zs :
  SFltb zs (SFopp criticalValue) = true -> dgt zs dzero = false.
Proof. destruct zs as [[]|[]| |[] m e]; done. Qed.

(** ** Decision and Z-score (C1, C4) *)

Lemma evaluate_trend a n second :
  trend (evaluate a n second) = decide_trend (z (evaluate a n second)).
Proof. done. Qed.

Lemma entity_trend_flag t c found mk r (H : horizon) :
  monitor_entity t c found = Done (mk, r) ->
  (trend (stats H r) = "YES" <->
     dgt (fabs (z (stats H r))) criticalValue = true /\
     dgt (z (stats H r)) dzero = true) /\
  (trend (stats H r) <> "YES" -> trend (stats H r) = "NO") /\
  (SFltb (z (stats H r)) (SFopp criticalValue) = true -> trend (stats H r) = "NO").
Proof.
  intros Hm. destruct (monitor_entity_engine _ _ _ _ _ Hm) as [_ He].
  destruct (engine_evaluate _ _ _ _ H He) as (a & n & second & -> & _).
  rewrite evaluate_trend. split; [apply decide_trend_YES|]. split.
  - destruct (decide_trend_cases (z (evaluate a n second))); [done | auto].
  - intros Hlt. destruct (decide_trend_cases (z (evaluate a n second))) as [Hy|]; [|done].
    apply decide_trend_YES in Hy as [_ Hy].
    by rewrite (below_minus_critical _ Hlt) in Hy.
Qed.

(** C1.  For every entity and every horizon, the flag of every record that
    [monitor] writes in a cycle is "YES" exactly when [|Z| > criticalValue]
    (1.96) and [Z > 0]; in every other case, a significant decrease
    ([Z < -criticalValue]) included, it is "NO". *)
Theorem C1_trend_flag timestamp slab_list slab_mk_values reg records r (H : horizon) :
  monitor timestamp slab_list slab_mk_values = Done (reg, records) ->
  r ∈ records ->
  (trend (stats H r) = "YES" <->
     dgt (fabs (z (stats H r))) criticalValue = true /\
     dgt (z (stats H r)) dzero = true) /\
  (trend (stats H r) <> "YES" -> trend (stats H r) = "NO") /\
  (SFltb (z (stats H r)) (SFopp criticalValue) = true -> trend (stats H r) = "NO").
Proof.
  intros Hm Hr.
  destruct (proj1 (Forall_forall _ _) (monitor_records _ _ _ _ _ Hm) r Hr)
    as (c & found & mk & Hme).
  by apply (entity_trend_flag timestamp c found mk).
Qed.

Lemma C1_trend_flag_witness :
  exists reg r,
    monitor 120 [cache "kmalloc-64" 5 1]
      (from_option (fun mk => [mk]) [] (state_after (periodic 0 30 (rising 4))))
    = Done (reg, [r]) /\
    trend (stats Short r) = "YES" /\
    dgt (fabs (z (stats Short r))) criticalValue = true.
Proof.
  eexists _, _.
  evaluate_run E.
  split; [exact E|].
  match goal with
  | |- trend (stats Short ?r) = _ /\ _ =>
      destruct (C1_trend_flag _ _ _ _ _ r Short E (list_elem_of_here _ _)) as [Hyes _]
  end.
  split; [reflexivity | apply Hyes; reflexivity].
Defined.

Lemma evaluate_z a n second :
  - 2 ^ 31 <= a <= INT_MAX ->
  let st := evaluate a n second in
  (1 < n ->
     (0 < a -> z st = ddiv (double_of_Z (a - 1)) (dsqrt (varS st))) /\
     (a < 0 -> z st = ddiv (double_of_Z (a + 1)) (dsqrt (varS st))) /\
     (a = 0 -> z st = dzero)) /\
  (n <= 1 -> z st = dzero /\ trend st = "NO").
Proof.
  intros Ha. unfold evaluate. simpl. split.
  - intros Hn. destruct (Z.ltb_spec 1 n) as [_|]; [|lia].
    split; [|split]; intros Hs.
    + destruct (Z.ltb_spec a 0); [lia|]. destruct (Z.ltb_spec 0 a); [|lia].
      rewrite int_id by (unfold INT_MAX in *; lia). done.
    + destruct (Z.ltb_spec a 0); [|lia].
      rewrite int_id by (unfold INT_MAX in *; lia). done.
    + subst a. done.
  - intros Hn. destruct (Z.ltb_spec 1 n); [lia|]. done.
Qed.

(** C4.  For every entity and every horizon: when [n > 1], [Z] is
    [(S - 1)/sqrt(variance)] if [S > 0], [(S + 1)/sqrt(variance)] if
    [S < 0] and [0] if [S = 0] (in binary64 arithmetic); when [n <= 1], and
    so for an entity with a single sample, [Z = 0] and the flag is "NO". *)
Theorem C4_z_score t c found mk r (H : horizon) :
  monitor_entity t c found = Done (mk, r) ->
  (1 < counter (stats H r) ->
     (0 < accum (stats H r) ->
        z (stats H r)
        = ddiv (double_of_Z (accum (stats H r) - 1)) (dsqrt (varS (stats H r)))) /\
     (accum (stats H r) < 0 ->
        z (stats H r)
        = ddiv (double_of_Z (accum (stats H r) + 1)) (dsqrt (varS (stats H r)))) /\
     (accum (stats H r) = 0 -> z (stats H r) = dzero)) /\
  (counter (stats H r) <= 1 ->
     z (stats H r) = dzero /\ trend (stats H r) = "NO") /\
  (found = None ->
     counter (stats Total r) = 1 /\ z (stats H r) = dzero /\ trend (stats H r) = "NO").
Proof.
  intros Hm. destruct (monitor_entity_engine _ _ _ _ _ Hm) as [Hret He].
  destruct (engine_evaluate _ _ _ _ H He) as (a & n & second & HE & Ha & _).
  pose proof (evaluate_z a n second Ha) as [Hbig Hsmall].
  rewrite HE. split; [exact Hbig|]. split; [exact Hsmall|].
  intros ->. simpl in Hret. injection Hret as <-.
  destruct (monitor_entity_Done [] None t c _ r eq_refl Hm) as (_ & _ & Hst).
  assert (forall H', counter (stats H' r) <= 1 /\ counter (stats Total r) = 1) as Hone.
  { intros H'. rewrite !Hst. unfold stats_of, evaluate, code_count. simpl counter.
    simpl. split; [|done]. destruct (code_window H' t _); simpl; done. }
  destruct (Hone H) as [Hle Htot]. split; [done|].
  rewrite HE in Hle. apply Hsmall. exact Hle.
Qed.

Lemma C4_z_score_witness :
  exists mk r,
    monitor_entity 120 (cache "kmalloc-64" 5 1)
      (state_after (periodic 0 30 (rising 4))) = Done (mk, r) /\
    accum (stats Total r) = 10 /\ counter (stats Total r) = 5 /\
    z (stats Total r) = ddiv (double_of_Z 9) (dsqrt (varS (stats Total r))).
Proof.
  eexists _, _.
  evaluate_run E.
  split; [exact E|].
  destruct (C4_z_score _ _ _ _ _ Total E) as [Hbig _].
  split; [reflexivity|]. split; [reflexivity|].
  apply Hbig; reflexivity.
Defined.

(** ** The first sample (C8) *)

(** C8.  On the first sample of an entity (value [v], timestamp [ts]) the
    retention step creates a series of exactly one node [{ts, v}], points
    both bounded-horizon boundaries at that node, and seeds each of the
    three histograms with exactly one bucket [{value: v, tied: 1}]. *)
Theorem C8_first_sample ts c slab_mk_values :
  searchSLAB slab_mk_values (si_name c) = None ->
  exists mk r,
    monitor_slab ts c slab_mk_values = Done (mk :: slab_mk_values, r) /\
    retention ts c None = Done mk /\
    heap mk = [ {| s_next := None; s_prev := None;
                   s_timestamp := ts; s_value := sample_value c |} ] /\
    sValues mk = Some 0%nat /\
    boundary Mid mk = Some 0%nat /\ boundary Short mk = Some 0%nat /\
    forall H, histogram H mk = [ {| b_value := sample_value c; tied := 1 |} ].
Proof.
  intros Hnew. unfold monitor_slab. rewrite Hnew.
  destruct (monitor_entity_retention [] None ts c (first_sample ts c) eq_refl eq_refl)
    as (r & -> & _).
  exists (first_sample ts c), r. cbn [obind].
  repeat (split; [reflexivity|]). by intros [].
Qed.

Lemma C8_first_sample_witness :
  exists mk r,
    monitor_slab 0 (cache "dentry" 100 192) [] = Done ([mk], r) /\
    heap mk = [ {| s_next := None; s_prev := None;
                   s_timestamp := 0; s_value := 19200 |} ] /\
    histogram Short mk = [ {| b_value := 19200; tied := 1 |} ].
Proof.
  destruct (C8_first_sample 0 (cache "dentry" 100 192) [] eq_refl)
    as (mk & r & Hm & _ & Hh & _ & _ & _ & Hb).
  exists mk, r. split; [exact Hm|]. split; [exact Hh | exact (Hb Short)].
Defined.

(** ** Tie counts never go negative (C10) *)

Lemma values_build samples : s_value <$> build samples = samples.*2.
Proof.
  apply list_eq. intros i. rewrite !list_lookup_fmap, lookup_build.
  by destruct (samples !! i).
Qed.

Lemma Inv_histogram samples mk H :
  Inv samples mk ->
  exists r, (r <= length (heap mk))%nat /\
            counts (histogram H mk) (drop r (s_value <$> heap mk)).
Proof.
  intros (HC & HT & (rm & Hrm & Hcm) & (rs & Hrs & Hcs)).
  destruct HC as (_ & Hh & _). rewrite Hh, values_build, length_build.
  destruct H; simpl.
  - exists 0%nat. split; [lia | done].
  - exists rm. split; [destruct Hrm as [[_ ?]|[_ ?]]; lia | done].
  - exists rs. split; [destruct Hrs as [[_ ?]|[_ ?]]; lia | done].
Qed.

Lemma reachable_tied mk (H : horizon) b :
  reachable mk -> Z.of_nat (length (heap mk)) <= INT_MAX ->
  b ∈ histogram H mk ->
  0 <= tied b /\
  exists r, (r <= length (heap mk))%nat /\
            tied b = occ (b_value b) (drop r (s_value <$> heap mk)).
Proof.
  intros [inputs Hr] Hlen Hb. rewrite (reachable_length _ _ Hr) in Hlen.
  pose proof (reach_invariant _ _ Hr Hlen) as HI. cbn [invariant] in HI.
  destruct (Inv_histogram _ _ H HI) as (r & Hrl & Hc).
  pose proof (counts_bucket _ _ _ Hc Hb) as Ht.
  split; [rewrite Ht; apply occ_bounds | eauto].
Qed.

(** C10.  At the end of every cycle of the daemon, every tie bucket of
    every horizon's histogram of every entity has [tied >= 0]: the bucket
    of a value counts the nodes with that value that were inserted and not
    yet retired from the horizon (those from some address [r] on). *)
Theorem C10_tied_nonnegative delay snapshots reg mk (H : horizon) b :
  daemon delay 0 snapshots [] = Done reg ->
  mk ∈ reg ->
  Z.of_nat (length (heap mk)) <= INT_MAX ->
  b ∈ histogram H mk ->
  0 <= tied b /\
  exists r, (r <= length (heap mk))%nat /\
            tied b = occ (b_value b) (drop r (s_value <$> heap mk)).
Proof.
  intros Hd Hmk. apply reachable_tied.
  pose proof (daemon_reachable _ _ _ _ _ (Forall_nil_2 _) Hd) as Hall.
  by apply (proj1 (Forall_forall _ _) Hall).
Qed.

Lemma C10_tied_nonnegative_witness :
  exists reg mk,
    daemon 1000 0 [[cache "dentry" 5 192]; [cache "dentry" 7 192]] [] = Done reg /\
    mk ∈ reg /\
    {| b_value := 960; tied := 0 |} ∈ histogram Short mk /\
    0 <= tied {| b_value := 960; tied := 0 |}.
Proof.
  eexists _, _.
  evaluate_run E.
  split; [exact E|].
  match goal with
  | |- ?mk ∈ ?reg /\ ?b ∈ ?h /\ _ =>
      assert (mk ∈ reg) as Hmk by apply list_elem_of_here;
      assert (b ∈ h) as Hb by apply list_elem_of_further, list_elem_of_here
  end.
  split; [exact Hmk|]. split; [exact Hb|].
  refine (proj1 (C10_tied_nonnegative 1000 _ _ _ Short _ E Hmk _ Hb)).
  vm_compute. discriminate.
Defined.

(** ** Histograms and boundaries under evenly spaced cycles (C6, C7) *)

Lemma periodic_completes d currs : forall t samples mk,
  Chain samples mk -> spaced d t samples ->
  follows Mid t samples mk -> follows Short t samples mk ->
  0 <= d <= SHORT_TERM ->
  cycle_time t -> t + d * Z.of_nat (length currs) <= INT_MAX ->
  Z.of_nat (length samples + length currs) <= INT_MAX ->
  exists mk', history (Some mk) (periodic (t + d) d currs) = Done (Some mk').
Proof.
  induction currs as [|c currs IH]; intros t samples mk HC Hsp Hm Hs Hd Ht Hmax Hlen.
  - exists mk. done.
  - pose proof Hm as (rm & Hbm & Hrm & _). pose proof Hs as (rs & Hbs & Hrs & _).
    simpl in Hbm, Hbs.
    destruct (next_sample_succeeds _ _ (t + d) c _ _ HC Hbm Hrm Hbs Hrs) as [mk1 Hnext].
    simpl. rewrite Hnext. cbn [obind].
    assert (cycle_time (t + d)) as Ht'.
    { unfold cycle_time in *. split; [lia|]. simpl length in Hmax. nia. }
    assert (Z.of_nat (length samples) < INT_MAX) as Hn by (simpl in Hlen; lia).
    apply (IH (t + d) (samples ++ [reading (t + d, c)]) mk1).
    + by apply (next_sample_Chain samples mk).
    + destruct samples as [|s0 samples]; [by destruct HC|]. by apply spaced_snoc.
    + apply (next_sample_follows Mid d t samples mk); try done; [lia|].
      intros W [= <-]. unfold MID_TERM, SHORT_TERM in *. lia.
    + apply (next_sample_follows Short d t samples mk); try done; [lia|].
      intros W [= <-]. lia.
    + done.
    + done.
    + simpl length in Hmax. lia.
    + rewrite length_app. simpl in *. lia.
Qed.

(** The state reached by an entity reported in every cycle. *)
Lemma periodic_reach H t0 d c0 currs st :
  0 <= d -> (forall W, window H = Some W -> d <= W) ->
  cycle_time t0 -> t0 + d * Z.of_nat (length currs) <= INT_MAX ->
  Z.of_nat (S (length currs)) <= INT_MAX ->
  replay None (periodic t0 d (c0 :: currs)) = Done st ->
  exists mk samples,
    st = Some mk /\ Chain samples mk /\
    spaced d (t0 + d * Z.of_nat (length currs)) samples /\
    follows H (t0 + d * Z.of_nat (length currs)) samples mk.
Proof.
  intros Hd HdW Ht Hmax Hlen Hr.
  rewrite (replay_history []) in Hr by done. simpl in Hr.
  assert (Z.of_nat (length [reading (t0, c0)] + length currs) <= INT_MAX) as Hlen'
    by (simpl; lia).
  destruct (periodic_follows H d currs t0 [reading (t0, c0)] (first_sample t0 c0) st
              (Chain_first _ _) (spaced_first _ _ _) (follows_first _ _ _)
              Hd HdW Ht Hmax Hlen' Hr)
    as (mk & -> & HC & Hsp & Hf).
  eauto 10.
Qed.

Lemma periodic_runs t0 d c0 currs :
  0 <= d <= SHORT_TERM ->
  cycle_time t0 -> t0 + d * Z.of_nat (length currs) <= INT_MAX ->
  Z.of_nat (S (length currs)) <= INT_MAX ->
  exists mk, replay None (periodic t0 d (c0 :: currs)) = Done (Some mk).
Proof.
  intros Hd Ht Hmax Hlen. rewrite (replay_history []) by done. simpl.
  assert (Z.of_nat (length [reading (t0, c0)] + length currs) <= INT_MAX) as Hlen'
    by (simpl; lia).
  exact (periodic_completes d currs t0 [reading (t0, c0)] (first_sample t0 c0)
           (Chain_first _ _) (spaced_first _ _ _)
           (follows_first Mid _ _) (follows_first Short _ _) Hd Ht Hmax Hlen').
Qed.

Lemma filter_from (f : s -> bool) (l : list s) (r : nat) :
  (forall i x, l !! i = Some x -> f x = negb (i <? r)%nat) ->
  length (List.filter f l) = (length l - r)%nat.
Proof.
  revert r. induction l as [|x l IH]; intros r Hf; [done|].
  simpl. rewrite (Hf 0%nat x eq_refl). destruct r as [|r]; simpl.
  - rewrite (IH 0%nat); [lia|]. intros i y Hy. by rewrite (Hf (S i) y Hy).
  - apply IH. intros i y Hy. by rewrite (Hf (S i) y Hy).
Qed.

Lemma follows_sum H t samples mk :
  Chain samples mk -> follows H t samples mk ->
  sum_tied (histogram H mk) = samples_within H t (heap mk).
Proof.
  intros (_ & Hh & _) Hf. unfold follows, samples_within, in_window in *.
  rewrite Hh. destruct (window H) as [W|].
  - destruct Hf as (r & _ & Hr & Hc & Hw).
    rewrite (counts_sum _ _ Hc), length_drop, length_fmap.
    rewrite (filter_from _ _ r), length_build; [done|].
    intros i x. rewrite lookup_build.
    destruct (samples !! i) as [y|] eqn:Hy; [|done]. intros [= <-]. simpl.
    destruct (Hw i y Hy) as [Hlt Hge].
    destruct (Nat.ltb_spec i r); simpl; [apply Z.leb_gt | apply Z.leb_le]; auto.
  - rewrite (counts_sum _ _ Hf), length_fmap.
    rewrite (filter_from _ _ 0%nat), length_build; [f_equal; lia|]. done.
Qed.

Lemma next_sample_null (H : horizon) W t c mk :
  window H = Some W -> boundary H mk = None ->
  exists f, next_sample t c mk = Crash f.
Proof.
  intros HW Hb. unfold next_sample, clean.
  destruct H; simpl in HW, Hb; try done; rewrite Hb.
  - simpl. eauto.
  - destruct (deref (heap mk) (lastMID_TERM mk)) as [l|f]; [|simpl; eauto].
    cbn [obind]. destruct (_ <? _); simpl; eauto.
Qed.

(** The second cycle of an entity when the cycles are further apart than
    the window of [H]. *)
Lemma second_cycle (H : horizon) W t0 d c0 c1 mk :
  window H = Some W -> W < d -> cycle_time (t0 + d) ->
  next_sample (t0 + d) c1 (first_sample t0 c0) = Done mk ->
  boundary H mk = None /\
  sum_tied (histogram H mk) = 1 /\
  samples_within H (t0 + d) (heap mk) = 1.
Proof.
  intros HW Hd Ht Hnext.
  pose proof (window_nonneg _ _ HW) as HW0. pose proof (window_le_MID _ _ HW) as HWM.
  destruct (next_sample_horizon H W _ _ _ _ HW Hnext) as (last' & bs' & Hcl & Hb & Hh).
  pose proof (next_sample_Chain _ _ _ _ _ (Chain_first t0 c0) Hnext) as (_ & Hheap & _).
  assert (histogram H (first_sample t0 c0)
          = [ {| b_value := sample_value c0; tied := 1 |} ]) as Hh0 by (by destruct H).
  assert (boundary H (first_sample t0 c0) = Some 0%nat) as Hb0 by (by destruct H).
  rewrite Hh0, Hb0 in Hcl. unfold clean in Hcl. simpl in Hcl.
  rewrite int_id in Hcl by (unfold cycle_time in Ht; lia).
  destruct (Z.ltb_spec t0 (t0 + d - W)) as [_|]; [|lia].
  rewrite Z.eqb_refl in Hcl. injection Hcl as <- <-.
  split; [done|]. split.
  - rewrite Hh. unfold count_in. simpl.
    destruct (sample_value c1 =? sample_value c0); reflexivity.
  - rewrite Hheap. unfold samples_within, in_window. rewrite HW. simpl.
    destruct (Z.leb_spec (t0 + d - W) t0) as [|_]; [lia|].
    destruct (Z.leb_spec (t0 + d - W) (t0 + d)) as [_|]; [done | lia].
Qed.

(** C6, as the code has it.  For an entity reported in every cycle, the
    cycles being a constant [d >= 0] apart, and for every horizon, at the
    end of every cycle the sum of [tied] over the buckets of [histogram H]
    equals the number of samples within the window of [H]; with [d] at most
    the short-term window every cycle completes. *)
Theorem C6_histogram_matches_window (H : horizon) t0 d c0 currs :
  0 <= d ->
  cycle_time t0 -> t0 + d * Z.of_nat (length currs) <= INT_MAX ->
  Z.of_nat (S (length currs)) <= INT_MAX ->
  (d <= SHORT_TERM ->
   exists mk, replay None (periodic t0 d (c0 :: currs)) = Done (Some mk)) /\
  (forall mk,
     replay None (periodic t0 d (c0 :: currs)) = Done (Some mk) ->
     sum_tied (histogram H mk)
     = samples_within H (t0 + d * Z.of_nat (length currs)) (heap mk)).
Proof.
  intros Hd Ht Hmax Hlen. split.
  - intros Hs. by apply periodic_runs.
  - intros mk Hr.
    assert ((forall W, window H = Some W -> d <= W) \/
            exists W, window H = Some W /\ W < d) as [HdW|(W & HW & HWd)].
    { destruct (window H) as [W|]; [|by left].
      destruct (Z.le_gt_cases d W); [left; by intros ? [= <-] | right; eauto with lia]. }
    + destruct (periodic_reach H _ _ _ _ _ Hd HdW Ht Hmax Hlen Hr)
        as (mk' & samples & [= <-] & HC & _ & Hf).
      by apply (follows_sum H _ samples).
    + rewrite (replay_history []) in Hr by done.
      destruct currs as [|c1 [|c2 currs]]; simpl in Hr.
      * injection Hr as <-. rewrite Z.mul_0_r, Z.add_0_r.
        apply (follows_sum H _ [reading (t0, c0)]);
          [apply Chain_first | apply follows_first].
      * destruct (next_sample (t0 + d) c1 (first_sample t0 c0)) as [mk1|] eqn:Hn; [|done].
        injection Hr as <-. rewrite Z.mul_1_r.
        assert (cycle_time (t0 + d)) as Ht1
          by (unfold cycle_time in *; simpl length in Hmax; lia).
        destruct (second_cycle H W t0 d c0 c1 mk1 HW HWd Ht1 Hn) as (_ & -> & ->).
        done.
      * destruct (next_sample (t0 + d) c1 (first_sample t0 c0)) as [mk1|] eqn:Hn; [|done].
        cbn [obind] in Hr.
        assert (cycle_time (t0 + d)) as Ht1
          by (unfold cycle_time in *; simpl length in Hmax; lia).
        destruct (second_cycle H W t0 d c0 c1 mk1 HW HWd Ht1 Hn) as (Hb & _).
        destruct (next_sample_null H W (t0 + d + d) c2 mk1 HW Hb) as [f Hf].
        by rewrite Hf in Hr.
Qed.

Lemma C6_histogram_matches_window_witness :
  exists mk,
    replay None
      (periodic 0 300 (cache "dentry" 5 192 ::
         [cache "dentry" 5 192; cache "dentry" 7 192; cache "dentry" 5 192;
          cache "dentry" 7 192; cache "dentry" 7 192]))
    = Done (Some mk) /\
    sum_tied (histogram Short mk) = 4 /\
    samples_within Short 1500 (heap mk) = 4.
Proof.
  eexists.
  evaluate_run E.
  split; [exact E|].
  assert (cycle_time 0) as Ht by (unfold cycle_time, MID_TERM, INT_MAX; lia).
  pose proof (proj2 (C6_histogram_matches_window Short 0 300 (cache "dentry" 5 192)
                       [cache "dentry" 5 192; cache "dentry" 7 192; cache "dentry" 5 192;
                        cache "dentry" 7 192; cache "dentry" 7 192]
                       ltac:(lia) Ht
                       ltac:(unfold INT_MAX; simpl; lia)
                       ltac:(unfold INT_MAX; simpl; lia)) _ E) as Hsum.
  split; [reflexivity|].
  etransitivity; [symmetry; exact Hsum | reflexivity].
Defined.

Lemma tracks_boundary H W t samples mk :
  window H = Some W -> 0 <= W ->
  Chain samples mk -> tracks W t samples (boundary H mk) (histogram H mk) ->
  forall d, spaced d t samples -> 0 <= d ->
  exists a x,
    boundary H mk = Some a /\ heap mk !! a = Some x /\
    in_window H t x = true /\
    (forall b y, heap mk !! b = Some y -> (b < a)%nat -> in_window H t y = false) /\
    (forall b y, heap mk !! b = Some y -> (a <= b)%nat ->
       in_window H t y = true /\ s_timestamp x <= s_timestamp y) /\
    counts (histogram H mk) (drop a (s_value <$> heap mk)).
Proof.
  intros HW HW0 (_ & Hh & _) (r & Hb & Hr & Hc & Hw) d Hsp Hd.
  destruct (lookup_lt_is_Some_2 samples r Hr) as [x Hx].
  exists r, (node (length samples) r x).
  rewrite Hh, values_build. unfold in_window. rewrite HW.
  split; [done|]. split; [by rewrite lookup_build, Hx|]. simpl.
  split; [apply Z.leb_le, (Hw r x Hx); lia|].
  split; [|split; [|done]].
  - intros b y. rewrite lookup_build.
    destruct (samples !! b) as [yb|] eqn:Hy; [|done]. intros [= <-] Hlt. simpl.
    apply Z.leb_gt. by apply (Hw b yb Hy).
  - intros b y. rewrite lookup_build.
    destruct (samples !! b) as [yb|] eqn:Hy; [|done]. intros [= <-] Hle. simpl.
    split; [apply Z.leb_le; by apply (Hw b yb Hy)|].
    apply (spaced_mono d t samples r b); done.
Qed.

(** C7, as the code has it.  For an entity reported in every cycle, the
    cycles being [d] apart with [d] at most the window of a bounded horizon
    [H], at the end of every cycle [boundary H] references an existing
    node, that node is the oldest sample within [now - window], every newer
    node is within the window, and the older nodes are outside it and no
    longer counted in [histogram H]; with [d] at most the short-term
    window every cycle completes. *)
Theorem C7_boundary_tracks_window (H : horizon) W t0 d c0 currs :
  window H = Some W -> 0 <= d <= W ->
  cycle_time t0 -> t0 + d * Z.of_nat (length currs) <= INT_MAX ->
  Z.of_nat (S (length currs)) <= INT_MAX ->
  (d <= SHORT_TERM ->
   exists mk, replay None (periodic t0 d (c0 :: currs)) = Done (Some mk)) /\
  (forall mk,
     replay None (periodic t0 d (c0 :: currs)) = Done (Some mk) ->
     let now := t0 + d * Z.of_nat (length currs) in
     exists a x,
       boundary H mk = Some a /\ heap mk !! a = Some x /\
       in_window H now x = true /\
       (forall b y, heap mk !! b = Some y -> (b < a)%nat -> in_window H now y = false) /\
       (forall b y, heap mk !! b = Some y -> (a <= b)%nat ->
          in_window H now y = true /\ s_timestamp x <= s_timestamp y) /\
       counts (histogram H mk) (drop a (s_value <$> heap mk))).
Proof.
  intros HW Hd Ht Hmax Hlen. split.
  - intros Hs. apply periodic_runs; (done || lia).
  - intros mk Hr.
    assert (forall W', window H = Some W' -> d <= W') as HdW
      by (intros W' HW'; rewrite HW in HW'; injection HW' as <-; lia).
    destruct (periodic_reach H _ _ _ _ _ (proj1 Hd) HdW Ht Hmax Hlen Hr)
      as (mk' & samples & [= <-] & HC & Hsp & Hf).
    unfold follows in Hf. rewrite HW in Hf.
    apply (tracks_boundary H W _ samples mk HW (window_nonneg _ _ HW) HC Hf d Hsp (proj1 Hd)).
Qed.

Lemma C7_boundary_tracks_window_witness :
  exists mk,
    replay None
      (periodic 0 300 (cache "dentry" 5 192 ::
         [cache "dentry" 5 192; cache "dentry" 7 192; cache "dentry" 5 192;
          cache "dentry" 7 192; cache "dentry" 7 192]))
    = Done (Some mk) /\
    boundary Short mk = Some 2%nat /\
    exists a x, boundary Short mk = Some a /\ heap mk !! a = Some x /\
                in_window Short 1500 x = true.
Proof.
  eexists.
  evaluate_run E.
  split; [exact E|]. split; [reflexivity|].
  assert (cycle_time 0) as Ht by (unfold cycle_time, MID_TERM, INT_MAX; lia).
  destruct (proj2 (C7_boundary_tracks_window Short SHORT_TERM 0 300
                     (cache "dentry" 5 192)
                     [cache "dentry" 5 192; cache "dentry" 7 192; cache "dentry" 5 192;
                      cache "dentry" 7 192; cache "dentry" 7 192]
                     eq_refl ltac:(unfold SHORT_TERM; lia) Ht
                     ltac:(unfold INT_MAX; simpl; lia)
                     ltac:(unfold INT_MAX; simpl; lia)) _ E)
    as (a & x & Hb & Hx & Hin & _).
  exists a, x. auto.
Defined.

(** ** When cycles are missed or slow *)

(** C6 as stated fails.  Under [--delay 300], with "dentry" absent from the
    snapshots of cycles 3 and 4, the short-term histogram of "dentry" sums
    to 3 at the end of cycle 5 while only 2 of its samples (times 600 and
    1500) lie within the last 900 seconds. *)
Lemma C6_counterexample :
  exists reg mk,
    daemon 300 0 gap_snapshots [] = Done reg /\
    reg !! 1%nat = Some mk /\ name mk = "dentry" /\
    sum_tied (histogram Short mk) = 3 /\
    samples_within Short 1500 (heap mk) = 2 /\
    sum_tied (histogram Short mk) <> samples_within Short 1500 (heap mk).
Proof.
  eexists _, _. split; [vm_compute; reflexivity|].
  split; [reflexivity|]. split; [reflexivity|].
  split; [reflexivity|]. split; [reflexivity|]. vm_compute. discriminate.
Qed.

(** C7 as stated fails.  In the same run the short-term boundary of
    "dentry" ends cycle 5 on the sample taken at time 300, which is older
    than [1500 - 900], the oldest sample within the window being the one at
    address 2; and under [--delay 1000] the short-term boundary is NULL at
    the end of the second cycle, so that the third cycle dereferences
    NULL. *)
Lemma C7_counterexample :
  (exists reg mk x,
     daemon 300 0 gap_snapshots [] = Done reg /\
     reg !! 1%nat = Some mk /\
     boundary Short mk = Some 1%nat /\ heap mk !! 1%nat = Some x /\
     s_timestamp x = 300 /\ in_window Short 1500 x = false) /\
  (exists mk,
     daemon 1000 0 (slow_snapshots 2) [] = Done [mk] /\
     length (heap mk) = 2%nat /\ boundary Short mk = None) /\
  daemon 1000 0 (slow_snapshots 3) [] = Crash NullDeref.
Proof.
  split; [|split].
  - eexists _, _, _. split; [vm_compute; reflexivity|].
    repeat (split; [reflexivity|]). reflexivity.
  - eexists. split; [vm_compute; reflexivity|]. split; reflexivity.
  - vm_compute. reflexivity.
Qed.

(** C5 as stated fails.  When "dentry" (samples at 0, 300, 600) is next
    reported at time 1500, the code retires the sample at 0 only and leaves
    the short-term boundary on the sample at 300, still older than
    [1500 - 900]; the repeated retirement of the claim would also retire
    the sample at 300 and stop at the one at 600.  And under a 1000 s
    interval the boundary is NULL after the second sample, not the
    next-newer node. *)
Lemma C5_counterexample :
  (exists mk bs bs',
     state_after (periodic 0 300
        [cache "dentry" 5 192; cache "dentry" 7 192; cache "dentry" 9 192])
     = Some mk /\
     clean SHORT_TERM 1500 (heap mk) (boundary Short mk) (histogram Short mk)
     = Done (Some 1%nat, bs) /\
     tied_of bs 1344 = 1 /\
     clean_while (length (heap mk)) SHORT_TERM 1500 (heap mk)
       (boundary Short mk) (histogram Short mk)
     = Done (Some 2%nat, bs') /\
     tied_of bs' 1344 = 0) /\
  (exists mk,
     replay None (periodic 0 1000 [cache "dentry" 5 192; cache "dentry" 7 192])
     = Done (Some mk) /\
     length (heap mk) = 2%nat /\ boundary Short mk = None).
Proof.
  split.
  - eexists _, _, _. split; [vm_compute; reflexivity|].
    split; [vm_compute; reflexivity|]. split; [reflexivity|].
    split; [vm_compute; reflexivity|]. reflexivity.
  - eexists. split; [vm_compute; reflexivity|]. split; reflexivity.
Qed.
Lemma uncount_tied bs x vals :
  counts bs (x :: vals) -> Z.of_nat (length vals) < INT_MAX ->
  b_value <$> uncount bs x = b_value <$> bs /\
  x ∈ b_value <$> bs /\
  (forall v, tied_of (uncount bs x) v = tied_of bs v - (if v =? x then 1 else 0)) /\
  0 <= tied_of (uncount bs x) x.
Proof.
  intros Hc Hlen. pose proof (counts_uncount _ _ _ Hc Hlen) as [_ Hocc'].
  pose proof Hc as [_ Hocc].
  split; [|split; [|split]].
  - unfold uncount. destruct (searchBucket bs x); [apply values_alter | done].
  - apply (counts_cover _ _ _ Hc), list_elem_of_here.
  - intros v. rewrite Hocc', Hocc. simpl. lia.
  - rewrite Hocc'. apply occ_bounds.
Qed.

Lemma long_wait_scenario c0 c1 :
  exists mk,
    replay None (periodic 0 1000 [c0; c1]) = Done (Some mk) /\
    sample_value c0 ∈ b_value <$> histogram Short mk /\
    tied_of (histogram Short mk) (sample_value c0)
    = tied_of (histogram Total mk) (sample_value c0) - 1 /\
    tied_of (histogram Mid mk) (sample_value c0)
    = tied_of (histogram Total mk) (sample_value c0).
Proof.
  rewrite (replay_history []) by done.
  unfold periodic, history, retention, next_sample, first_sample, clean, deref, count_in.
  cbn -[sample_value Z.eqb]. rewrite Z.eqb_refl.
  change (0 <? int (0 + 1000 - MID_TERM)) with false.
  change (0 <? int (0 + 1000 - SHORT_TERM)) with true.
  cbn -[sample_value Z.eqb].
  destruct (Z.eqb_spec (sample_value c1) (sample_value c0)) as [->|Hne];
    eexists; (split; [reflexivity|]); cbn -[sample_value Z.eqb].
  - rewrite !Z.eqb_refl. split; [apply list_elem_of_here | done].
  - rewrite !Z.eqb_refl.
    destruct (Z.eqb_spec (sample_value c0) (sample_value c1)) as [?|_]; [congruence|].
    split; [apply list_elem_of_further, list_elem_of_here | done].
Qed.

Lemma Inv_horizon samples mk H W :
  Inv samples mk -> window H = Some W ->
  exists r, retired r (length samples) (boundary H mk) /\
            counts (histogram H mk) (drop r samples.*2).
Proof.
  intros (_ & _ & Hm & Hs) HW.
  destruct H; simpl in *; [done | exact Hm | exact Hs].
Qed.

(** C5, as the code has it.  On every further sample at time [t] of a known
    entity, for each bounded horizon the retirement test is made once: if
    the sample referenced by the boundary has [timestamp < t - window], the
    bucket of its value has its [tied] count decremented by exactly 1 (the
    bucket is kept and its count stays at least 0) and the boundary moves
    to that sample's newer link, which is the next-newer node whenever one
    is linked; otherwise nothing is retired.  With samples 1000 s apart,
    after the second sample the count of the first sample's value is one
    less in the short-term histogram than in the mid-term and total ones,
    which retain it. *)
Theorem C5_retirement_once :
  (forall inputs mk t c mk' (H : horizon) W,
     replay None inputs = Done (Some mk) ->
     Z.of_nat (length inputs) < INT_MAX ->
     window H = Some W -> cycle_time t ->
     next_sample t c mk = Done mk' ->
     exists a l bs,
       boundary H mk = Some a /\ heap mk !! a = Some l /\
       histogram H mk' = count_in bs (sample_value c) /\
       (s_timestamp l < t - W ->
          boundary H mk' = s_prev l /\
          ((S a < length (heap mk))%nat -> boundary H mk' = Some (S a)) /\
          b_value <$> bs = b_value <$> histogram H mk /\
          s_value l ∈ b_value <$> bs /\
          (forall v, tied_of bs v
                     = tied_of (histogram H mk) v - (if v =? s_value l then 1 else 0)) /\
          0 <= tied_of bs (s_value l)) /\
       (t - W <= s_timestamp l ->
          boundary H mk' = boundary H mk /\ bs = histogram H mk)) /\
  (forall c0 c1,
     exists mk,
       replay None (periodic 0 1000 [c0; c1]) = Done (Some mk) /\
       sample_value c0 ∈ b_value <$> histogram Short mk /\
       tied_of (histogram Short mk) (sample_value c0)
       = tied_of (histogram Total mk) (sample_value c0) - 1 /\
       tied_of (histogram Mid mk) (sample_value c0)
       = tied_of (histogram Total mk) (sample_value c0)).
Proof.
  split; [|apply long_wait_scenario].
  intros inputs mk t c mk' H W Hr Hlen HW Ht Hnext.
  pose proof (reach_invariant _ _ Hr ltac:(lia)) as HI. simpl in HI.
  destruct (Inv_horizon _ _ H W HI HW) as (r & Hret & Hc).
  pose proof (Inv_Chain _ _ HI) as (_ & Hh & _).
  destruct (next_sample_horizon H W _ _ _ _ HW Hnext) as (last' & bs' & Hcl & Hb' & Hh').
  rewrite Hh in Hcl. unfold clean in Hcl.
  destruct (boundary H mk) as [a|] eqn:Hb; [|done].
  destruct (retired_Some _ _ _ _ Hret eq_refl) as [-> Hrn].
  destruct (lookup_lt_is_Some_2 _ r Hrn) as [x Hx].
  rewrite (deref_build _ _ _ Hx) in Hcl. cbn [obind] in Hcl.
  rewrite int_id in Hcl.
  2:{ pose proof (window_nonneg _ _ HW). pose proof (window_le_MID _ _ HW).
      unfold cycle_time in Ht. lia. }
  exists r, (node (length (reading <$> inputs)) r x), bs'.
  split; [done|]. split; [by rewrite Hh, lookup_build, Hx|]. split; [done|].
  assert ((reading <$> inputs).*2 !! r = Some x.2) as Hv by (by rewrite list_lookup_fmap, Hx).
  rewrite (drop_S _ _ _ Hv) in Hc.
  assert (Z.of_nat (length (drop (S r) (reading <$> inputs).*2)) < INT_MAX) as Hl
    by (rewrite length_drop, !length_fmap; lia).
  destruct (uncount_tied _ _ _ Hc Hl) as (Hvals & Hin & Htied & Hpos).
  simpl s_timestamp in *. simpl s_value in *.
  destruct (Z.ltb_spec x.1 (t - W)) as [Hold|Hyoung]; injection Hcl as <- <-.
  - split; [|intros; lia]. intros _. rewrite Hh, length_build. simpl s_prev.
    split; [done|]. split.
    { intros HS. by destruct (Nat.ltb_spec (S r) (length (reading <$> inputs))); [|lia]. }
    fold (uncount (histogram H mk) x.2). rewrite Hvals. done.
  - split; [intros; lia | done].
Qed.

Lemma C5_retirement_once_witness :
  exists mk mk' a l,
    replay None
      (periodic 0 300 [cache "dentry" 5 192; cache "dentry" 7 192;
                       cache "dentry" 5 192; cache "dentry" 9 192])
    = Done (Some mk) /\
    next_sample 1200 (cache "dentry" 7 192) mk = Done mk' /\
    boundary Short mk = Some a /\ heap mk !! a = Some l /\
    (s_timestamp l < 1200 - SHORT_TERM ->
     boundary Short mk' = s_prev l /\
     tied_of (histogram Short mk') 960
     = tied_of (count_in (histogram Short mk) 1344) 960 - 1).
Proof.
  eexists _, _.
  match goal with
  | |- exists a l, ?run = Done (Some ?mk) /\ ?step = Done ?mk' /\ _ =>
      assert (run = Done (Some mk)) as E1 by (vm_compute; reflexivity);
      assert (step = Done mk') as E2 by (vm_compute; reflexivity)
  end.
  assert (cycle_time 1200) as Ht by (unfold cycle_time, MID_TERM, INT_MAX; lia).
  destruct (proj1 C5_retirement_once _ _ 1200 _ _ Short SHORT_TERM E1
              ltac:(unfold INT_MAX; simpl; lia) eq_refl Ht E2)
    as (a & l & bs & Hb & Hl & _ & Hold & _).
  exists a, l. split; [exact E1|]. split; [exact E2|].
  split; [exact Hb|]. split; [exact Hl|].
  intros Hlt. split; [exact (proj1 (Hold Hlt))|]. reflexivity.
Defined.

(** ** A steadily growing cache (C2, C9) *)

Lemma last_cycle inputs t c mk :
  replay None (inputs ++ [(t, c)]) = Done (Some mk) ->
  exists st r,
    replay None inputs = Done st /\ monitor_entity t c st = Done (mk, r) /\
    forall H, stats H r = stats_of H t mk.
Proof.
  rewrite replay_snoc.
  destruct (replay None inputs) as [st|] eqn:Hr; [|done]. cbn [obind].
  destruct (monitor_entity t c st) as [[mk' r]|] eqn:Hm; [|done]. cbn [obind].
  intros [= <-]. exists st, r. split; [done|]. split; [done|].
  apply (monitor_entity_Done _ _ _ _ _ _ (reach_chained _ _ Hr) Hm).
Qed.

Lemma periodic_app t d l1 l2 :
  periodic t d (l1 ++ l2)
  = periodic t d l1 ++ periodic (t + d * Z.of_nat (length l1)) d l2.
Proof.
  revert t. induction l1 as [|c l1 IH]; intros t; simpl.
  - f_equal. lia.
  - rewrite IH. do 3 f_equal. lia.
Qed.

Lemma rising_S k :
  rising (S k) = rising k ++ [cache "kmalloc-64" (Z.of_nat (S k)) 1].
Proof. unfold rising. by rewrite seq_S, fmap_app. Qed.

Lemma length_rising k : length (rising k) = k.
Proof. unfold rising. by rewrite length_fmap, length_seq. Qed.

Lemma readings_values t d currs :
  (reading <$> periodic t d currs).*2 = sample_value <$> currs.
Proof. revert t. induction currs as [|c currs IH]; intros t; simpl; [done|]. by rewrite IH. Qed.

Lemma rising_values k :
  Z.of_nat k < 2 ^ 32 ->
  sample_value <$> rising k = Z.of_nat <$> seq 1 k.
Proof.
  intros Hk. unfold rising. rewrite <- list_fmap_compose.
  apply Forall_fmap_ext, Forall_forall. intros i Hi.
  apply elem_of_seq in Hi. unfold sample_value, unsigned. simpl.
  rewrite Z.mul_1_r, Z.mod_small; lia.
Qed.

Lemma pair_sum_sign l :
  pair_sum (fun newer older => Z.sgn (s_value newer - s_value older)) l
  = sign_sum (s_value <$> l).
Proof.
  induction l as [|x l IH]; [done|].
  rewrite fmap_cons. simpl pair_sum. simpl sign_sum. rewrite IH. f_equal.
  clear IH. induction l as [|y l IH]; [done|].
  rewrite fmap_cons. simpl foldr. by rewrite IH.
Qed.

Lemma mk_S_total t l : mk_S Total t l = sign_sum (s_value <$> l).
Proof. rewrite <- pair_sum_sign. apply pair_sum_ext. done. Qed.

Lemma code_S_total t l : pair_sum (code_term Total t) l = sign_sum (s_value <$> l).
Proof. rewrite <- pair_sum_sign. apply pair_sum_ext. done. Qed.

Lemma sign_sum_above x (l : list Z) :
  Forall (fun y => y < x) l ->
  foldr (fun older acc => Z.sgn (x - older) + acc) 0 l = Z.of_nat (length l).
Proof.
  induction 1 as [|y l Hy _ IH]; simpl; [done|].
  rewrite IH, Z.sgn_pos; lia.
Qed.

Lemma sign_sum_rising k :
  2 * sign_sum (reverse (Z.of_nat <$> seq 1 k)) = Z.of_nat k * (Z.of_nat k - 1).
Proof.
  induction k as [|k IH]; [done|].
  rewrite seq_S, fmap_app, reverse_app. simpl.
  rewrite sign_sum_above.
  - rewrite length_reverse, length_fmap, length_seq. lia.
  - apply Forall_forall. intros y Hy. rewrite elem_of_reverse in Hy.
    apply list_elem_of_fmap in Hy as (i & -> & Hi). apply elem_of_seq in Hi. lia.
Qed.

Lemma series_values samples mk :
  Chain samples mk -> s_value <$> series mk = reverse samples.*2.
Proof.
  intros (_ & Hh & _). unfold series. by rewrite fmap_reverse, Hh, values_build.
Qed.

Lemma code_count_total t l : code_count Total t l = Z.of_nat (length l).
Proof.
  unfold code_count. f_equal. induction l as [|x l IH]; simpl; [done|]. by rewrite IH.
Qed.

Lemma occ_NoDup v (l : list Z) : NoDup l -> occ v l <= 1.
Proof.
  induction 1 as [|x l Hx _ IH]; simpl; [lia|].
  destruct (Z.eqb_spec v x) as [->|]; [|lia].
  assert (occ x l = 0); [|lia].
  clear IH. induction l as [|y l IH]; simpl; [done|].
  apply not_elem_of_cons in Hx as [Hne Hx].
  destruct (Z.eqb_spec x y); [done|]. rewrite IH; done.
Qed.

Lemma secondPart_no_ties bs acc :
  Forall (fun b => tied b <= 1) bs -> secondPartVariance bs acc = acc.
Proof.
  induction 1 as [|b bs Hb _ IH]; simpl; [done|].
  destruct (Z.ltb_spec 1 (tied b)); [lia | done].
Qed.

Lemma periodic_single t d c : periodic t d [c] = [(t, c)].
Proof. done. Qed.

Lemma periodic_runs_nonempty t0 d currs :
  currs <> [] -> 0 <= d <= SHORT_TERM -> cycle_time t0 ->
  t0 + d * (Z.of_nat (length currs) - 1) <= INT_MAX ->
  Z.of_nat (length currs) <= INT_MAX ->
  exists mk, replay None (periodic t0 d currs) = Done (Some mk).
Proof.
  destruct currs as [|c0 currs]; [done|]. intros _ Hd Ht Hmax Hlen.
  apply periodic_runs; try done.
  - replace (Z.of_nat (length currs)) with (Z.of_nat (length (c0 :: currs)) - 1); [done|].
    simpl length. lia.
Qed.

(** The record of cycle [k] (time [30 k]) of a cache that grew by one object
    in each of the cycles 0, ..., [k]. *)
Lemma rising_run k :
  Z.of_nat (S k) <= INT_MAX -> 30 * Z.of_nat k <= INT_MAX ->
  exists st mk r,
    replay None (periodic 0 30 (rising k)) = Done st /\
    monitor_entity (30 * Z.of_nat k) (cache "kmalloc-64" (Z.of_nat (S k)) 1) st
    = Done (mk, r) /\
    s_value <$> series mk = reverse (Z.of_nat <$> seq 1 (S k)) /\
    stats Total r
    = evaluate (int (sign_sum (s_value <$> series mk))) (long (Z.of_nat (S k)))
        (ldouble_of_Z 0).
Proof.
  intros Hk Ht.
  assert (cycle_time 0) as Ht0 by (unfold cycle_time, MID_TERM, INT_MAX; lia).
  destruct (periodic_runs_nonempty 0 30 (rising (S k))) as [mk Hrun].
  { intros E. apply (f_equal length) in E. by rewrite length_rising in E. }
  { unfold SHORT_TERM. lia. }
  { done. }
  { rewrite length_rising. lia. }
  { by rewrite length_rising. }
  pose proof (reach_invariant _ _ Hrun
                ltac:(by rewrite length_periodic, length_rising)) as HI.
  cbn [invariant] in HI. pose proof (Inv_Chain _ _ HI) as HC.
  rewrite rising_S, periodic_app, length_rising, periodic_single, Z.add_0_l in Hrun.
  destruct (last_cycle _ _ _ _ Hrun) as (st & r & Hr & Hm & Hst).
  exists st, mk, r. split; [done|]. split; [done|].
  assert (s_value <$> series mk = reverse (Z.of_nat <$> seq 1 (S k))) as Hvals.
  { rewrite (series_values _ _ HC), readings_values, rising_values; [done|].
    unfold INT_MAX in Hk. lia. }
  split; [done|].
  rewrite Hst. unfold stats_of. rewrite code_S_total, code_count_total.
  unfold series at 2. rewrite length_reverse.
  destruct HC as (_ & Hh & _).
  rewrite Hh, length_build, length_fmap, length_periodic, length_rising.
  f_equal. apply secondPart_no_ties.
  destruct HI as (_ & HT & _). apply Forall_forall. intros b Hb.
  rewrite (counts_bucket _ _ _ HT Hb). apply occ_NoDup.
  rewrite readings_values, rising_values by (unfold INT_MAX in Hk; lia).
  apply NoDup_fmap; [intros ? ?; lia | apply NoDup_seq].
Qed.

(** Up to 65536 samples the total S of the growing cache is [k (k - 1) / 2]
    for [k] samples. *)
Lemma rising_in_range k :
  Z.of_nat (S k) <= 65536 ->
  exists st mk r,
    replay None (periodic 0 30 (rising k)) = Done st /\
    monitor_entity (30 * Z.of_nat k) (cache "kmalloc-64" (Z.of_nat (S k)) 1) st
    = Done (mk, r) /\
    2 * accum (stats Total r) = Z.of_nat (S k) * (Z.of_nat (S k) - 1) /\
    counter (stats Total r) = Z.of_nat (S k) /\
    secondPart (stats Total r) = ldouble_of_Z 0.
Proof.
  intros Hk.
  destruct (rising_run k) as (st & mk & r & Hr & Hm & Hv & Hst);
    [unfold INT_MAX; lia | unfold INT_MAX; lia |].
  exists st, mk, r. split; [done|]. split; [done|].
  rewrite Hst, Hv. pose proof (sign_sum_rising (S k)) as HS.
  unfold evaluate. cbn [accum counter secondPart].
  rewrite int_id by (unfold INT_MAX; nia).
  rewrite long_id by lia. done.
Qed.

(** After 65537 cycles of steady growth (22.75 days at the default delay). *)
Lemma leak_record :
  exists st mk r,
    replay None (periodic 0 30 (rising (Z.to_nat 65536))) = Done st /\
    monitor_entity 1966080 (cache "kmalloc-64" 65537 1) st = Done (mk, r) /\
    sign_sum (s_value <$> series mk) = 2147516416 /\
    stats Total r = evaluate (-2147450880) 65537 (ldouble_of_Z 0).
Proof.
  assert (exists k, k = Z.to_nat 65536) as [k Hk] by eauto.
  assert (Z.of_nat k = 65536) as HkZ by (subst k; apply Z2Nat.id; lia).
  rewrite <- Hk. clear Hk.
  destruct (rising_run k) as (st & mk & r & Hr & Hm & Hv & Hst);
    [unfold INT_MAX; lia | unfold INT_MAX; lia |].
  replace (30 * Z.of_nat k) with 1966080 in Hm by lia.
  replace (Z.of_nat (S k)) with 65537 in Hm, Hst by lia.
  exists st, mk, r. split; [done|]. split; [done|].
  pose proof (sign_sum_rising (S k)) as HS. rewrite <- Hv in HS.
  assert (sign_sum (s_value <$> series mk) = 2147516416) as HS' by lia.
  split; [done|]. rewrite Hst, HS'. reflexivity.
Qed.

(** C2, on 65537 samples of a steadily growing cache (one sample every 30 s
    for 22.75 days): the sum of the signs over all pairs of the series is
    2147516416, which does not fit the [int] accumulator [accumTotal]; the
    logged S of the total horizon is -2147450880. *)
Theorem C2_total_S_wraps :
  exists st mk r,
    replay None (periodic 0 30 (rising (Z.to_nat 65536))) = Done st /\
    monitor_entity 1966080 (cache "kmalloc-64" 65537 1) st = Done (mk, r) /\
    mk_S Total 1966080 (series mk) = 2147516416 /\
    accum (stats Total r) = -2147450880.
Proof.
  destruct leak_record as (st & mk & r & Hr & Hm & HS & Hst).
  exists st, mk, r. split; [done|]. split; [done|].
  split; [by rewrite mk_S_total | by rewrite Hst].
Qed.

(** C9, on the same 65537 strictly increasing values, all within the total
    horizon: the logged S is -2147450880 instead of
    [65537 * 65536 / 2 = 2147516416], and the flag of the total horizon is
    "NO". *)
Theorem C9_rising_S_wraps :
  exists st mk r,
    replay None (periodic 0 30 (rising (Z.to_nat 65536))) = Done st /\
    monitor_entity 1966080 (cache "kmalloc-64" 65537 1) st = Done (mk, r) /\
    counter (stats Total r) = 65537 /\
    accum (stats Total r) = -2147450880 /\
    accum (stats Total r) <> 65537 * (65537 - 1) / 2 /\
    trend (stats Total r) = "NO".
Proof.
  destruct leak_record as (st & mk & r & Hr & Hm & HS & Hst).
  exists st, mk, r. split; [done|]. split; [done|].
  rewrite Hst. vm_compute. repeat split; (reflexivity || discriminate).
Qed.

(** The instance of C9 that the code meets: thirty cycles with values
    1, ..., 30, all within every horizon. *)
Lemma thirty_rising :
  exists st mk r,
    replay None (periodic 0 30 (rising 29)) = Done st /\
    monitor_entity 870 (cache "kmalloc-64" 30 1) st = Done (mk, r) /\
    forall H,
      accum (stats H r) = 30 * (30 - 1) / 2 /\ counter (stats H r) = 30 /\
      Forall (fun b => tied b = 1) (histogram H mk) /\
      varS (stats H r)
      = double_of_ldouble
          (lddiv (ldouble_of_Z (30 * (30 - 1) * (2 * 30 + 5))) (ldouble_of_Z 18)) /\
      dgt (z (stats H r)) criticalValue = true /\
      trend (stats H r) = "YES".
Proof.
  eexists _, _, _. split; [vm_compute; reflexivity|].
  split; [vm_compute; reflexivity|].
  intros []; vm_compute; (repeat split; try reflexivity); repeat constructor.
Qed.

(** C3, on 1024 equal samples (8.5 hours at the default delay): the tie term
    [tied*(tied-1)*(2*tied+5)] of the only bucket is 2150624256, which does
    not fit an [int]; the tie correction logged is -2144343040 and the
    variance is [4294967296/18] where the formula gives 0. *)
Theorem C3_tie_term_wraps :
  exists st mk r,
    replay None (periodic 0 30 (replicate 1023 (cache "dentry" 5 192))) = Done st /\
    monitor_entity 30690 (cache "dentry" 5 192) st = Done (mk, r) /\
    histogram Total mk = [ {| b_value := 960; tied := 1024 |} ] /\
    counter (stats Total r) = 1024 /\
    firstPart (stats Total r) = ldouble_of_Z (1024 * (1024 - 1) * (2 * 1024 + 5)) /\
    secondPart (stats Total r) = ldouble_of_Z (-2144343040) /\
    varS (stats Total r)
    = double_of_ldouble (lddiv (ldouble_of_Z 4294967296) (ldouble_of_Z 18)) /\
    varS (stats Total r)
    <> double_of_ldouble
         (lddiv (ldouble_of_Z (1024 * (1024 - 1) * (2 * 1024 + 5)
                               - 1024 * (1024 - 1) * (2 * 1024 + 5)))
                (ldouble_of_Z 18)).
Proof.
  rewrite (replay_history []) by done.
  eexists _, _, _. split; [vm_compute; reflexivity|].
  split; [vm_compute; reflexivity|].
  vm_compute. repeat split; (reflexivity || discriminate).
Qed.

(** ** What the scan and the variance compute in general *)

(** At every cycle the logged S of a horizon is the pair sum of that
    horizon reduced to an [int], and the logged count is the number of
    samples within the window reduced to a [long]. *)
Lemma scan_computes_S inputs st t c mk r (H : horizon) :
  replay None inputs = Done st ->
  monitor_entity t c st = Done (mk, r) ->
  cycle_time t ->
  accum (stats H r) = int (mk_S H t (series mk)) /\
  counter (stats H r) = long (samples_within H t (heap mk)).
Proof.
  intros Hr Hm Ht.
  destruct (monitor_entity_Done _ _ _ _ _ _ (reach_chained _ _ Hr) Hm) as (_ & _ & Hst).
  rewrite Hst. unfold stats_of, evaluate. cbn [accum counter].
  rewrite code_S_exact by done. unfold series.
  by rewrite code_count_exact.
Qed.

(** The variance as the code computes it: the first part in [long], each
    tie term in [int], the sums and the division by 18 in [long double],
    the result rounded to [double]. *)
Lemma variance_as_computed t c found mk r (H : horizon) :
  monitor_entity t c found = Done (mk, r) ->
  let n := counter (stats H r) in
  secondPart (stats H r) = secondPartVariance (histogram H mk) (ldouble_of_Z 0) /\
  (1 < n ->
     varS (stats H r)
     = double_of_ldouble
         (lddiv (ldsub (ldouble_of_Z (long (n * (n - 1) * (2 * n + 5))))
                       (secondPart (stats H r)))
                (ldouble_of_Z 18))) /\
  (n <= 1 -> varS (stats H r) = dzero).
Proof.
  intros Hm. destruct (monitor_entity_engine _ _ _ _ _ Hm) as [_ He].
  destruct (engine_evaluate _ _ _ _ H He) as (a & n & second & -> & _ & ->).
  unfold evaluate. cbn [counter secondPart varS]. split; [done|]. split; intros Hn.
  - by destruct (Z.ltb_spec 1 n); [|lia].
  - by destruct (Z.ltb_spec 1 n); [lia|].
Qed.

(** ** Sorting the snapshot *)

Lemma merge_objs_nil_l sort_func b : merge_objs sort_func [] b = b.
Proof. by destruct b. Qed.

Lemma merge_objs_nil_r sort_func a : merge_objs sort_func a [] = a.
Proof. by destruct a. Qed.

Lemma merge_objs_cons sort_func x a y b :
  merge_objs sort_func (x :: a) (y :: b) =
  if sort_func x y then x :: merge_objs sort_func a (y :: b)
  else y :: merge_objs sort_func (x :: a) b.
Proof. done. Qed.

Lemma merge_objs_app sort_func (a b : list slab_info) :
  merge_objs sort_func a b ≡ₚ a ++ b.
Proof.
  revert b. induction a as [|x a IHa]; intros b; [by rewrite merge_objs_nil_l|].
  induction b as [|y b IHb].
  - by rewrite merge_objs_nil_r, app_nil_r.
  - rewrite merge_objs_cons. destruct (sort_func x y).
    + by rewrite IHa.
    + rewrite IHb. by rewrite <- Permutation_middle.
Qed.

Section sorted.
Variable sort_func : slab_info -> slab_info -> bool.

Hypothesis asym : forall x y, sort_func x y = true -> sort_func y x = false.

Lemma merge_objs_HdRel z a b :
  HdRel (may_follow sort_func) z a -> HdRel (may_follow sort_func) z b ->
  HdRel (may_follow sort_func) z (merge_objs sort_func a b).
Proof.
  intros Ha Hb. destruct a as [|x a]; [by rewrite merge_objs_nil_l|].
  destruct b as [|y b]; [done|].
  rewrite merge_objs_cons. destruct (sort_func x y).
  - constructor. by inversion Ha.
  - constructor. by inversion Hb.
Qed.

Lemma merge_objs_Sorted a b :
  Sorted (may_follow sort_func) a -> Sorted (may_follow sort_func) b ->
  Sorted (may_follow sort_func) (merge_objs sort_func a b).
Proof.
  revert b. induction a as [|x a IHa]; intros b Ha Hb; [by rewrite merge_objs_nil_l|].
  induction b as [|y b IHb]; [by rewrite merge_objs_nil_r|].
  rewrite merge_objs_cons. destruct (sort_func x y) eqn:E.
  - inversion Ha; subst. constructor; [by apply IHa|].
    apply merge_objs_HdRel; [done|]. constructor. by apply asym.
  - inversion Hb; subst. constructor; [by apply IHb|].
    apply merge_objs_HdRel; [|done]. by constructor.
Qed.

Lemma slabsort_Sorted l : Sorted (may_follow sort_func) (slabsort sort_func l).
Proof.
  funelim (slabsort sort_func l).
  - constructor.
  - repeat constructor.
  - by apply merge_objs_Sorted.
Qed.
End sorted.

Lemma StronglySorted_mono {A} (R1 R2 : A -> A -> Prop) l :
  (forall x y, R1 x y -> R2 x y) -> StronglySorted R1 l -> StronglySorted R2 l.
Proof.
  intros HR. induction 1 as [|x l _ IH Hx]; constructor; [done|].
  eapply Forall_impl; [exact Hx|]. auto.
Qed.

Lemma slabsort_StronglySorted sort_func l :
  (forall x y, sort_func x y = true -> sort_func y x = false) ->
  (forall x y z, sort_func y x = false -> sort_func z y = false -> sort_func z x = false) ->
  StronglySorted (may_follow sort_func) (slabsort sort_func l).
Proof.
  intros asym trans. apply Sorted_StronglySorted.
  - intros x y z. apply trans.
  - by apply slabsort_Sorted.
Qed.

Lemma string_lt_Gt a b : String.compare a b = Lt <-> String.compare b a = Gt.
Proof.
  rewrite (String.compare_antisym b a). destruct (String.compare a b); simpl; split; congruence.
Qed.

Lemma string_lt_trans a b c :
  String.compare a b = Lt -> String.compare b c = Lt -> String.compare a c = Lt.
Proof.
  intros Hab Hbc.
  exact (@StrictOrder_Transitive _ _ OrdersEx.String_as_OT.lt_strorder a b c Hab Hbc).
Qed.

Lemma sort_name_asym x y : sort_name x y = true -> sort_name y x = false.
Proof.
  unfold sort_name. rewrite (String.compare_antisym (si_name y) (si_name x)).
  by destruct (String.compare (si_name x) (si_name y)).
Qed.

Lemma sort_name_trans x y z :
  sort_name y x = false -> sort_name z y = false -> sort_name z x = false.
Proof.
  unfold sort_name. intros Hyx Hzy.
  destruct (String.compare (si_name y) (si_name x)) eqn:Eyx; [|done|].
  { apply String.compare_eq_iff in Eyx. by rewrite <- Eyx. }
  destruct (String.compare (si_name z) (si_name y)) eqn:Ezy; [|done|].
  { apply String.compare_eq_iff in Ezy. by rewrite Ezy, Eyx. }
  apply string_lt_Gt in Eyx, Ezy.
  pose proof (string_lt_trans _ _ _ Eyx Ezy) as Hxz.
  apply string_lt_Gt in Hxz. by rewrite Hxz.
Qed.

Lemma set_sort_func_cases key :
  set_sort_func key = sort_name \/ set_sort_func key = sort_nr_active_objs \/
  set_sort_func key = sort_obj_size.
Proof.
  unfold set_sort_func.
  destruct (Ascii.eqb key "n"); [by left|].
  destruct (Ascii.eqb key "a"); [by right; left|].
  destruct (Ascii.eqb key "s"); [by right; right|by right; left].
Qed.

Lemma slabsort_perm sort_func (l : list slab_info) :
  slabsort sort_func l ≡ₚ l.
Proof.
  funelim (slabsort sort_func l); [done..|].
  rewrite merge_objs_app, H, H0. by rewrite take_drop.
Qed.

(** X1. [slabsort] only reorders: whatever [sort_func] answers, the sorted
    list is a permutation of the list [get_slabinfo] produced, so no cache is
    lost or processed twice in a cycle. *)
Theorem slabsort_permutation sort_func (l : list slab_info) :
  slabsort sort_func l ≡ₚ l.
Proof. apply slabsort_perm. Qed.

(** X2. Whatever key is given to [--sort], the snapshot is processed in an
    order sorted by the routine [set_sort_func] chose: no cache is followed,
    anywhere later in the list, by a cache that the routine puts before it. *)
Theorem slabsort_set_sort_func key (l : list slab_info) :
  StronglySorted (fun x y => set_sort_func key y x = false)
    (slabsort (set_sort_func key) l).
Proof.
  apply (slabsort_StronglySorted (set_sort_func key) l).
  - destruct (set_sort_func_cases key) as [-> | [-> | ->]].
    + apply sort_name_asym.
    + unfold sort_nr_active_objs. intros x y. rewrite !Z.ltb_lt, Z.ltb_ge. lia.
    + unfold sort_obj_size. intros x y. rewrite !Z.ltb_lt, Z.ltb_ge. lia.
  - destruct (set_sort_func_cases key) as [-> | [-> | ->]].
    + apply sort_name_trans.
    + unfold sort_nr_active_objs. intros x y z. rewrite !Z.ltb_ge. lia.
    + unfold sort_obj_size. intros x y z. rewrite !Z.ltb_ge. lia.
Qed.

(** X3. Sorted by name ([--sort n]) the caches come in ascending [strcmp]
    order; sorted by the default routine or by [--sort a] in descending
    order of active objects; sorted by [--sort s] in descending order of
    object size. *)
Theorem slabsort_orders (l : list slab_info) :
  StronglySorted (fun x y => String.compare (si_name x) (si_name y) <> Gt)
    (slabsort sort_name l) /\
  StronglySorted (fun x y => nr_active_objs y <= nr_active_objs x)
    (slabsort sort_nr_active_objs l) /\
  StronglySorted (fun x y => obj_size y <= obj_size x)
    (slabsort sort_obj_size l).
Proof.
  split; [|split].
  - apply (StronglySorted_mono (may_follow sort_name)).
    + unfold may_follow, sort_name. intros x y Hyx Hgt.
      apply string_lt_Gt in Hgt. by rewrite Hgt in Hyx.
    + apply slabsort_StronglySorted; [apply sort_name_asym|apply sort_name_trans].
  - apply (StronglySorted_mono (may_follow sort_nr_active_objs)).
    + unfold may_follow, sort_nr_active_objs. intros x y. rewrite Z.ltb_ge. lia.
    + apply slabsort_StronglySorted; unfold sort_nr_active_objs.
      * intros x y. rewrite !Z.ltb_lt, Z.ltb_ge. lia.
      * intros x y z. rewrite !Z.ltb_ge. lia.
  - apply (StronglySorted_mono (may_follow sort_obj_size)).
    + unfold may_follow, sort_obj_size. intros x y. rewrite Z.ltb_ge. lia.
    + apply slabsort_StronglySorted; unfold sort_obj_size.
      * intros x y. rewrite !Z.ltb_lt, Z.ltb_ge. lia.
      * intros x y z. rewrite !Z.ltb_ge. lia.
Qed.

Lemma merge_objs_all_false sort_func (a b : list slab_info) :
  (forall x y, x ∈ a -> y ∈ b -> sort_func x y = false) ->
  merge_objs sort_func a b = b ++ a.
Proof.
  destruct a as [|x a]; [by rewrite merge_objs_nil_l, app_nil_r|].
  induction b as [|y b IHb]; intros Hf; [done|].
  rewrite merge_objs_cons, Hf by (constructor).
  simpl. f_equal. apply IHb. intros x' y' Hx Hy. apply Hf; [done|by constructor].
Qed.

(** X4. [merge_objs] takes from the second list whenever [sort_func] does not
    hold, also on a tie: a list in which [sort_func] holds of no two caches
    (all active counts equal, under the default sort) comes out of [slabsort]
    reversed.  The sort is not stable. *)
Theorem slabsort_reverses_ties sort_func (l : list slab_info) :
  (forall x y, x ∈ l -> y ∈ l -> sort_func x y = false) ->
  slabsort sort_func l = reverse l.
Proof.
  funelim (slabsort sort_func l); intros Hf; [done..|].
  set (k := S (advance (y :: rest))) in *.
  set (l := x :: y :: rest) in *.
  assert (forall z, z ∈ take k l -> z ∈ l) as Ht.
  { intros z Hz. rewrite <- (take_drop k l). apply elem_of_app; by left. }
  assert (forall z, z ∈ drop k l -> z ∈ l) as Hd.
  { intros z Hz. rewrite <- (take_drop k l). apply elem_of_app; by right. }
  rewrite H by auto. rewrite H0 by auto.
  rewrite merge_objs_all_false.
  - rewrite <- reverse_app. by rewrite take_drop.
  - intros a b Ha Hb. apply Hf.
    + apply Ht. by apply elem_of_reverse.
    + apply Hd. by apply elem_of_reverse.
Qed.

Lemma slabsort_reverses_ties_witness :
  slabsort sort_nr_active_objs
    [cache "dentry" 7 192; cache "inode_cache" 7 600; cache "kmalloc-64" 7 64] =
  reverse [cache "dentry" 7 192; cache "inode_cache" 7 600; cache "kmalloc-64" 7 64].
Proof.
  apply slabsort_reverses_ties.
  intros x y Hx Hy. unfold sort_nr_active_objs.
  apply Z.ltb_ge.
  repeat (apply elem_of_cons in Hx as [->|Hx]); [| | |by apply elem_of_nil in Hx];
  repeat (apply elem_of_cons in Hy as [->|Hy]); try (by apply elem_of_nil in Hy);
  simpl; lia.
Defined.

(** ** One entity per name *)


Lemma searchSLAB_None (reg : list slab_MK) nm :
  searchSLAB reg nm = None <-> nm ∉ name <$> reg.
Proof.
  induction reg as [|mk reg IH]; simpl.
  - split; [intros _; apply not_elem_of_nil|done].
  - rewrite not_elem_of_cons. destruct (String.eqb (name mk) nm) eqn:E.
    + apply String.eqb_eq in E. split; [done|]. intros [? _]. congruence.
    + apply String.eqb_neq in E. destruct (searchSLAB reg nm); simpl.
      * split; [done|]. intros [_ Hn]. apply IH in Hn. done.
      * split; [|done]. intros _. split; [congruence|]. by apply IH.
Qed.

Lemma searchSLAB_Some (reg : list slab_MK) nm (p : nat) :
  searchSLAB reg nm = Some p <->
  (exists mk, reg !! p = Some mk /\ name mk = nm) /\
  forall (q : nat) mk', (q < p)%nat -> reg !! q = Some mk' -> name mk' <> nm.
Proof.
  revert p. induction reg as [|mk reg IH]; intros p; simpl.
  - split; [done|]. intros [(? & ? & _) _]. done.
  - destruct (String.eqb (name mk) nm) eqn:E.
    + apply String.eqb_eq in E. split.
      * intros [= <-]. split; [by exists mk|]. intros; lia.
      * intros [_ Hfirst]. destruct p as [|p]; [done|].
        exfalso. by apply (Hfirst 0%nat mk); [lia|..].
    + apply String.eqb_neq in E. split.
      * destruct (searchSLAB reg nm) as [p'|] eqn:Es; simpl; [|done].
        intros [= <-]. destruct (proj1 (IH p') eq_refl) as [Hat Hfirst]. split; [done|].
        intros [|q] mk' Hq; simpl; [by intros [= <-]|].
        apply Hfirst. lia.
      * intros [(mk0 & Hat & Hnm) Hfirst]. destruct p as [|p].
        { simpl in Hat. congruence. }
        assert (searchSLAB reg nm = Some p) as ->; [|done].
        apply IH. split; [by exists mk0|].
        intros q mk' Hq. apply (Hfirst (S q)). lia.
Qed.

Lemma find_slab_cons mk reg nm :
  find_slab (mk :: reg) nm =
  if String.eqb (name mk) nm then Some mk else find_slab reg nm.
Proof.
  unfold find_slab. simpl. destruct (String.eqb (name mk) nm); [done|].
  by destruct (searchSLAB reg nm).
Qed.

Lemma find_slab_insert (reg : list slab_MK) nm (p : nat) mk nm' :
  searchSLAB reg nm = Some p -> name mk = nm ->
  find_slab (<[p:=mk]> reg) nm' =
  if String.eqb nm nm' then Some mk else find_slab reg nm'.
Proof.
  intros Hs Hnm. revert p Hs. induction reg as [|c reg IH]; intros p Hs; [done|].
  simpl in Hs. destruct (String.eqb (name c) nm) eqn:E.
  - injection Hs as <-. apply String.eqb_eq in E. simpl.
    rewrite !find_slab_cons. rewrite Hnm, E. by destruct (String.eqb nm nm').
  - destruct (searchSLAB reg nm) as [p'|]; [|done]. injection Hs as <-.
    simpl. rewrite !find_slab_cons, (IH p') by done.
    destruct (String.eqb (name c) nm') eqn:E'; [|done].
    apply String.eqb_eq in E'. subst nm'. rewrite String.eqb_sym, E. done.
Qed.

Lemma find_slab_name reg nm mk : find_slab reg nm = Some mk -> name mk = nm.
Proof.
  unfold find_slab. destruct (searchSLAB reg nm) as [p|] eqn:E; [|done].
  apply searchSLAB_Some in E as [(mk' & Hat & Hnm) _]. congruence.
Qed.

Lemma find_slab_elem reg nm mk : find_slab reg nm = Some mk -> mk ∈ reg.
Proof.
  unfold find_slab. destruct (searchSLAB reg nm) as [p|]; [|done].
  intros Hat. apply list_elem_of_lookup. by exists p.
Qed.

Lemma find_slab_None reg nm : find_slab reg nm = None <-> nm ∉ name <$> reg.
Proof.
  rewrite <- searchSLAB_None. unfold find_slab.
  destruct (searchSLAB reg nm) as [p|] eqn:E; [|done].
  apply searchSLAB_Some in E as [(mk' & Hat & Hnm) _]. rewrite Hat. done.
Qed.

Lemma retention_name t c found mk :
  retention t c found = Done mk ->
  name mk = match found with Some old => name old | None => si_name c end.
Proof.
  destruct found as [old|]; simpl; [|by intros [= <-]].
  unfold next_sample.
  destruct (clean MID_TERM _ _ _ _) as [[??]|]; [|done]. cbn [obind].
  destruct (clean SHORT_TERM _ _ _ _) as [[??]|]; [|done]. cbn [obind].
  destruct (deref _ _); [|done]. cbn [obind]. by intros [= <-].
Qed.

Lemma monitor_entity_name t c found mk r :
  monitor_entity t c found = Done (mk, r) ->
  name mk = match found with Some old => name old | None => si_name c end.
Proof. intros H. apply monitor_entity_engine in H as [H _]. by apply retention_name in H. Qed.

(** [monitor_slab] in terms of the entity registered under the name. *)
Lemma monitor_slab_find t c reg :
  monitor_slab t c reg =
  do (mk, r) <- monitor_entity t c (find_slab reg (si_name c));
  Done (match searchSLAB reg (si_name c) with
        | None => mk :: reg
        | Some p => <[p:=mk]> reg
        end, r).
Proof. unfold monitor_slab, find_slab. by destruct (searchSLAB reg (si_name c)). Qed.

Lemma monitor_slab_Done t c reg reg' r :
  monitor_slab t c reg = Done (reg', r) ->
  exists mk, monitor_entity t c (find_slab reg (si_name c)) = Done (mk, r) /\
    name mk = si_name c /\
    forall nm, find_slab reg' nm =
               if String.eqb (si_name c) nm then Some mk else find_slab reg nm.
Proof.
  rewrite monitor_slab_find.
  destruct (monitor_entity t c (find_slab reg (si_name c))) as [[mk r']|] eqn:E; [|done].
  cbn [obind]. intros [= <- <-]. exists mk. split; [done|].
  assert (name mk = si_name c) as Hnm.
  { apply monitor_entity_name in E.
    destruct (find_slab reg (si_name c)) as [old|] eqn:Ef; [|done].
    apply find_slab_name in Ef. congruence. }
  split; [done|]. intros nm.
  destruct (searchSLAB reg (si_name c)) as [p|] eqn:Es.
  - by apply find_slab_insert.
  - by rewrite find_slab_cons, Hnm.
Qed.

Lemma Forall2_elem_impl {A B} (P Q : A -> B -> Prop) l k :
  Forall2 P l k -> (forall x y, x ∈ l -> P x y -> Q x y) -> Forall2 Q l k.
Proof.
  induction 1 as [|x y l k Hxy _ IH]; intros HPQ; constructor.
  - apply HPQ; [by constructor|done].
  - apply IH. intros x' y' Hx'. apply HPQ. by constructor.
Qed.

Lemma monitor_entities t (slab_list : list slab_info) reg reg' rs :
  NoDup (si_name <$> slab_list) ->
  monitor t slab_list reg = Done (reg', rs) ->
  Forall2 (fun c r => exists mk,
             monitor_entity t c (find_slab reg (si_name c)) = Done (mk, r) /\
             find_slab reg' (si_name c) = Some mk) slab_list rs /\
  forall nm, nm ∉ si_name <$> slab_list -> find_slab reg' nm = find_slab reg nm.
Proof.
  revert reg reg' rs. induction slab_list as [|c rest IH]; intros reg reg' rs Hnd; simpl.
  - intros [= <- <-]. split; [constructor|done].
  - apply NoDup_cons in Hnd as [Hc Hnd].
    destruct (monitor_slab t c reg) as [[reg1 r]|] eqn:E1; [|done]. cbn [obind].
    destruct (monitor t rest reg1) as [[reg2 rs']|] eqn:E2; [|done]. cbn [obind].
    intros [= <- <-].
    apply monitor_slab_Done in E1 as (mk & Hmk & Hnm & Hfind).
    destruct (IH _ _ _ Hnd E2) as [Hall Hrest]. split.
    + constructor.
      * exists mk. split; [done|]. rewrite (Hrest _ Hc), Hfind.
        by rewrite String.eqb_refl.
      * eapply Forall2_elem_impl; [exact Hall|].
        intros c' r' Hc' (mk' & Hmk' & Hf'). exists mk'. split; [|done].
        rewrite Hfind in Hmk'. destruct (String.eqb (si_name c) (si_name c')) eqn:E; [|done].
        apply String.eqb_eq in E. exfalso. apply Hc. rewrite E.
        apply list_elem_of_fmap. by exists c'.
    + intros nm Hn. apply not_elem_of_cons in Hn as [Hne Hn].
      rewrite (Hrest _ Hn), Hfind.
      destruct (String.eqb (si_name c) nm) eqn:E; [|done].
      apply String.eqb_eq in E. done.
Qed.

(** X5. Within a cycle every cache is handled on its own: when the names of
    the snapshot are distinct, the record written for a cache and the state
    its entity is left in are those of [monitor_entity] on the state the
    entity had before the cycle, wherever the cache stands in the list; and
    an entity whose name is not in the snapshot is left as it was. *)
Theorem monitor_per_entity t (slab_list : list slab_info) reg reg' rs :
  NoDup (si_name <$> slab_list) ->
  monitor t slab_list reg = Done (reg', rs) ->
  Forall2 (fun c r => exists mk,
             monitor_entity t c (find_slab reg (si_name c)) = Done (mk, r) /\
             find_slab reg' (si_name c) = Some mk) slab_list rs /\
  forall nm, nm ∉ si_name <$> slab_list -> find_slab reg' nm = find_slab reg nm.
Proof. apply monitor_entities. Qed.

Lemma monitor_per_entity_witness :
  exists reg' rs,
    monitor 0 [cache "dentry" 5 192; cache "inode_cache" 3 600] [] = Done (reg', rs) /\
    Forall2 (fun c r => exists mk,
               monitor_entity 0 c (find_slab [] (si_name c)) = Done (mk, r) /\
               find_slab reg' (si_name c) = Some mk)
      [cache "dentry" 5 192; cache "inode_cache" 3 600] rs /\
    forall nm, nm ∉ si_name <$> [cache "dentry" 5 192; cache "inode_cache" 3 600] ->
               find_slab reg' nm = find_slab [] nm.
Proof.
  eexists _, _. evaluate_run E. split; [exact E|].
  refine (monitor_per_entity _ _ _ _ _ _ E). distinct_names.
Defined.

Lemma monitor_complete t (slab_list : list slab_info) reg :
  NoDup (si_name <$> slab_list) ->
  Forall (fun c => exists mk r,
            monitor_entity t c (find_slab reg (si_name c)) = Done (mk, r)) slab_list ->
  exists reg' rs, monitor t slab_list reg = Done (reg', rs).
Proof.
  revert reg. induction slab_list as [|c rest IH]; intros reg Hnd Hall; simpl.
  - by eexists _, _.
  - apply NoDup_cons in Hnd as [Hc Hnd]. apply Forall_cons in Hall as [(mk & r & Hmk) Hall].
    destruct (monitor_slab t c reg) as [[reg1 r1]|] eqn:E1.
    2:{ rewrite monitor_slab_find, Hmk in E1. done. }
    cbn [obind]. apply monitor_slab_Done in E1 as (mk1 & _ & _ & Hfind).
    destruct (IH reg1 Hnd) as (reg' & rs & ->); [|by eexists _, _].
    apply Forall_forall. intros c' Hc'.
    rewrite Forall_forall in Hall. destruct (Hall c' Hc') as (mk' & r' & Hmk').
    exists mk', r'. rewrite Hfind.
    destruct (String.eqb (si_name c) (si_name c')) eqn:E; [|done].
    apply String.eqb_eq in E. exfalso. apply Hc. rewrite E.
    apply list_elem_of_fmap. by exists c'.
Qed.

Lemma Forall2_functional {A B} (P : A -> B -> Prop) l k1 k2 :
  (forall x y1 y2, P x y1 -> P x y2 -> y1 = y2) ->
  Forall2 P l k1 -> Forall2 P l k2 -> k1 = k2.
Proof.
  intros Hfun H1. revert k2. induction H1 as [|x y l k Hxy _ IH]; intros k2 H2.
  - by inversion H2.
  - inversion H2 as [|x' y' l' k' Hxy' H2']; subst. f_equal; [by eapply Hfun|by apply IH].
Qed.

Lemma Forall2_elem_l {A B} (P : A -> B -> Prop) l k x :
  Forall2 P l k -> x ∈ l -> exists y, P x y.
Proof.
  induction 1 as [|x' y l k Hxy _ IH]; intros Hx.
  - by apply elem_of_nil in Hx.
  - apply elem_of_cons in Hx as [->|Hx]; [by exists y|by apply IH].
Qed.

Lemma monitor_permutation t (l1 l2 : list slab_info) reg reg1 rs1 :
  NoDup (si_name <$> l1) -> l1 ≡ₚ l2 ->
  monitor t l1 reg = Done (reg1, rs1) ->
  exists reg2 rs2, monitor t l2 reg = Done (reg2, rs2) /\ rs1 ≡ₚ rs2 /\
    forall nm, find_slab reg1 nm = find_slab reg2 nm.
Proof.
  intros Hnd1 Hperm E1.
  assert (NoDup (si_name <$> l2)) as Hnd2 by (by rewrite <- Hperm).
  destruct (monitor_entities _ _ _ _ _ Hnd1 E1) as [Hall1 Hrest1].
  destruct (monitor_complete t l2 reg Hnd2) as (reg2 & rs2 & E2).
  { apply Forall_forall. intros c Hc. rewrite <- Hperm in Hc.
    destruct (Forall2_elem_l _ _ _ _ Hall1 Hc) as (r & mk & Hmk & _). by exists mk, r. }
  exists reg2, rs2. split; [done|].
  destruct (monitor_entities _ _ _ _ _ Hnd2 E2) as [Hall2 Hrest2]. split.
  - set (Q := fun c r => exists mk,
                monitor_entity t c (find_slab reg (si_name c)) = Done (mk, r)).
    assert (Forall2 Q l1 rs1) as HQ1.
    { eapply Forall2_impl; [exact Hall1|]. intros c r (mk & ? & _). by exists mk. }
    assert (Forall2 Q l2 rs2) as HQ2.
    { eapply Forall2_impl; [exact Hall2|]. intros c r (mk & ? & _). by exists mk. }
    destruct (Permutation_Forall2 Hperm HQ1) as (rs' & Hp & HQ').
    rewrite Hp. replace rs2 with rs'; [done|].
    eapply Forall2_functional; [|exact HQ'|exact HQ2].
    intros c r r' (mk & Hr) (mk' & Hr'). congruence.
  - intros nm. destruct (decide (nm ∈ si_name <$> l1)) as [Hin|Hout].
    + apply list_elem_of_fmap in Hin as (c & -> & Hc).
      destruct (Forall2_elem_l _ _ _ _ Hall1 Hc) as (r & mk & Hmk & ->).
      rewrite Hperm in Hc.
      destruct (Forall2_elem_l _ _ _ _ Hall2 Hc) as (r' & mk' & Hmk' & ->).
      congruence.
    + rewrite (Hrest1 _ Hout). rewrite Hperm in Hout. by rewrite (Hrest2 _ Hout).
Qed.

(** X6. The sort criterion changes the order of the log lines and nothing
    else: on a snapshot with distinct names, if the cycle completes under one
    [sort_func] it completes under any other, writes the same records up to
    their order, and leaves every entity in the same state. *)
Theorem monitor_sort_irrelevant sort_func1 sort_func2 t (raw : list slab_info)
    reg reg1 rs1 :
  NoDup (si_name <$> raw) ->
  monitor t (slabsort sort_func1 raw) reg = Done (reg1, rs1) ->
  exists reg2 rs2,
    monitor t (slabsort sort_func2 raw) reg = Done (reg2, rs2) /\
    rs1 ≡ₚ rs2 /\
    forall nm, find_slab reg1 nm = find_slab reg2 nm.
Proof.
  intros Hnd. apply monitor_permutation.
  - by rewrite slabsort_perm.
  - by rewrite !slabsort_perm.
Qed.

Lemma monitor_sort_irrelevant_witness :
  exists reg1 rs1,
    monitor 0 (slabsort sort_name
                 [cache "inode_cache" 3 600; cache "dentry" 5 192]) [] = Done (reg1, rs1) /\
    exists reg2 rs2,
      monitor 0 (slabsort sort_obj_size
                   [cache "inode_cache" 3 600; cache "dentry" 5 192]) [] = Done (reg2, rs2) /\
      rs1 ≡ₚ rs2 /\
      forall nm, find_slab reg1 nm = find_slab reg2 nm.
Proof.
  eexists _, _. evaluate_run E. split; [exact E|].
  refine (monitor_sort_irrelevant sort_name sort_obj_size _ _ _ _ _ _ E).
  distinct_names.
Defined.

Lemma monitor_slab_names t c reg reg' r :
  monitor_slab t c reg = Done (reg', r) ->
  (si_name c ∈ name <$> reg /\ name <$> reg' = name <$> reg) \/
  ((si_name c ∉ name <$> reg) /\ name <$> reg' = si_name c :: (name <$> reg)).
Proof.
  rewrite monitor_slab_find.
  destruct (monitor_entity t c (find_slab reg (si_name c))) as [[mk r']|] eqn:Em; [|done].
  cbn [obind]. apply monitor_entity_name in Em. unfold find_slab in Em.
  destruct (searchSLAB reg (si_name c)) as [p|] eqn:Es; intros [= <- <-].
  - left. apply searchSLAB_Some in Es as [(old & Hat & Hold) _].
    rewrite Hat in Em. split.
    + apply list_elem_of_fmap. exists old. split; [done|]. by eapply list_elem_of_lookup_2.
    + rewrite list_fmap_insert. apply list_insert_id.
      rewrite list_lookup_fmap, Hat. simpl. by f_equal.
  - right. split; [by apply searchSLAB_None|]. simpl. by f_equal.
Qed.

Lemma monitor_names t (slab_list : list slab_info) reg reg' rs :
  NoDup (name <$> reg) ->
  monitor t slab_list reg = Done (reg', rs) ->
  NoDup (name <$> reg') /\
  forall nm, nm ∈ name <$> reg' <-> nm ∈ name <$> reg \/ nm ∈ si_name <$> slab_list.
Proof.
  revert reg reg' rs. induction slab_list as [|c rest IH]; intros reg reg' rs Hnd; simpl.
  - intros [= <- <-]. split; [done|]. intros nm. rewrite elem_of_nil. tauto.
  - destruct (monitor_slab t c reg) as [[reg1 r]|] eqn:E1; [|done]. cbn [obind].
    destruct (monitor t rest reg1) as [[reg2 rs']|] eqn:E2; [|done]. cbn [obind].
    intros [= <- <-].
    apply monitor_slab_names in E1.
    assert (NoDup (name <$> reg1) /\
            forall nm, nm ∈ name <$> reg1 <-> nm ∈ name <$> reg \/ nm = si_name c)
      as [Hnd1 Hin1].
    { destruct E1 as [[Hin ->]|[Hout ->]].
      - split; [done|]. intros nm. split; [tauto|]. intros [?| ->]; done.
      - split; [by apply NoDup_cons|]. intros nm. rewrite elem_of_cons. tauto. }
    destruct (IH _ _ _ Hnd1 E2) as [Hnd2 Hin2]. split; [done|].
    intros nm. rewrite Hin2, Hin1, elem_of_cons. tauto.
Qed.

(** X7. The registry holds one entity per name: however the cycles go, no two
    entities of the registry share a name, and the names registered are
    exactly the names that some snapshot reported.  Nothing is ever taken
    out of the registry. *)
Theorem daemon_registry_names delay i (snapshots : list (list slab_info)) reg reg' :
  NoDup (name <$> reg) ->
  daemon delay i snapshots reg = Done reg' ->
  NoDup (name <$> reg') /\
  forall nm, nm ∈ name <$> reg' <->
             nm ∈ name <$> reg \/
             exists slab_list, slab_list ∈ snapshots /\ nm ∈ si_name <$> slab_list.
Proof.
  revert i reg. induction snapshots as [|sl rest IH]; intros i reg Hnd; simpl.
  - intros [= <-]. split; [done|]. intros nm. split; [tauto|].
    intros [?|(sl & Hsl & _)]; [done|]. by apply elem_of_nil in Hsl.
  - destruct (monitor _ sl reg) as [[reg1 rs]|] eqn:E1; [|done]. cbn [obind].
    intros E2. destruct (monitor_names _ _ _ _ _ Hnd E1) as [Hnd1 Hin1].
    destruct (IH _ _ Hnd1 E2) as [Hnd2 Hin2]. split; [done|].
    intros nm. rewrite Hin2, Hin1. split.
    + intros [[?|?]|(sl' & Hsl' & ?)]; [by left| |].
      * right. exists sl. split; [by constructor|done].
      * right. exists sl'. split; [by constructor|done].
    + intros [?|(sl' & Hsl' & ?)]; [by left; left|].
      apply elem_of_cons in Hsl' as [->|Hsl']; [by left; right|].
      right. by exists sl'.
Qed.

Lemma daemon_registry_names_witness :
  exists reg',
    daemon 300 0 gap_snapshots [] = Done reg' /\
    NoDup (name <$> reg') /\
    forall nm, nm ∈ name <$> reg' <->
               nm ∈ name <$> ([] : list slab_MK) \/
               exists slab_list, slab_list ∈ gap_snapshots /\ nm ∈ si_name <$> slab_list.
Proof.
  eexists. evaluate_run E. split; [exact E|].
  refine (daemon_registry_names _ _ _ _ _ _ E). apply NoDup_nil_2.
Defined.

Lemma engine_header t c mk r :
  engine t c mk = Done r -> log_name r = si_name c /\ log_timestamp r = t.
Proof.
  unfold engine. destruct (scan_outer _ _ _ _ _ _) as [[acc cnt]|]; [|done].
  cbn [obind]. by intros [= <-].
Qed.

Lemma monitor_lines t (slab_list : list slab_info) reg reg' rs :
  monitor t slab_list reg = Done (reg', rs) ->
  log_name <$> rs = si_name <$> slab_list /\
  Forall (fun r => log_timestamp r = t) rs.
Proof.
  revert reg reg' rs. induction slab_list as [|c rest IH]; intros reg reg' rs; simpl.
  - by intros [= <- <-].
  - destruct (monitor_slab t c reg) as [[reg1 r]|] eqn:E1; [|done]. cbn [obind].
    destruct (monitor t rest reg1) as [[reg2 rs']|] eqn:E2; [|done]. cbn [obind].
    intros [= <- <-].
    apply monitor_slab_Done in E1 as (mk & Hmk & _).
    apply monitor_entity_engine in Hmk as [_ Hr]. apply engine_header in Hr as [Hn Ht].
    destruct (IH _ _ _ E2) as [Hns Hts]. split.
    + rewrite !fmap_cons. by f_equal.
    + by constructor.
Qed.

(** X8. A completed cycle writes one record per cache of the sorted snapshot,
    in the order of that list, each under the name of its cache and the time
    of the cycle. *)
Theorem monitor_log_lines t (slab_list : list slab_info) reg reg' rs :
  monitor t slab_list reg = Done (reg', rs) ->
  log_name <$> rs = si_name <$> slab_list /\
  Forall (fun r => log_timestamp r = t) rs.
Proof. apply monitor_lines. Qed.

Lemma monitor_log_lines_witness :
  exists reg' rs,
    monitor 300 [cache "dentry" 5 192; cache "inode_cache" 3 600] [] = Done (reg', rs) /\
    log_name <$> rs = si_name <$> [cache "dentry" 5 192; cache "inode_cache" 3 600] /\
    Forall (fun r => log_timestamp r = 300) rs.
Proof.
  eexists _, _. evaluate_run E. split; [exact E|].
  exact (monitor_log_lines _ _ _ _ _ E).
Defined.

(** ** The series and the counts of an entity *)

(** X9. No sample is ever dropped: after any cycles of an entity its series
    holds one node per cycle that reported it, in the order of the cycles,
    each with the time of its cycle and the value read then, linked to its
    neighbours in both directions; [sValues] points at the newest. *)
Theorem series_keeps_every_sample inputs mk :
  replay None inputs = Done (Some mk) ->
  length (heap mk) = length inputs /\
  sValues mk = Some (pred (length inputs)) /\
  forall (a : nat) tc, inputs !! a = Some tc ->
    heap mk !! a =
    Some {| s_next := match a with O => None | S a' => Some a' end;
            s_prev := if (S a <? length inputs)%nat then Some (S a) else None;
            s_timestamp := tc.1;
            s_value := sample_value tc.2 |}.
Proof.
  intros Hr. pose proof (reach_chained _ _ Hr) as (_ & Hh & Hs). cbn [chained] in *.
  rewrite length_fmap in Hs. split; [by apply reachable_length|]. split; [done|].
  intros a tc Ha. rewrite Hh, lookup_build, list_lookup_fmap, Ha. simpl.
  by rewrite length_fmap.
Qed.

Lemma series_keeps_every_sample_witness :
  exists mk,
    replay None [(0, cache "dentry" 5 192); (300, cache "dentry" 7 192)] = Done (Some mk) /\
    length (heap mk) = 2%nat /\
    sValues mk = Some 1%nat /\
    forall (a : nat) tc,
      [(0, cache "dentry" 5 192); (300, cache "dentry" 7 192)] !! a = Some tc ->
      heap mk !! a =
      Some {| s_next := match a with O => None | S a' => Some a' end;
              s_prev := if (S a <? 2)%nat then Some (S a) else None;
              s_timestamp := tc.1;
              s_value := sample_value tc.2 |}.
Proof.
  eexists. evaluate_run E. split; [exact E|].
  exact (series_keeps_every_sample _ _ E).
Defined.

Lemma stats_of_counter (H : horizon) t mk :
  counter (stats_of H t mk) = long (code_count H t (series mk)).
Proof. done. Qed.

Lemma stats_of_accum (H : horizon) t mk :
  accum (stats_of H t mk) = int (pair_sum (code_term H t) (series mk)).
Proof. done. Qed.

Lemma cycle_stats inputs st t c mk r :
  replay None inputs = Done st ->
  monitor_entity t c st = Done (mk, r) ->
  Chain (reading <$> inputs ++ [(t, c)]) mk /\
  length (heap mk) = S (length inputs) /\
  forall H, stats H r = stats_of H t mk.
Proof.
  intros Hr Hm. pose proof (reach_chained _ _ Hr) as Hc.
  destruct (monitor_entity_Done _ _ _ _ _ _ Hc Hm) as (Hret & _ & Hst).
  pose proof (retention_chained _ _ _ _ _ Hc Hret) as HC.
  rewrite fmap_app. split; [done|]. split; [|done].
  destruct HC as (_ & -> & _). rewrite length_build, length_app, length_fmap.
  apply Nat.add_1_r.
Qed.

Lemma filter_length_mono {A} (f g : A -> bool) l :
  (forall x, f x = true -> g x = true) ->
  (length (List.filter f l) <= length (List.filter g l))%nat.
Proof.
  intros Hfg. induction l as [|x l IH]; simpl; [done|].
  destruct (f x) eqn:Ef.
  - rewrite (Hfg _ Ef). simpl. lia.
  - destruct (g x); simpl; lia.
Qed.

(** X10. The count logged for the total horizon is the number of cycles that
    have reported the cache so far, this one included; the counts of the
    bounded horizons never exceed it, and the short-term count never exceeds
    the mid-term one. *)
Theorem logged_counts inputs st t c mk r :
  replay None inputs = Done st ->
  monitor_entity t c st = Done (mk, r) ->
  cycle_time t ->
  Z.of_nat (length inputs) < 2 ^ 63 - 1 ->
  counter (stats Total r) = Z.of_nat (length inputs) + 1 /\
  0 <= counter (stats Short r) <= counter (stats Mid r) /\
  counter (stats Mid r) <= counter (stats Total r).
Proof.
  intros Hr Hm Ht Hlen. destruct (cycle_stats _ _ _ _ _ _ Hr Hm) as (_ & Hn & _).
  assert (forall H, counter (stats H r) = samples_within H t (heap mk) /\
                    0 <= samples_within H t (heap mk) <= Z.of_nat (length (heap mk)))
    as Hcnt.
  { intros H. destruct (scan_computes_S _ _ _ _ _ _ H Hr Hm Ht) as [_ ->].
    assert (0 <= samples_within H t (heap mk) <= Z.of_nat (length (heap mk))) as Hb.
    { unfold samples_within. pose proof (List.filter_length_le (in_window H t) (heap mk)). lia. }
    split; [|done]. apply long_id. lia. }
  destruct (Hcnt Total) as [-> _], (Hcnt Mid) as [-> Hm'], (Hcnt Short) as [-> Hs'].
  split; [|split].
  - unfold samples_within. replace (List.filter (in_window Total t) (heap mk)) with (heap mk).
    + lia.
    + symmetry. apply forallb_filter_id. by apply forallb_forall.
  - split; [lia|]. unfold samples_within. apply inj_le, filter_length_mono.
    intros x. unfold in_window. simpl. unfold SHORT_TERM, MID_TERM.
    rewrite !Z.leb_le. lia.
  - replace (samples_within Total t (heap mk)) with (Z.of_nat (length (heap mk))); [lia|].
    unfold samples_within. f_equal. f_equal. symmetry.
    apply forallb_filter_id. by apply forallb_forall.
Qed.

Lemma logged_counts_witness :
  exists st mk r,
    replay None [(0, cache "dentry" 5 192)] = Done st /\
    monitor_entity 1000 (cache "dentry" 7 192) st = Done (mk, r) /\
    counter (stats Total r) = Z.of_nat 1 + 1 /\
    0 <= counter (stats Short r) <= counter (stats Mid r) /\
    counter (stats Mid r) <= counter (stats Total r).
Proof.
  eexists _, _, _. evaluate_run E. split; [exact E|].
  evaluate_run E'. split; [exact E'|].
  refine (logged_counts _ _ _ _ _ _ E E' _ _).
  - unfold cycle_time, MID_TERM, INT_MAX. lia.
  - simpl. lia.
Defined.

Lemma pair_sum_zero f l :
  (forall x y, x ∈ l -> y ∈ l -> f x y = 0) -> pair_sum f l = 0.
Proof.
  induction l as [|x l IH]; intros Hf; simpl; [done|].
  rewrite IH by (intros; apply Hf; by constructor).
  assert (forall k, (forall y, y ∈ k -> y ∈ l) ->
                    foldr (fun older acc => f x older + acc) 0 k = 0) as Hk.
  { induction k as [|y k IHk]; intros Hin; simpl; [done|].
    rewrite IHk by (intros; apply Hin; by constructor).
    rewrite Hf; [done|by constructor|]. constructor. apply Hin. by constructor. }
  rewrite Hk by done. done.
Qed.

(** X11. A cache whose size never changed shows no trend: when every sample
    recorded so far has the same value, the cycle logs S = 0, Z = 0 and "NO"
    for every horizon, however many samples there are. *)
Theorem constant_series_no_trend inputs st t c mk r v (H : horizon) :
  replay None inputs = Done st ->
  monitor_entity t c st = Done (mk, r) ->
  Forall (fun tc => sample_value tc.2 = v) (inputs ++ [(t, c)]) ->
  accum (stats H r) = 0 /\ z (stats H r) = dzero /\ trend (stats H r) = "NO".
Proof.
  intros Hr Hm Hv. destruct (cycle_stats _ _ _ _ _ _ Hr Hm) as (HC & _ & Hst).
  rewrite Hst. assert (accum (stats_of H t mk) = 0) as Ha.
  { rewrite stats_of_accum, pair_sum_zero; [done|].
    assert (forall x, x ∈ series mk -> s_value x = v) as Hall.
    { intros x Hx. apply (list_elem_of_fmap_2 s_value) in Hx.
      rewrite (series_values _ _ HC), elem_of_reverse in Hx.
      apply list_elem_of_fmap in Hx as ([t' v'] & -> & Hx).
      apply list_elem_of_fmap in Hx as (tc & [= -> ->] & Hx).
      rewrite Forall_forall in Hv. by apply Hv. }
    intros x y Hx Hy. unfold code_term. rewrite (Hall x Hx), (Hall y Hy), Z.sub_diag.
    by destruct (_ && _). }
  split; [done|]. revert Ha. unfold stats_of.
  generalize (int (pair_sum (code_term H t) (series mk))) as a.
  generalize (long (code_count H t (series mk))) as n.
  intros n a. unfold evaluate. cbn [accum z trend]. intros ->.
  destruct (1 <? n); by vm_compute.
Qed.

Lemma constant_series_no_trend_witness :
  exists st mk r,
    replay None [(0, cache "dentry" 5 192); (300, cache "dentry" 5 192)] = Done st /\
    monitor_entity 600 (cache "dentry" 5 192) st = Done (mk, r) /\
    accum (stats Short r) = 0 /\ z (stats Short r) = dzero /\ trend (stats Short r) = "NO".
Proof.
  eexists _, _, _. evaluate_run E. split; [exact E|].
  evaluate_run E'. split; [exact E'|].
  refine (constant_series_no_trend _ _ _ _ _ _ 960 Short E E' _).
  repeat constructor.
Defined.

Lemma pair_sum_bound f l :
  (forall x y, -1 <= f x y <= 1) ->
  - (Z.of_nat (length l) * (Z.of_nat (length l) - 1)) <= 2 * pair_sum f l
    <= Z.of_nat (length l) * (Z.of_nat (length l) - 1).
Proof.
  intros Hf. induction l as [|x l IH]; [simpl; lia|].
  cbn [pair_sum]. rewrite length_cons.
  assert (forall k, - Z.of_nat (length k)
                    <= foldr (fun older acc => f x older + acc) 0 k
                    <= Z.of_nat (length k)) as Hk.
  { induction k as [|y k IHk]; simpl length; simpl foldr; [lia|].
    specialize (Hf x y). lia. }
  specialize (Hk l). nia.
Qed.

(** X12. Below 65537 samples the trend statistic is exact: the S logged for a
    horizon is the Mann-Kendall pair sum over the samples within its window,
    with no wrap-around of the [int] accumulator. *)
Theorem S_exact_below_65537 inputs st t c mk r (H : horizon) :
  replay None inputs = Done st ->
  monitor_entity t c st = Done (mk, r) ->
  cycle_time t ->
  Z.of_nat (length inputs) < 65536 ->
  accum (stats H r) = mk_S H t (series mk) /\
  - (Z.of_nat (length (heap mk)) * (Z.of_nat (length (heap mk)) - 1))
    <= 2 * accum (stats H r)
    <= Z.of_nat (length (heap mk)) * (Z.of_nat (length (heap mk)) - 1).
Proof.
  intros Hr Hm Ht Hlen. destruct (cycle_stats _ _ _ _ _ _ Hr Hm) as (_ & Hn & _).
  destruct (scan_computes_S _ _ _ _ _ _ H Hr Hm Ht) as [-> _].
  assert (- (Z.of_nat (length (heap mk)) * (Z.of_nat (length (heap mk)) - 1))
          <= 2 * mk_S H t (series mk)
          <= Z.of_nat (length (heap mk)) * (Z.of_nat (length (heap mk)) - 1)) as Hb.
  { replace (length (heap mk)) with (length (series mk))
      by (unfold series; apply length_reverse).
    apply pair_sum_bound. intros x y.
    destruct (_ && _); [|lia]. pose proof (Z.sgn_spec (s_value x - s_value y)). lia. }
  rewrite int_id; [done|]. unfold INT_MAX.
  assert (Z.of_nat (length (heap mk)) <= 65536) as Hle by lia.
  assert (0 <= Z.of_nat (length (heap mk))) as Hge by lia.
  revert Hb Hle Hge. generalize (Z.of_nat (length (heap mk))) as n.
  generalize (mk_S H t (series mk)) as S. intros S n Hb Hle Hge.
  assert (n * (n - 1) <= 65536 * 65535) by nia. lia.
Qed.

Lemma S_exact_below_65537_witness :
  exists st mk r,
    replay None [(0, cache "dentry" 5 192); (300, cache "dentry" 7 192)] = Done st /\
    monitor_entity 600 (cache "dentry" 9 192) st = Done (mk, r) /\
    accum (stats Total r) = mk_S Total 600 (series mk) /\
    - (Z.of_nat (length (heap mk)) * (Z.of_nat (length (heap mk)) - 1))
      <= 2 * accum (stats Total r)
      <= Z.of_nat (length (heap mk)) * (Z.of_nat (length (heap mk)) - 1).
Proof.
  eexists _, _, _. evaluate_run E. split; [exact E|].
  evaluate_run E'. split; [exact E'|].
  refine (S_exact_below_65537 _ _ _ _ _ _ Total E E' _ _).
  - unfold cycle_time, MID_TERM, INT_MAX. lia.
  - simpl. lia.
Defined.

Lemma tie_term_exact t :
  0 <= t < 1024 -> tie_term t = t * (t - 1) * (2 * t + 5).
Proof.
  intros Ht. unfold tie_term. apply int_id. unfold INT_MAX.
  assert (0 <= t * (t - 1) <= 1023 * 1022) by nia.
  assert (0 < 2 * t + 5 <= 2051) by lia. nia.
Qed.

(** X13. Below 1024 samples no tie term wraps: for every bucket of every
    histogram of an entity, [tie_term] is the product
    [tied*(tied-1)*(2*tied+5)] itself. *)
Theorem tie_term_exact_below_1024 mk (H : horizon) b :
  reachable mk ->
  Z.of_nat (length (heap mk)) < 1024 ->
  b ∈ histogram H mk ->
  tie_term (tied b) = tied b * (tied b - 1) * (2 * tied b + 5).
Proof.
  intros Hr Hlen Hb. apply tie_term_exact.
  destruct (reachable_tied mk H b Hr) as (Hge & k & Hk & ->); [unfold INT_MAX; lia|done|].
  pose proof (occ_bounds (b_value b) (drop k (s_value <$> heap mk))) as Ho.
  rewrite length_drop, length_fmap in Ho. lia.
Qed.

Lemma tie_term_exact_below_1024_witness :
  exists mk,
    replay None [(0, cache "dentry" 5 192); (300, cache "dentry" 5 192)] = Done (Some mk) /\
    let b := {| b_value := 960; tied := 2 |} in
    tie_term (tied b) = tied b * (tied b - 1) * (2 * tied b + 5).
Proof.
  eexists. evaluate_run E. split; [exact E|].
  refine (tie_term_exact_below_1024 _ Total _ (ex_intro _ _ E) _ _).
  - simpl. lia.
  - simpl. apply list_elem_of_singleton. reflexivity.
Defined.

(** X14. The histogram of the total horizon counts every sample of the
    entity, and no histogram is ever empty or counts more samples than the
    series holds: the newest sample is counted in all three. *)
Theorem histogram_sums mk (H : horizon) :
  reachable mk ->
  Z.of_nat (length (heap mk)) <= INT_MAX ->
  sum_tied (histogram Total mk) = Z.of_nat (length (heap mk)) /\
  1 <= sum_tied (histogram H mk) <= Z.of_nat (length (heap mk)).
Proof.
  intros [inputs Hr] Hlen. rewrite (reachable_length _ _ Hr) in *.
  pose proof (reach_invariant _ _ Hr Hlen) as HI. cbn [invariant] in HI.
  assert (inputs <> []) as Hne.
  { intros ->. simpl in Hr. done. }
  assert (0 < Z.of_nat (length inputs)) as Hpos.
  { destruct inputs; [done|]. simpl. lia. }
  pose proof HI as (_ & Htot & _).
  apply counts_sum in Htot. rewrite !length_fmap in Htot. split; [done|].
  destruct H.
  - simpl. lia.
  - destruct (Inv_horizon _ _ Mid MID_TERM HI eq_refl) as (k & Hk & Hc).
    apply counts_sum in Hc. rewrite length_drop, !length_fmap in Hc.
    rewrite length_fmap in Hk. rewrite Hc. destruct Hk as [[_ ?]|[_ ?]]; lia.
  - destruct (Inv_horizon _ _ Short SHORT_TERM HI eq_refl) as (k & Hk & Hc).
    apply counts_sum in Hc. rewrite length_drop, !length_fmap in Hc.
    rewrite length_fmap in Hk. rewrite Hc. destruct Hk as [[_ ?]|[_ ?]]; lia.
Qed.

Lemma histogram_sums_witness :
  exists mk,
    replay None [(0, cache "dentry" 5 192); (1000, cache "dentry" 7 192)] = Done (Some mk) /\
    sum_tied (histogram Total mk) = Z.of_nat (length (heap mk)) /\
    1 <= sum_tied (histogram Short mk) <= Z.of_nat (length (heap mk)).
Proof.
  eexists. evaluate_run E. split; [exact E|].
  refine (histogram_sums _ Short (ex_intro _ _ E) _).
  simpl. unfold INT_MAX. lia.
Defined.

(** ** When a cycle faults *)

Lemma reachable_Inv mk :
  reachable mk -> Z.of_nat (length (heap mk)) <= INT_MAX ->
  exists samples, Inv samples mk /\ length samples = length (heap mk).
Proof.
  intros [inputs Hr] Hlen. rewrite (reachable_length _ _ Hr) in *.
  pose proof (reach_invariant _ _ Hr Hlen) as HI. cbn [invariant] in HI.
  exists (reading <$> inputs). by rewrite length_fmap.
Qed.

Lemma entity_cycle_cases mk t c :
  reachable mk -> Z.of_nat (length (heap mk)) <= INT_MAX ->
  (boundary Mid mk = None \/ boundary Short mk = None ->
   monitor_entity t c (Some mk) = Crash NullDeref) /\
  (boundary Mid mk <> None -> boundary Short mk <> None ->
   exists mk' r, monitor_entity t c (Some mk) = Done (mk', r)).
Proof.
  intros Hr Hlen. destruct (reachable_Inv _ Hr Hlen) as (samples & HI & Hn).
  pose proof (Inv_Chain _ _ HI) as HC. pose proof HC as (_ & Hh & _).
  destruct (Inv_horizon _ _ Mid MID_TERM HI eq_refl) as (rm & Hrm & _).
  destruct (Inv_horizon _ _ Short SHORT_TERM HI eq_refl) as (rs & Hrs & _).
  simpl in Hrm, Hrs. split.
  - intros Hnull. unfold monitor_entity. cbn [retention]. unfold next_sample.
    simpl in Hnull.
    destruct (lastMID_TERM mk) as [am|] eqn:Em; [|done].
    destruct Hnull as [Hnull|Hnull]; [done|].
    destruct (retired_Some _ _ _ _ Hrm eq_refl) as [-> Hlt].
    destruct (clean_succeeds MID_TERM t samples rm (tiedbucketsMID_TERM mk) Hlt)
      as ([l b] & Hcl).
    rewrite Hh, Hcl. cbn [obind]. by rewrite Hnull.
  - intros Hm Hs. simpl in Hm, Hs.
    destruct (lastMID_TERM mk) as [am|] eqn:Em; [|done].
    destruct (lastSHORT_TERM mk) as [ash|] eqn:Es; [|done].
    destruct (retired_Some _ _ _ _ Hrm eq_refl) as [-> Hltm].
    destruct (retired_Some _ _ _ _ Hrs eq_refl) as [-> Hlts].
    destruct (next_sample_succeeds samples mk t c rm rs HC Em Hltm Es Hlts) as (mk' & Hnext).
    pose proof (next_sample_Chain _ _ _ _ _ HC Hnext) as HC'.
    destruct (engine_Chain _ _ t c HC') as (r & Hr' & _).
    exists mk', r. unfold monitor_entity. cbn [retention]. rewrite Hnext. cbn [obind].
    by rewrite Hr'.
Qed.

(** X15. The only fault of a cycle is the NULL boundary: for an entity in any
    state the daemon can reach, the next cycle that reports it dereferences
    NULL when the boundary pointer of the mid-term or of the short-term
    horizon is NULL, and completes otherwise; the scan loops and the
    histogram searches never fault. *)
Theorem cycle_faults_iff_boundary_null mk t c :
  reachable mk ->
  Z.of_nat (length (heap mk)) <= INT_MAX ->
  (boundary Mid mk = None \/ boundary Short mk = None ->
   monitor_entity t c (Some mk) = Crash NullDeref) /\
  (boundary Mid mk <> None -> boundary Short mk <> None ->
   exists mk' r, monitor_entity t c (Some mk) = Done (mk', r)).
Proof. apply entity_cycle_cases. Qed.

Lemma cycle_faults_iff_boundary_null_witness :
  exists mk,
    replay None [(0, cache "dentry" 5 192); (1000, cache "dentry" 7 192)] = Done (Some mk) /\
    (boundary Mid mk = None \/ boundary Short mk = None ->
     monitor_entity 2000 (cache "dentry" 9 192) (Some mk) = Crash NullDeref) /\
    (boundary Mid mk <> None -> boundary Short mk <> None ->
     exists mk' r, monitor_entity 2000 (cache "dentry" 9 192) (Some mk) = Done (mk', r)).
Proof.
  eexists. evaluate_run E. split; [exact E|].
  refine (cycle_faults_iff_boundary_null _ _ _ (ex_intro _ _ E) _).
  simpl. unfold INT_MAX. lia.
Defined.

Lemma first_cycle_Done t c :
  exists r, monitor_entity t c None = Done (first_sample t c, r).
Proof.
  destruct (engine_Chain _ _ t c (Chain_first t c)) as (r & Hr & _).
  exists r. unfold monitor_entity. cbn [retention obind]. by rewrite Hr.
Qed.

Lemma third_report_faults t0 d t2 c0 c1 c2 mk0 r0 mk1 r1 :
  SHORT_TERM < d -> cycle_time (t0 + d) ->
  monitor_entity t0 c0 None = Done (mk0, r0) ->
  monitor_entity (t0 + d) c1 (Some mk0) = Done (mk1, r1) ->
  monitor_entity t2 c2 (Some mk1) = Crash NullDeref.
Proof.
  intros Hd Ht E0 E1.
  assert (replay None [(t0, c0); (t0 + d, c1)] = Done (Some mk1)) as Hr.
  { cbn [replay]. rewrite E0. cbn [obind]. by rewrite E1. }
  apply entity_cycle_cases.
  - by eexists.
  - rewrite (reachable_length _ _ Hr). simpl. unfold INT_MAX. lia.
  - right. apply monitor_entity_engine in E0 as [E0 _], E1 as [E1 _].
    simpl in E0, E1. injection E0 as <-.
    by destruct (second_cycle Short SHORT_TERM t0 d c0 c1 mk1 eq_refl Hd Ht E1).
Qed.

Lemma retention_length t c found mk :
  retention t c found = Done mk ->
  length (heap mk) = S (match found with Some old => length (heap old) | None => 0 end).
Proof.
  destruct found as [old|]; simpl; [|by intros [= <-]].
  unfold next_sample.
  destruct (clean MID_TERM _ _ _ _) as [[??]|]; [|done]. cbn [obind].
  destruct (clean SHORT_TERM _ _ _ _) as [[??]|]; [|done]. cbn [obind].
  destruct (deref _ _); [|done]. cbn [obind]. intros [= <-]. cbn [heap].
  rewrite length_app. simpl. destruct (sValues old); [rewrite length_alter|]; lia.
Qed.

Lemma elem_of_insert_inv {A} (l : list A) (p : nat) x y :
  y ∈ <[p:=x]> l -> y = x \/ y ∈ l.
Proof.
  intros Hy. apply list_elem_of_lookup in Hy as [q Hq].
  destruct (decide (p = q)) as [->|Hne].
  - left. destruct (decide (q < length l)%nat).
    + rewrite list_lookup_insert_eq in Hq by done. congruence.
    + rewrite lookup_ge_None_2 in Hq; [done|]. rewrite length_insert. lia.
  - right. rewrite list_lookup_insert_ne in Hq by done. by eapply list_elem_of_lookup_2.
Qed.

(** What [monitor_slab] leaves in the registry: the entities that were
    there, and the one it updated or created. *)
Lemma monitor_slab_elem t c reg reg' r mk' :
  monitor_slab t c reg = Done (reg', r) -> mk' ∈ reg' ->
  mk' ∈ reg \/
  exists found, monitor_entity t c found = Done (mk', r) /\
                match found with Some old => old ∈ reg | None => True end.
Proof.
  rewrite monitor_slab_find.
  destruct (monitor_entity t c (find_slab reg (si_name c))) as [[mk r']|] eqn:Em; [|done].
  cbn [obind]. intros [= <- <-] Hin.
  assert (mk' = mk \/ mk' ∈ reg) as [->|?]; [|right|by left].
  { destruct (searchSLAB reg (si_name c)).
    - by apply elem_of_insert_inv in Hin.
    - by apply elem_of_cons in Hin. }
  exists (find_slab reg (si_name c)). split; [done|].
  destruct (find_slab reg (si_name c)) eqn:Ef; [|done]. by eapply find_slab_elem.
Qed.


Lemma monitor_roomy t (slab_list : list slab_info) k reg reg' rs :
  roomy (length slab_list + k) reg ->
  monitor t slab_list reg = Done (reg', rs) -> roomy k reg'.
Proof.
  revert reg reg' rs. induction slab_list as [|c rest IH]; intros reg reg' rs Hroom; simpl.
  - by intros [= <- <-].
  - destruct (monitor_slab t c reg) as [[reg1 r]|] eqn:E1; [|done]. cbn [obind].
    destruct (monitor t rest reg1) as [[reg2 rs']|] eqn:E2; [|done]. cbn [obind].
    intros [= <- <-]. apply (IH reg1 reg2 rs'); [|done].
    destruct Hroom as [Hk Hroom]. split; [simpl in Hk; lia|].
    rewrite Forall_forall in Hroom. apply Forall_forall. intros mk' Hin.
    destruct (monitor_slab_elem _ _ _ _ _ _ E1 Hin) as [Hold|(found & Hm & Hfound)].
    + specialize (Hroom _ Hold). simpl in Hroom. lia.
    + apply monitor_entity_engine in Hm as [Hret _]. apply retention_length in Hret.
      rewrite Hret. destruct found as [old|].
      * specialize (Hroom _ Hfound). simpl in Hroom. lia.
      * simpl in Hk. lia.
Qed.

Lemma monitor_entity_fault mk t c f :
  reachable mk -> Z.of_nat (length (heap mk)) <= INT_MAX ->
  monitor_entity t c (Some mk) = Crash f -> f = NullDeref.
Proof.
  intros Hr Hlen Hf. destruct (entity_cycle_cases mk t c Hr Hlen) as [Hnull Hok].
  destruct (boundary Mid mk) eqn:Em.
  - destruct (boundary Short mk) eqn:Es.
    + destruct Hok as (mk' & r & Hd); [done..|]. congruence.
    + rewrite Hnull in Hf by (by right). congruence.
  - rewrite Hnull in Hf by (by left). congruence.
Qed.

Lemma monitor_fault t (slab_list : list slab_info) k reg f :
  Forall reachable reg -> roomy (length slab_list + k) reg ->
  monitor t slab_list reg = Crash f -> f = NullDeref.
Proof.
  revert reg. induction slab_list as [|c rest IH]; intros reg Hreach Hroom; simpl; [done|].
  destruct (monitor_slab t c reg) as [[reg1 r]|f1] eqn:E1; cbn [obind].
  - destruct (monitor t rest reg1) as [[reg2 rs']|f2] eqn:E2; cbn [obind]; [done|].
    intros [= <-]. apply (IH reg1); [| |done].
    + by eapply monitor_slab_reachable.
    + apply (monitor_roomy t [c] (length rest + k) reg reg1 [r]); [done|].
      simpl. by rewrite E1.
  - intros [= <-]. rewrite monitor_slab_find in E1.
    destruct (monitor_entity t c (find_slab reg (si_name c))) as [[mk r]|f'] eqn:Em; [done|].
    cbn [obind] in E1. injection E1 as <-.
    destruct (find_slab reg (si_name c)) as [old|] eqn:Ef.
    + apply find_slab_elem in Ef. eapply monitor_entity_fault; [| |exact Em].
      * by apply (proj1 (Forall_forall _ _) Hreach).
      * destruct Hroom as [_ Hroom]. rewrite Forall_forall in Hroom.
        specialize (Hroom _ Ef). lia.
    + destruct (first_cycle_Done t c) as (r & Hr). congruence.
Qed.

(** X16. Whatever the snapshots and the delay, the daemon never follows a
    dangling pointer and none of its loops runs on for ever: if a run
    faults, the fault is the dereference of a NULL boundary pointer. *)
Theorem daemon_fault_is_null_deref delay i (snapshots : list (list slab_info)) f :
  Z.of_nat (length (concat snapshots)) <= INT_MAX ->
  daemon delay i snapshots [] = Crash f ->
  f = NullDeref.
Proof.
  intros Hlen. assert (Forall reachable []) as Hreach by constructor.
  assert (roomy (length (concat snapshots)) []) as Hroom by (by split).
  revert Hreach Hroom. clear Hlen. generalize (@nil slab_MK) as reg. revert i.
  induction snapshots as [|sl rest IH]; intros i reg Hreach Hroom; simpl; [done|].
  simpl in Hroom. rewrite length_app in Hroom.
  destruct (monitor _ sl reg) as [[reg1 rs]|f1] eqn:E1; cbn [obind].
  - apply IH.
    + by eapply monitor_reachable.
    + by eapply monitor_roomy.
  - intros [= <-]. by eapply monitor_fault.
Qed.

Lemma daemon_fault_is_null_deref_witness :
  exists f,
    daemon 1000 0 (slow_snapshots 3) [] = Crash f /\ f = NullDeref.
Proof.
  eexists.
  assert (daemon 1000 0 (slow_snapshots 3) [] = Crash NullDeref) as E
    by (vm_compute; reflexivity).
  split; [exact E|].
  refine (daemon_fault_is_null_deref _ _ _ _ _ E). vm_compute. discriminate.
Defined.

Lemma monitor_entity_of t (slab_list : list slab_info) reg reg' rs nm :
  NoDup (si_name <$> slab_list) ->
  monitor t slab_list reg = Done (reg', rs) ->
  nm ∈ si_name <$> slab_list ->
  exists c mk r, si_name c = nm /\
    monitor_entity t c (find_slab reg nm) = Done (mk, r) /\
    find_slab reg' nm = Some mk.
Proof.
  intros Hnd E Hin. destruct (monitor_entities _ _ _ _ _ Hnd E) as [Hall _].
  apply list_elem_of_fmap in Hin as (c & -> & Hc).
  destruct (Forall2_elem_l _ _ _ _ Hall Hc) as (r & mk & Hm & Hf).
  by exists c, mk, r.
Qed.

(** ** A steady set of caches *)


Lemma steady_entity d j cs c st :
  0 <= d <= SHORT_TERM ->
  d * Z.of_nat j <= INT_MAX -> Z.of_nat (S j) <= INT_MAX ->
  length cs = j ->
  replay None (periodic 0 d cs) = Done st ->
  exists mk r,
    monitor_entity (d * Z.of_nat j) c st = Done (mk, r) /\
    replay None (periodic 0 d (cs ++ [c])) = Done (Some mk).
Proof.
  intros Hd Ht Hj Hlen Hr.
  destruct (periodic_runs_nonempty 0 d (cs ++ [c])) as (mk & Hmk).
  - by destruct cs.
  - done.
  - unfold cycle_time, MID_TERM, INT_MAX. lia.
  - rewrite length_app, Hlen. simpl. lia.
  - rewrite length_app, Hlen. simpl. lia.
  - pose proof Hmk as Hmk'.
    rewrite periodic_app, periodic_single, Hlen, Z.add_0_l in Hmk'.
    apply last_cycle in Hmk' as (st' & r & Hst' & Hm & _).
    assert (st' = st) as -> by congruence.
    by exists mk, r.
Qed.

Lemma steady_cycle d j (names : list string) (slab_list : list slab_info) reg :
  0 <= d <= SHORT_TERM ->
  d * Z.of_nat j <= INT_MAX -> Z.of_nat (S j) <= INT_MAX ->
  NoDup (si_name <$> slab_list) ->
  (forall nm, nm ∈ si_name <$> slab_list <-> nm ∈ names) ->
  steady d j names reg ->
  exists reg' rs,
    monitor (d * Z.of_nat j) slab_list reg = Done (reg', rs) /\
    steady d (S j) names reg'.
Proof.
  intros Hd Ht Hj Hnd Hnames Hsteady.
  destruct (monitor_complete (d * Z.of_nat j) slab_list reg Hnd) as (reg' & rs & E).
  { apply Forall_forall. intros c Hc.
    destruct (Hsteady (si_name c)) as (cs & Hlen & _ & Hr).
    { apply Hnames. by apply list_elem_of_fmap_2. }
    destruct (steady_entity d j cs c _ Hd Ht Hj Hlen Hr) as (mk & r & Hm & _).
    by exists mk, r. }
  exists reg', rs. split; [done|]. intros nm Hnm.
  apply Hnames in Hnm as Hin.
  destruct (monitor_entity_of _ _ _ _ _ _ Hnd E Hin) as (c & mk & r & Hc & Hm & Hf).
  destruct (Hsteady nm Hnm) as (cs & Hlen & Hcs & Hr).
  destruct (steady_entity d j cs c _ Hd Ht Hj Hlen Hr) as (mk' & r' & Hm' & Hr').
  exists (cs ++ [c]). split; [|split].
  - rewrite length_app, Hlen. simpl. lia.
  - apply Forall_app. split; [done|]. by constructor.
  - rewrite Hf, Hr'. congruence.
Qed.

Lemma steady_run d (names : list string) (snapshots : list (list slab_info)) j reg :
  0 <= d <= SHORT_TERM ->
  d * Z.of_nat (j + length snapshots) <= INT_MAX ->
  Z.of_nat (j + length snapshots) <= INT_MAX ->
  Forall (fun sl => NoDup (si_name <$> sl) /\
                    forall nm, nm ∈ si_name <$> sl <-> nm ∈ names) snapshots ->
  steady d j names reg ->
  exists reg',
    daemon d (Z.of_nat j) snapshots reg = Done reg' /\
    steady d (j + length snapshots) names reg'.
Proof.
  intros Hd. revert j reg.
  induction snapshots as [|sl rest IH]; intros j reg Ht Hj Hall Hsteady.
  - exists reg. split; [done|]. simpl. by rewrite Nat.add_0_r.
  - apply Forall_cons in Hall as [[Hnd Hnames] Hall]. simpl length in *.
    assert (d * Z.of_nat j <= INT_MAX) as Ht' by nia.
    assert (Z.of_nat (S j) <= INT_MAX) as Hj' by lia.
    destruct (steady_cycle d j names sl reg Hd Ht' Hj' Hnd Hnames Hsteady)
      as (reg1 & rs & E & Hsteady1).
    destruct (IH (S j) reg1) as (reg' & Hrun & Hsteady'); [..|done|done|].
    + replace (S j + length rest)%nat with (j + S (length rest))%nat by lia. done.
    + replace (S j + length rest)%nat with (j + S (length rest))%nat by lia. done.
    + exists reg'. split.
      * cbn [daemon].
        assert (int (long (Z.of_nat j * d)) = d * Z.of_nat j) as ->.
        { unfold SHORT_TERM, INT_MAX in *. rewrite long_id, int_id; unfold INT_MAX; nia. }
        rewrite E. cbn [obind].
        assert (int (Z.of_nat j + 1) = Z.of_nat (S j)) as ->; [|done].
        unfold INT_MAX in *. rewrite int_id; unfold INT_MAX; lia.
      * replace (j + S (length rest))%nat with (S j + length rest)%nat by lia. done.
Qed.

(** X17. Under a delay of at most 900 seconds the boundaries keep up: when
    every snapshot reports the same caches, each once, the daemon completes
    every cycle, for as long as the clock fits an [int]; every cache then has
    the state of an entity sampled once per cycle, the cycles [delay]
    apart. *)
Theorem steady_daemon_completes delay (snapshots : list (list slab_info))
    (names : list string) :
  0 <= delay <= SHORT_TERM ->
  delay * Z.of_nat (length snapshots) <= INT_MAX ->
  Z.of_nat (length snapshots) <= INT_MAX ->
  Forall (fun sl => NoDup (si_name <$> sl) /\
                    forall nm, nm ∈ si_name <$> sl <-> nm ∈ names) snapshots ->
  exists reg,
    daemon delay 0 snapshots [] = Done reg /\
    forall nm, nm ∈ names ->
      exists cs, length cs = length snapshots /\
                 Forall (fun c => si_name c = nm) cs /\
                 replay None (periodic 0 delay cs) = Done (find_slab reg nm).
Proof.
  intros Hd Ht Hn Hall.
  destruct (steady_run delay names snapshots 0 [] Hd) as (reg & Hrun & Hsteady); try done.
  - intros nm _. exists []. by repeat split.
  - by exists reg.
Qed.

Lemma steady_daemon_completes_witness :
  exists reg,
    daemon 30 0
      [ [cache "dentry" 5 192; cache "inode_cache" 3 600];
        [cache "inode_cache" 3 600; cache "dentry" 7 192] ] [] = Done reg /\
    forall nm, nm ∈ ["dentry"; "inode_cache"] ->
      exists cs, length cs = 2%nat /\
                 Forall (fun c => si_name c = nm) cs /\
                 replay None (periodic 0 30 cs) = Done (find_slab reg nm).
Proof.
  refine (steady_daemon_completes 30 _ ["dentry"; "inode_cache"] _ _ _ _).
  - unfold SHORT_TERM. lia.
  - simpl. unfold INT_MAX. lia.
  - simpl. unfold INT_MAX. lia.
  - repeat (apply Forall_cons; split); [| |apply Forall_nil_2].
    all: split; [distinct_names|].
    all: intros nm; simpl; rewrite !elem_of_cons, !elem_of_nil; tauto.
Defined.

(** ** The searches and the buckets *)

(** X18. [searchSLAB] returns the first entity of the registry with the name
    asked for, and NULL exactly when no entity has it. *)
Theorem searchSLAB_first_match (reg : list slab_MK) nm :
  match searchSLAB reg nm with
  | Some p =>
      (exists mk, reg !! p = Some mk /\ name mk = nm) /\
      forall (q : nat) mk', (q < p)%nat -> reg !! q = Some mk' -> name mk' <> nm
  | None => nm ∉ name <$> reg
  end.
Proof.
  destruct (searchSLAB reg nm) as [p|] eqn:E.
  - by apply searchSLAB_Some.
  - by apply searchSLAB_None.
Qed.

(** X19. [searchBucket] returns the first bucket of the histogram holding
    exactly the value asked for, and NULL exactly when no bucket holds it. *)
Theorem searchBucket_first_match (buckets : list slab_buckets) v :
  match searchBucket buckets v with
  | Some p =>
      (exists b, buckets !! p = Some b /\ b_value b = v) /\
      forall (q : nat) b', (q < p)%nat -> buckets !! q = Some b' -> b_value b' <> v
  | None => v ∉ b_value <$> buckets
  end.
Proof.
  destruct (searchBucket buckets v) as [p|] eqn:E; [|by apply searchBucket_None].
  split; [by apply searchBucket_Some|].
  revert p E. induction buckets as [|b bs IH]; intros p; simpl; [done|].
  destruct (Z.eqb_spec v (b_value b)) as [->|Hne].
  - intros [= <-]. intros; lia.
  - destruct (searchBucket bs v) as [p'|]; simpl; [|done].
    intros [= <-] [|q] b' Hq; simpl.
    + intros [= <-]. congruence.
    + apply (IH p' eq_refl). lia.
Qed.

Lemma values_count_in (bs : list slab_buckets) v :
  (NoDup (b_value <$> bs) -> NoDup (b_value <$> count_in bs v)) /\
  forall w, w ∈ b_value <$> count_in bs v <-> w = v \/ w ∈ b_value <$> bs.
Proof.
  unfold count_in. destruct (searchBucket bs v) as [p|] eqn:E.
  - rewrite values_alter. split; [done|]. intros w. split; [tauto|].
    intros [->|?]; [|done].
    apply searchBucket_Some in E as (b & Hb & <-).
    apply list_elem_of_fmap_2. by eapply list_elem_of_lookup_2.
  - apply searchBucket_None in E. rewrite fmap_cons. simpl. split.
    + intros Hnd. by apply NoDup_cons.
    + intros w. by rewrite elem_of_cons.
Qed.

Lemma values_clean TERM t h last (bs : list slab_buckets) last' bs' :
  clean TERM t h last bs = Done (last', bs') -> b_value <$> bs' = b_value <$> bs.
Proof.
  unfold clean. destruct (deref h last) as [l|]; [|done]. cbn [obind].
  destruct (_ <? _); [|by intros [= _ <-]].
  intros [= _ <-]. destruct (searchBucket bs (s_value l)); [|done]. apply values_alter.
Qed.

Lemma values_next_sample t c mk mk' :
  next_sample t c mk = Done mk' ->
  s_value <$> heap mk' = (s_value <$> heap mk) ++ [sample_value c].
Proof.
  unfold next_sample.
  destruct (clean MID_TERM _ _ _ _) as [[??]|]; [|done]. cbn [obind].
  destruct (clean SHORT_TERM _ _ _ _) as [[??]|]; [|done]. cbn [obind].
  destruct (deref _ _); [|done]. cbn [obind]. intros [= <-]. cbn [heap].
  rewrite fmap_app. simpl. f_equal.
  destruct (sValues mk) as [sv|]; [|done].
  apply list_eq. intros i. rewrite !list_lookup_fmap.
  destruct (decide (sv = i)) as [->|Hne].
  - destruct (heap mk !! i) as [x|] eqn:Ex.
    + erewrite list_lookup_alter_eq. rewrite Ex. done.
    + rewrite lookup_ge_None_2; [done|]. rewrite length_alter.
      by apply lookup_ge_None_1.
  - by rewrite list_lookup_alter_ne.
Qed.


Lemma retention_buckets t c st mk :
  bucket_per_value st -> retention t c st = Done mk -> bucket_per_value (Some mk).
Proof.
  destruct st as [old|]; simpl.
  - intros Hold Hnext H. destruct (Hold H) as [Hnd Hin].
    rewrite (values_next_sample _ _ _ _ Hnext).
    assert (exists bs, histogram H mk = count_in bs (sample_value c) /\
                       b_value <$> bs = b_value <$> histogram H old) as (bs & -> & Hbs).
    { destruct H.
      - exists (tiedbucketsTotal old). split; [|done]. by eapply next_sample_total.
      - destruct (next_sample_horizon Mid MID_TERM _ _ _ _ eq_refl Hnext)
          as (last' & bs' & Hcl & _ & ->).
        exists bs'. split; [done|]. by eapply values_clean.
      - destruct (next_sample_horizon Short SHORT_TERM _ _ _ _ eq_refl Hnext)
          as (last' & bs' & Hcl & _ & ->).
        exists bs'. split; [done|]. by eapply values_clean. }
    destruct (values_count_in bs (sample_value c)) as [Hnd' Hin']. split.
    + apply Hnd'. by rewrite Hbs.
    + intros v. rewrite Hin', Hbs, Hin, elem_of_app, list_elem_of_singleton. tauto.
  - intros _ [= <-] H. destruct H; simpl; (split; [apply NoDup_singleton|done]).
Qed.

Lemma replay_buckets inputs st st' :
  bucket_per_value st -> replay st inputs = Done st' -> bucket_per_value st'.
Proof.
  revert st. induction inputs as [|[t c] rest IH]; intros st Hst; simpl.
  - by intros [= <-].
  - destruct (monitor_entity t c st) as [[mk r]|] eqn:Em; [|done]. cbn [obind].
    apply IH. apply monitor_entity_engine in Em as [Hret _].
    by eapply retention_buckets.
Qed.

(** X20. A bucket is never taken out of a histogram: in every state the
    daemon can reach, each of the three histograms of an entity holds
    exactly one bucket for every distinct value the cache ever had, also for
    the values whose samples have all left the window. *)
Theorem histogram_has_every_value mk (H : horizon) :
  reachable mk ->
  NoDup (b_value <$> histogram H mk) /\
  forall v, v ∈ b_value <$> histogram H mk <-> v ∈ s_value <$> heap mk.
Proof.
  intros [inputs Hr]. by apply (replay_buckets inputs None (Some mk) I Hr H).
Qed.

Lemma histogram_has_every_value_witness :
  exists mk,
    replay None [(0, cache "dentry" 5 192); (1000, cache "dentry" 7 192)] = Done (Some mk) /\
    NoDup (b_value <$> histogram Short mk) /\
    forall v, v ∈ b_value <$> histogram Short mk <-> v ∈ s_value <$> heap mk.
Proof.
  eexists. evaluate_run E. split; [exact E|].
  exact (histogram_has_every_value _ Short (ex_intro _ _ E)).
Defined.


(** ** The command line and the main loop *)

Lemma options_Start ops delay sort_func delay' sort_func'
    (P : (slab_info -> slab_info -> bool) -> Prop) :
  (forall key, P (set_sort_func key)) ->
  0 <= delay -> P sort_func ->
  options ops delay sort_func = Start delay' sort_func' ->
  0 <= delay' /\ P sort_func'.
Proof.
  intros Hkey. revert delay sort_func.
  induction ops as [|[value errno|optarg| |] rest IH]; intros delay sort_func Hd HP; simpl.
  - by intros [= <- <-].
  - destruct errno; [done|]. destruct (Z.ltb_spec value 0); [done|]. by apply IH.
  - by apply IH.
  - done.
  - done.
Qed.

(** X21. The daemon never starts with a negative delay, and the routine it
    sorts by is always one of the three sort routines: whatever the command
    line, if the option loop of [main] is left without an exit, [delay] is
    at least 0 and [sort_func] is [sort_name], [sort_nr_active_objs] or
    [sort_obj_size]. *)
Theorem main_options_start ops delay sort_func :
  main_options ops = Start delay sort_func ->
  0 <= delay /\
  (sort_func = sort_name \/ sort_func = sort_nr_active_objs \/
   sort_func = sort_obj_size).
Proof.
  apply (options_Start ops 30 sort_nr_active_objs delay sort_func
           (fun f => f = sort_name \/ f = sort_nr_active_objs \/ f = sort_obj_size)).
  - apply set_sort_func_cases.
  - done.
  - by right; left.
Qed.

Lemma main_options_start_witness :
  0 <= 60 /\
  (sort_name = sort_name \/ sort_name = sort_nr_active_objs \/
   sort_name = sort_obj_size).
Proof.
  exact (main_options_start [opt_s "name"; opt_d 60 false] 60 sort_name eq_refl).
Defined.

(** X22. The main loop runs the cycles of [daemon] on the sorted snapshots
    read before [get_slabinfo] first fails, and stops there; each completed
    cycle logs every cache it read once, whatever the sort routine. *)
Theorem main_loop_cycles sort_func delay i
    (reads : list (option (list slab_info))) reg reg' log :
  main_loop sort_func delay i reads reg = Done (reg', log) ->
  daemon delay i (slabsort sort_func <$> before_failure reads) reg = Done reg' /\
  Forall2 (fun rs raw => log_name <$> rs ≡ₚ si_name <$> raw) log (before_failure reads).
Proof.
  revert i reg reg' log.
  induction reads as [|[raw|] rest IH]; intros i reg reg' log; simpl.
  - intros [= <- <-]. by split; [|constructor].
  - destruct (monitor _ (slabsort sort_func raw) reg) as [[reg1 rs]|] eqn:E1; [|done].
    cbn [obind].
    destruct (main_loop sort_func delay _ rest reg1) as [[reg2 log']|] eqn:E2; [|done].
    cbn [obind]. intros [= <- <-].
    destruct (IH _ _ _ _ E2) as [Hd Hlog]. split; [done|].
    constructor; [|done].
    apply monitor_lines in E1 as [-> _]. by rewrite slabsort_perm.
  - intros [= <- <-]. by split; [|constructor].
Qed.

Lemma main_loop_cycles_witness :
  exists reg' log,
    main_loop sort_name 30 0
      [Some [cache "inode_cache" 3 600; cache "dentry" 5 192]; None;
       Some [cache "dentry" 7 192]] [] = Done (reg', log) /\
    daemon 30 0
      (slabsort sort_name <$>
         before_failure [Some [cache "inode_cache" 3 600; cache "dentry" 5 192]; None;
                         Some [cache "dentry" 7 192]]) [] = Done reg' /\
    Forall2 (fun rs raw => log_name <$> rs ≡ₚ si_name <$> raw) log
      (before_failure [Some [cache "inode_cache" 3 600; cache "dentry" 5 192]; None;
                       Some [cache "dentry" 7 192]]).
Proof.
  eexists _, _. evaluate_run E. split; [exact E|].
  exact (main_loop_cycles _ _ _ _ _ _ _ E).
Defined.

(** ** The sign of the Z-score *)


Lemma binary_round_aux_sign prec emax sx mx ex lx sz :
  sign_of (binary_round_aux prec emax sx mx ex lx) = Some sz -> sz = sx.
Proof.
  unfold binary_round_aux.
  destruct (shr_fexp prec emax mx ex lx) as [mrs' e'].
  destruct (shr_fexp prec emax _ e' loc_Exact) as [mrs'' e''].
  destruct (shr_m mrs'') as [|m|m]; simpl; [congruence| |done].
  destruct (e'' <=? emax - prec); simpl; congruence.
Qed.

Lemma binary_normalize_sign prec emax m e sz :
  sign_of (binary_normalize prec emax m e false) = Some sz -> sz = (m <? 0).
Proof.
  unfold binary_normalize, binary_round. destruct m as [|m|m]; simpl.
  - by intros [= <-].
  - destruct (shl_align _ _ _) as [mz ez]. apply binary_round_aux_sign.
  - destruct (shl_align _ _ _) as [mz ez]. apply binary_round_aux_sign.
Qed.

Lemma SFsqrt_sign prec emax x :
  sign_of (SFsqrt prec emax x) = Some true -> x = S754_zero true.
Proof.
  destruct x as [[]|[]| |[] m e]; simpl; try done.
  destruct (SFsqrt_core_binary prec emax (Z.pos m) e) as [[mz ez] lz].
  intros Hs. by apply binary_round_aux_sign in Hs.
Qed.

Lemma SFdiv_sign prec emax x y sz :
  sign_of (SFdiv prec emax x y) = Some sz ->
  exists sx sy, sign_of x = Some sx /\ sign_of y = Some sy /\ sz = xorb sx sy.
Proof.
  destruct x as [sx|sx| |sx mx ex], y as [sy|sy| |sy my ey]; simpl; try done;
    try (intros [= <-]; by exists sx, sy).
  destruct (SFdiv_core_binary prec emax (Z.pos mx) ex (Z.pos my) ey) as [[mz ez] lz].
  intros Hs. apply binary_round_aux_sign in Hs. by exists sx, sy.
Qed.

Lemma SFdiv_zero prec emax y :
  dgt (SFdiv prec emax (S754_zero false) y) dzero = false.
Proof. by destruct y as [[]|[]| |[] my ey]. Qed.

Lemma dgt_zero_sign zs : dgt zs dzero = true -> sign_of zs = Some false.
Proof. by destruct zs as [[]|[]| |[] m e]. Qed.

Lemma evaluate_YES a n second :
  - 2 ^ 31 <= a <= INT_MAX ->
  trend (evaluate a n second) = "YES" ->
  1 < n /\
  (1 < a \/ (a < -1 /\ varS (evaluate a n second) = S754_zero true)).
Proof.
  intros Ha. rewrite evaluate_trend, decide_trend_YES. intros [_ Hpos].
  revert Hpos. unfold evaluate. cbn [z varS].
  destruct (1 <? n) eqn:En; [|done]. intros Hpos.
  split; [by apply Z.ltb_lt|].
  set (var := double_of_ldouble _) in *.
  destruct (Z.ltb_spec a 0) as [Hneg|Hnn].
  - destruct (decide (a = -1)) as [->|Hne].
    + exfalso. by rewrite (SFdiv_zero 53 1024) in Hpos.
    + right. split; [lia|].
      apply dgt_zero_sign, SFdiv_sign in Hpos as (sx & sy & Hx & Hy & Hxy).
      unfold double_of_Z in Hx. apply binary_normalize_sign in Hx. subst sx.
      assert (int (a + 1) = a + 1) as Hint by (apply int_id; unfold INT_MAX in *; lia).
      rewrite Hint in Hxy.
      assert ((a + 1 <? 0) = true) as Hlt by (apply Z.ltb_lt; lia).
      rewrite Hlt in Hxy. destruct sy; [|done].
      by apply SFsqrt_sign in Hy.
  - destruct (Z.ltb_spec 0 a) as [Hp|Hz]; [|done].
    destruct (decide (a = 1)) as [->|Hne]; [|left; lia].
    exfalso. by rewrite (SFdiv_zero 53 1024) in Hpos.
Qed.

Lemma yes_flag t c found mk r (H : horizon) :
  monitor_entity t c found = Done (mk, r) ->
  trend (stats H r) = "YES" ->
  1 < counter (stats H r) /\
  (1 < accum (stats H r) \/
   (accum (stats H r) < -1 /\ varS (stats H r) = S754_zero true)).
Proof.
  intros Hm. destruct (monitor_entity_engine _ _ _ _ _ Hm) as [_ He].
  destruct (engine_evaluate _ _ _ _ H He) as (a & n & second & -> & Ha & _).
  by apply evaluate_YES.
Qed.

(** X23. "YES" is only ever logged for a rising series: a record flagged
    "YES" for a horizon has more than one sample within it and S of at
    least 2.  The one way round this that the arithmetic leaves open is a
    variance of exactly minus zero, whose square root is minus zero and
    turns a negative numerator into plus infinity. *)
Theorem yes_needs_rising_S t c found mk r (H : horizon) :
  monitor_entity t c found = Done (mk, r) ->
  trend (stats H r) = "YES" ->
  1 < counter (stats H r) /\
  (1 < accum (stats H r) \/
   (accum (stats H r) < -1 /\ varS (stats H r) = S754_zero true)).
Proof. apply yes_flag. Qed.

Lemma yes_needs_rising_S_witness :
  exists st mk r,
    replay None [(0, cache "dentry" 1 192); (30, cache "dentry" 2 192);
                 (60, cache "dentry" 3 192); (90, cache "dentry" 4 192)] = Done st /\
    monitor_entity 120 (cache "dentry" 5 192) st = Done (mk, r) /\
    1 < counter (stats Total r) /\
    (1 < accum (stats Total r) \/
     (accum (stats Total r) < -1 /\ varS (stats Total r) = S754_zero true)).
Proof.
  eexists _, _, _. evaluate_run E. split; [exact E|].
  evaluate_run E'. split; [exact E'|].
  refine (yes_needs_rising_S _ _ _ _ _ Total E' _).
  vm_compute. reflexivity.
Defined.

(** ** Series without ties, rising and falling *)

Lemma no_ties_second mk (H : horizon) :
  reachable mk ->
  Z.of_nat (length (heap mk)) <= INT_MAX ->
  NoDup (s_value <$> heap mk) ->
  secondPartVariance (histogram H mk) (ldouble_of_Z 0) = ldouble_of_Z 0.
Proof.
  intros Hr Hlen Hnd. apply secondPart_no_ties, Forall_forall. intros b Hb.
  destruct (reachable_tied mk H b Hr Hlen Hb) as (_ & k & _ & ->).
  apply occ_NoDup. apply (sublist_NoDup _ (s_value <$> heap mk)); [done|apply sublist_drop].
Qed.

(** X24. A series without ties has no tie correction: when the values of an
    entity are pairwise distinct, the second part of the variance is 0 for
    every horizon. *)
Theorem distinct_values_no_tie_correction t c found mk r (H : horizon) :
  monitor_entity t c found = Done (mk, r) ->
  reachable mk ->
  Z.of_nat (length (heap mk)) <= INT_MAX ->
  NoDup (s_value <$> heap mk) ->
  secondPart (stats H r) = ldouble_of_Z 0.
Proof.
  intros Hm Hr Hlen Hnd.
  destruct (variance_as_computed _ _ _ _ _ H Hm) as [-> _].
  by apply no_ties_second.
Qed.

Lemma distinct_values_no_tie_correction_witness :
  exists mk r,
    monitor_entity 30 (cache "dentry" 7 192) (Some (first_sample 0 (cache "dentry" 5 192)))
      = Done (mk, r) /\
    secondPart (stats Mid r) = ldouble_of_Z 0.
Proof.
  eexists _, _. evaluate_run E. split; [exact E|].
  refine (distinct_values_no_tie_correction _ _ _ _ _ Mid E _ _ _).
  - exists [(0, cache "dentry" 5 192); (30, cache "dentry" 7 192)].
    vm_compute. reflexivity.
  - simpl. unfold INT_MAX. lia.
  - simpl. apply NoDup_cons. split; [|apply NoDup_singleton].
    rewrite list_elem_of_singleton. discriminate.
Defined.

Lemma StronglySorted_fmap_inv {A B} (f : A -> B) (R : relation B) l :
  StronglySorted R (f <$> l) -> StronglySorted (fun x y => R (f x) (f y)) l.
Proof.
  induction l as [|x l IH]; intros Hs; [constructor|].
  rewrite fmap_cons in Hs. inversion Hs as [|? ? Hl Hx]; subst.
  constructor; [by apply IH|]. apply Forall_forall. intros y Hy.
  rewrite Forall_forall in Hx. by apply Hx, list_elem_of_fmap_2.
Qed.

Lemma StronglySorted_rev {A} (R : relation A) l :
  StronglySorted R l -> StronglySorted (flip R) (reverse l).
Proof.
  induction 1 as [|x l _ IH Hx]; [constructor|].
  rewrite reverse_cons. apply StronglySorted_app_2; [|done|repeat constructor].
  intros x1 x2 Hx1 Hx2. apply list_elem_of_singleton in Hx2 as ->.
  rewrite elem_of_reverse in Hx1. rewrite Forall_forall in Hx. unfold flip. by apply Hx.
Qed.

Lemma StronglySorted_NoDup {A} (R : relation A) l :
  (forall x, ~ R x x) -> StronglySorted R l -> NoDup l.
Proof.
  intros Hirr. induction 1 as [|x l _ IH Hx]; [constructor|].
  apply NoDup_cons. split; [|done].
  intros Hin. rewrite Forall_forall in Hx. by apply (Hirr x), Hx.
Qed.

Lemma foldr_nonpos {A} (g : A -> Z) l :
  Forall (fun y => g y <= 0) l -> foldr (fun older acc => g older + acc) 0 l <= 0.
Proof. induction 1; simpl; lia. Qed.

Lemma pair_sum_nonpos f l :
  StronglySorted (fun x y => f x y <= 0) l -> pair_sum f l <= 0.
Proof.
  induction 1 as [|x l _ IH Hx]; simpl; [done|].
  pose proof (foldr_nonpos (f x) l Hx). lia.
Qed.

Lemma sign_sum_increasing vals :
  StronglySorted Z.lt vals ->
  2 * sign_sum (reverse vals) = Z.of_nat (length vals) * (Z.of_nat (length vals) - 1).
Proof.
  induction vals as [|x prefix IH] using rev_ind; [done|].
  intros Hs. apply StronglySorted_app in Hs as (Hx & Hp & _).
  rewrite reverse_app. simpl. rewrite sign_sum_above.
  - rewrite length_reverse, length_app. simpl. specialize (IH Hp). lia.
  - apply Forall_forall. intros y Hy. rewrite elem_of_reverse in Hy.
    apply Hx; [done|]. by apply list_elem_of_singleton.
Qed.

Lemma SFsub_zero_r prec emax x : SFsub prec emax x (S754_zero false) = x.
Proof. by destruct x as [[]|[]| |]. Qed.

(** Without ties, and with the first part of the variance in range, the
    variance is not minus zero. *)
Lemma varS_no_ties a n :
  1 < n <= 2 ^ 20 -> varS (evaluate a n (ldouble_of_Z 0)) <> S754_zero true.
Proof.
  intros Hn. unfold evaluate. cbn [varS].
  assert ((1 <? n) = true) as -> by (apply Z.ltb_lt; lia).
  change (ldouble_of_Z 0) with (S754_zero false). unfold ldsub. rewrite SFsub_zero_r.
  set (k := long (n * (n - 1) * (2 * n + 5))).
  assert (0 <= k) as Hk.
  { unfold k. rewrite long_id; [nia|]. split; [nia|].
    assert (n * (n - 1) <= 2 ^ 20 * 2 ^ 20) by nia.
    assert (2 * n + 5 <= 2 ^ 22) by lia. nia. }
  set (q := lddiv (ldouble_of_Z k) (ldouble_of_Z 18)).
  assert (sign_of q <> Some true) as Hq.
  { intros Hs. apply SFdiv_sign in Hs as (sx & sy & Hx & Hy & Hxy).
    unfold ldouble_of_Z in Hx, Hy. apply binary_normalize_sign in Hx, Hy.
    assert ((k <? 0) = false) as Hkf by (apply Z.ltb_ge; lia).
    rewrite Hkf in Hx. subst. done. }
  unfold double_of_ldouble. destruct q as [sq|sq| |sq mq eq]; simpl in Hq.
  - congruence.
  - done.
  - done.
  - destruct sq; [done|]. change (cond_Zopp false (Z.pos mq)) with (Z.pos mq).
    intros Hz.
    assert (sign_of (binary_normalize 53 1024 (Z.pos mq) eq false) = Some true) as Hs
      by (by rewrite Hz).
    by apply binary_normalize_sign in Hs.
Qed.



Lemma iter_flagged (k : nat) i0 :
  (Nat.iter k flag_step (i0, true)).1 = i0 + Z.of_nat k /\
  ((Nat.iter k flag_step (i0, true)).2 = true ->
   forall n, i0 <= n < i0 + Z.of_nat k -> flagged n = true).
Proof.
  induction k as [|k [IH1 IH2]]; [simpl; split; [lia|intros; lia]|].
  rewrite Nat.iter_succ.
  set (res := Nat.iter k flag_step (i0, true)) in *. unfold flag_step at 1 2.
  cbn [fst snd]. split; [lia|].
  intros Hres n Hn. apply andb_true_iff in Hres as [Hres Hlast].
  destruct (decide (n = i0 + Z.of_nat k)) as [->|Hne].
  - by rewrite <- IH1.
  - apply IH2; [done|lia].
Qed.

Lemma flagged_5_4096 n : 5 <= n <= 4096 -> flagged n = true.
Proof.
  intros Hn.
  assert (Pos.iter flag_step (5, true) 4092 = (4096 + 1, true)) as Hrun
    by (vm_compute; reflexivity).
  rewrite Pos2Nat.inj_iter in Hrun.
  destruct (iter_flagged (Pos.to_nat 4092) 5) as [_ Hall].
  unfold Nat.iter in Hall. rewrite Hrun in Hall. apply Hall; [done|]. lia.
Qed.

Lemma falling_series_S inputs st t c mk r (H : horizon) :
  replay None inputs = Done st ->
  monitor_entity t c st = Done (mk, r) ->
  StronglySorted (flip Z.lt) (reading <$> inputs ++ [(t, c)]).*2 ->
  Z.of_nat (length inputs) < 65536 ->
  accum (stats H r) <= 0.
Proof.
  intros Hr Hm Hfall Hlen.
  destruct (cycle_stats _ _ _ _ _ _ Hr Hm) as (HC & Hn & Hst).
  rewrite Hst, stats_of_accum.
  assert (pair_sum (code_term H t) (series mk) <= 0) as Hle.
  { apply pair_sum_nonpos.
    apply (StronglySorted_mono (fun x y => s_value x < s_value y)).
    - intros x y Hxy. unfold code_term. destruct (_ && _); [|done].
      pose proof (Z.sgn_spec (s_value x - s_value y)). lia.
    - apply (StronglySorted_fmap_inv s_value Z.lt).
      rewrite (series_values _ _ HC). by apply (StronglySorted_rev (flip Z.lt)). }
  pose proof (pair_sum_bound (code_term H t) (series mk)) as Hb.
  unfold series in Hb at 1 2 4 5. rewrite length_reverse, Hn in Hb.
  rewrite int_id; [done|]. unfold INT_MAX.
  assert (- (Z.of_nat (S (length inputs)) * (Z.of_nat (S (length inputs)) - 1))
          <= 2 * pair_sum (code_term H t) (series mk)) as Hlow.
  { apply Hb. intros x y. unfold code_term. destruct (_ && _); [|lia].
    pose proof (Z.sgn_spec (s_value x - s_value y)). lia. }
  assert (Z.of_nat (S (length inputs)) * (Z.of_nat (S (length inputs)) - 1)
          <= 65536 * 65535) by nia.
  lia.
Qed.

Lemma no_ties_stats inputs st t c mk r (R : relation Z) (H : horizon) :
  (forall x, ~ R x x) ->
  replay None inputs = Done st ->
  monitor_entity t c st = Done (mk, r) ->
  StronglySorted R (reading <$> inputs ++ [(t, c)]).*2 ->
  Z.of_nat (length inputs) < 65536 ->
  stats H r = evaluate (accum (stats H r)) (counter (stats H r)) (ldouble_of_Z 0) /\
  0 <= counter (stats H r) <= 65536.
Proof.
  intros Hirr Hr Hm Hs Hlen.
  destruct (cycle_stats _ _ _ _ _ _ Hr Hm) as (HC & Hn & Hst).
  assert (secondPartVariance (histogram H mk) (ldouble_of_Z 0) = ldouble_of_Z 0) as Hsec.
  { apply no_ties_second.
    - exists (inputs ++ [(t, c)]). by eapply replay_extend.
    - rewrite Hn. unfold INT_MAX. lia.
    - destruct HC as (_ & -> & _). rewrite values_build.
      by eapply StronglySorted_NoDup. }
  rewrite Hst. unfold stats_of at 1. rewrite Hsec. split; [done|].
  rewrite stats_of_counter.
  assert (0 <= code_count H t (series mk) <= Z.of_nat (length (heap mk))) as Hc.
  { unfold code_count.
    pose proof (List.filter_length_le (code_window H t) (series mk)) as Hf.
    unfold series in Hf at 2. rewrite length_reverse in Hf. lia. }
  rewrite long_id; lia.
Qed.

(** X25. A cache that shrinks at every report is never flagged: while its
    series has at most 65536 samples, each below the one before, S is at
    most 0 and the record says "NO" for every horizon, whatever the times of
    the cycles. *)
Theorem falling_never_flagged inputs st t c mk r (H : horizon) :
  replay None inputs = Done st ->
  monitor_entity t c st = Done (mk, r) ->
  StronglySorted (flip Z.lt) (reading <$> inputs ++ [(t, c)]).*2 ->
  Z.of_nat (length inputs) < 65536 ->
  accum (stats H r) <= 0 /\ trend (stats H r) = "NO".
Proof.
  intros Hr Hm Hfall Hlen.
  pose proof (falling_series_S _ _ _ _ _ _ H Hr Hm Hfall Hlen) as Ha.
  split; [done|].
  destruct (no_ties_stats _ _ _ _ _ _ (flip Z.lt) H
              ltac:(unfold flip; intros x; lia) Hr Hm Hfall Hlen) as [Hst Hn].
  apply (proj1 (proj2 (entity_trend_flag _ _ _ _ _ H Hm))).
  intros Hyes. destruct (yes_flag _ _ _ _ _ H Hm Hyes) as [Hcnt [Hpos|[_ Hvar]]]; [lia|].
  rewrite Hst in Hvar. by apply varS_no_ties in Hvar; [|lia].
Qed.

Lemma falling_never_flagged_witness :
  exists st mk r,
    replay None [(0, cache "dentry" 9 192); (30, cache "dentry" 7 192)] = Done st /\
    monitor_entity 60 (cache "dentry" 5 192) st = Done (mk, r) /\
    accum (stats Short r) <= 0 /\ trend (stats Short r) = "NO".
Proof.
  eexists _, _, _. evaluate_run E. split; [exact E|].
  evaluate_run E'. split; [exact E'|].
  refine (falling_never_flagged _ _ _ _ _ _ Short E E' _ _).
  - vm_compute. repeat constructor.
  - simpl. lia.
Defined.

Lemma rising_flag inputs st t c mk r :
  replay None inputs = Done st ->
  monitor_entity t c st = Done (mk, r) ->
  StronglySorted Z.lt (reading <$> inputs ++ [(t, c)]).*2 ->
  Z.of_nat (length inputs) < 4096 ->
  let n := Z.of_nat (length inputs) + 1 in
  counter (stats Total r) = n /\
  2 * accum (stats Total r) = n * (n - 1) /\
  (trend (stats Total r) = "YES" <-> 5 <= n).
Proof.
  intros Hr Hm Hrise Hlen n.
  destruct (cycle_stats _ _ _ _ _ _ Hr Hm) as (HC & Hn & Hst).
  assert (Z.of_nat (length (series mk)) = n) as Hlen'.
  { unfold series. rewrite length_reverse, Hn. lia. }
  assert (counter (stats Total r) = n) as Hcnt.
  { rewrite Hst, stats_of_counter, code_count_total, Hlen'. apply long_id. lia. }
  assert (2 * accum (stats Total r) = n * (n - 1)) as Hacc.
  { rewrite Hst, stats_of_accum, code_S_total, (series_values _ _ HC).
    pose proof (sign_sum_increasing _ Hrise) as Hsum.
    rewrite !length_fmap, length_app in Hsum. simpl length in Hsum.
    replace (Z.of_nat (length inputs + 1)) with n in Hsum by lia.
    rewrite int_id; [done|]. unfold INT_MAX.
    assert (0 <= n * (n - 1) <= 65536 * 65535) by nia. lia. }
  split; [done|]. split; [done|].
  assert (Z.of_nat (length inputs) < 65536) as Hlen65 by lia.
  destruct (no_ties_stats _ _ _ _ _ _ Z.lt Total
              ltac:(intros x; lia) Hr Hm Hrise Hlen65) as [Hev _].
  assert (accum (stats Total r) = n * (n - 1) / 2) as Ha.
  { rewrite <- Hacc, Z.mul_comm. symmetry. by apply Z.div_mul. }
  rewrite Hcnt, Ha in Hev.
  assert (trend (stats Total r) = "YES" <-> flagged n = true) as ->.
  { unfold flagged. by rewrite <- Hev, String.eqb_eq. }
  split.
  - intros Hf. destruct (Z.le_gt_cases 5 n) as [|Hsmall]; [done|].
    assert (n = 1 \/ n = 2 \/ n = 3 \/ n = 4) as [Hc | [Hc | [Hc | Hc]]] by lia;
      rewrite Hc in Hf; by vm_compute in Hf.
  - intros Hn5. apply flagged_5_4096. lia.
Qed.

(** X26. A cache that grows at every report is flagged at its fifth sample
    and from then on: while its series has at most 4096 samples, each above
    the one before, the S of the total horizon is n(n-1)/2 and the record
    says "YES" for the total horizon exactly when n is at least 5. *)
Theorem rising_flagged_from_fifth inputs st t c mk r :
  replay None inputs = Done st ->
  monitor_entity t c st = Done (mk, r) ->
  StronglySorted Z.lt (reading <$> inputs ++ [(t, c)]).*2 ->
  Z.of_nat (length inputs) < 4096 ->
  let n := Z.of_nat (length inputs) + 1 in
  counter (stats Total r) = n /\
  2 * accum (stats Total r) = n * (n - 1) /\
  (trend (stats Total r) = "YES" <-> 5 <= n).
Proof. apply rising_flag. Qed.

Lemma rising_flagged_from_fifth_witness :
  exists st mk r,
    replay None [(0, cache "dentry" 1 192); (30, cache "dentry" 2 192);
                 (60, cache "dentry" 3 192); (90, cache "dentry" 4 192)] = Done st /\
    monitor_entity 120 (cache "dentry" 5 192) st = Done (mk, r) /\
    let n := Z.of_nat 4 + 1 in
    counter (stats Total r) = n /\
    2 * accum (stats Total r) = n * (n - 1) /\
    (trend (stats Total r) = "YES" <-> 5 <= n).
Proof.
  eexists _, _, _. evaluate_run E. split; [exact E|].
  evaluate_run E'. split; [exact E'|].
  refine (rising_flagged_from_fifth _ _ _ _ _ _ E E' _ _).
  - vm_compute. repeat constructor.
  - simpl. lia.
Defined.

(** ** A cache that comes back *)


Lemma counter_after_S i k : counter_after i (S k) = counter_after (int (i + 1)) k.
Proof.
  unfold counter_after. revert i. induction k as [|k IH]; intros i; [done|].
  rewrite Nat.iter_succ, IH. done.
Qed.

Lemma counter_after_exact i k :
  0 <= i -> i + Z.of_nat k <= INT_MAX -> counter_after i k = i + Z.of_nat k.
Proof.
  revert i. induction k as [|k IH]; intros i Hi Hk.
  - unfold counter_after. simpl. lia.
  - rewrite counter_after_S, int_id by (unfold INT_MAX in *; lia).
    rewrite IH by lia. lia.
Qed.

Lemma daemon_app delay i (l1 l2 : list (list slab_info)) reg :
  daemon delay i (l1 ++ l2) reg =
  do reg1 <- daemon delay i l1 reg;
  daemon delay (counter_after i (length l1)) l2 reg1.
Proof.
  revert i reg. induction l1 as [|sl l1 IH]; intros i reg; [done|].
  cbn [daemon app length]. rewrite counter_after_S.
  destruct (monitor _ sl reg) as [[reg1 rs]|]; [|done]. cbn [obind]. apply IH.
Qed.

Lemma monitor_skip t (slab_list : list slab_info) reg reg' rs nm :
  nm ∉ si_name <$> slab_list ->
  monitor t slab_list reg = Done (reg', rs) ->
  find_slab reg' nm = find_slab reg nm.
Proof.
  revert reg reg' rs. induction slab_list as [|c rest IH]; intros reg reg' rs Hn; simpl.
  - by intros [= <- <-].
  - apply not_elem_of_cons in Hn as [Hne Hn].
    destruct (monitor_slab t c reg) as [[reg1 r]|] eqn:E1; [|done]. cbn [obind].
    destruct (monitor t rest reg1) as [[reg2 rs']|] eqn:E2; [|done]. cbn [obind].
    intros [= <- <-]. rewrite (IH _ _ _ Hn E2).
    apply monitor_slab_Done in E1 as (mk & _ & _ & ->).
    destruct (String.eqb (si_name c) nm) eqn:E; [|done].
    apply String.eqb_eq in E. done.
Qed.

Lemma daemon_skip delay i (l : list (list slab_info)) reg reg' nm :
  Forall (fun sl => nm ∉ si_name <$> sl) l ->
  daemon delay i l reg = Done reg' ->
  find_slab reg' nm = find_slab reg nm.
Proof.
  revert i reg. induction l as [|sl l IH]; intros i reg Hall; simpl.
  - by intros [= <-].
  - apply Forall_cons in Hall as [Hsl Hall].
    destruct (monitor _ sl reg) as [[reg1 rs]|] eqn:E1; [|done]. cbn [obind].
    intros E2. rewrite (IH _ _ Hall E2). by eapply monitor_skip.
Qed.

(** X27. A cache that is reported once and comes back more than 900 seconds
    later brings the daemon down at its third report, under any delay: the
    cycle of its return retires the only sample the short-term boundary
    could point at, and its next report dereferences the NULL left there.
    Caches reported in between, and the cycles before its first report,
    change nothing.  Under a delay above 900 seconds this is every cache
    reported in three cycles running from its first report on. *)
Theorem returning_cache_faults delay (pre mid mid' rest : list (list slab_info))
    (sl0 sl1 sl2 : list slab_info) nm :
  0 <= delay ->
  SHORT_TERM < delay * Z.of_nat (S (length mid)) ->
  delay * Z.of_nat (length pre + S (length mid)) <= INT_MAX ->
  Z.of_nat (length pre + S (length mid)) <= INT_MAX ->
  Forall (fun sl => nm ∉ si_name <$> sl) (pre ++ mid ++ mid') ->
  NoDup (si_name <$> sl0) -> NoDup (si_name <$> sl1) -> NoDup (si_name <$> sl2) ->
  nm ∈ si_name <$> sl0 -> nm ∈ si_name <$> sl1 -> nm ∈ si_name <$> sl2 ->
  exists f,
    daemon delay 0 (pre ++ sl0 :: mid ++ sl1 :: mid' ++ sl2 :: rest) [] = Crash f.
Proof.
  intros Hd Hgap Ht Hi Hall Hnd0 Hnd1 Hnd2 Hin0 Hin1 Hin2.
  apply Forall_app in Hall as [Hpre Hall]. apply Forall_app in Hall as [Hmid Hmid'].
  set (a := Z.of_nat (length pre)).
  set (b := Z.of_nat (length pre + S (length mid))).
  assert (0 <= a <= b) as Hab by lia.
  rewrite daemon_app.
  destruct (daemon delay 0 pre []) as [reg1|f1] eqn:E1; [|by exists f1]. cbn [obind].
  rewrite counter_after_exact by lia. rewrite Z.add_0_l. fold a.
  cbn [daemon].
  assert (int (long (a * delay)) = a * delay) as ->.
  { unfold INT_MAX in *. rewrite long_id, int_id; unfold INT_MAX; nia. }
  destruct (monitor (a * delay) sl0 reg1) as [[reg2 rs0]|f2] eqn:E2; [|by exists f2].
  cbn [obind]. rewrite daemon_app.
  destruct (daemon delay (int (a + 1)) mid reg2) as [reg3|f3] eqn:E3; [|by exists f3].
  cbn [obind]. rewrite int_id by (unfold INT_MAX in *; lia).
  rewrite counter_after_exact by lia.
  replace (a + 1 + Z.of_nat (length mid)) with b by lia.
  cbn [daemon].
  assert (int (long (b * delay)) = a * delay + delay * Z.of_nat (S (length mid))) as ->.
  { unfold INT_MAX in *. rewrite long_id, int_id; unfold INT_MAX; nia. }
  destruct (monitor _ sl1 reg3) as [[reg4 rs1]|f4] eqn:E4; [|by exists f4].
  cbn [obind]. rewrite daemon_app.
  destruct (daemon delay (int (b + 1)) mid' reg4) as [reg5|f5] eqn:E5; [|by exists f5].
  cbn [obind daemon].
  destruct (monitor _ sl2 reg5) as [[reg6 rs2]|f6] eqn:E6; [|by exists f6].
  exfalso.
  destruct (monitor_entity_of _ _ _ _ _ _ Hnd0 E2 Hin0) as (c0 & mk0 & r0 & _ & Hm0 & Hf0).
  destruct (monitor_entity_of _ _ _ _ _ _ Hnd1 E4 Hin1) as (c1 & mk1 & r1 & _ & Hm1 & Hf1).
  destruct (monitor_entity_of _ _ _ _ _ _ Hnd2 E6 Hin2) as (c2 & mk2 & r2 & _ & Hm2 & _).
  rewrite (daemon_skip _ _ _ _ _ _ Hpre E1) in Hm0.
  assert (find_slab [] nm = None) as Hnone by done. rewrite Hnone in Hm0.
  rewrite (daemon_skip _ _ _ _ _ _ Hmid E3), Hf0 in Hm1.
  rewrite (daemon_skip _ _ _ _ _ _ Hmid' E5), Hf1 in Hm2.
  rewrite (third_report_faults (a * delay) (delay * Z.of_nat (S (length mid))) _
             c0 c1 c2 mk0 r0 mk1 r1) in Hm2; try done.
  unfold cycle_time, MID_TERM, SHORT_TERM, INT_MAX in *. nia.
Qed.

Lemma returning_cache_faults_witness :
  exists f,
    daemon 30 0
      ([[cache "inode_cache" 3 600]]
         ++ [cache "dentry" 5 192; cache "inode_cache" 3 600]
         :: replicate 30 [cache "inode_cache" 3 600]
         ++ [cache "inode_cache" 3 600; cache "dentry" 7 192]
         :: []
         ++ [cache "dentry" 9 192] :: []) [] = Crash f.
Proof.
  refine (returning_cache_faults 30 [[cache "inode_cache" 3 600]]
            (replicate 30 [cache "inode_cache" 3 600]) [] [] _ _ _ "dentry"
            _ _ _ _ _ _ _ _ _ _ _).
  - lia.
  - rewrite length_replicate. unfold SHORT_TERM. lia.
  - rewrite length_replicate. unfold INT_MAX. simpl. lia.
  - rewrite length_replicate. unfold INT_MAX. simpl. lia.
  - rewrite app_nil_r. apply Forall_app. split.
    + repeat constructor. simpl. rewrite list_elem_of_singleton. discriminate.
    + apply Forall_replicate. simpl. rewrite list_elem_of_singleton. discriminate.
  - distinct_names.
  - distinct_names.
  - distinct_names.
  - apply (list_elem_of_fmap_2 si_name _ (cache "dentry" 5 192)). by constructor.
  - apply (list_elem_of_fmap_2 si_name _ (cache "dentry" 7 192)). by do 2 constructor.
  - apply (list_elem_of_fmap_2 si_name _ (cache "dentry" 9 192)). by constructor.
Defined.

(** ** A leak, from the snapshots to the log *)

Lemma NoDup_name_inj (slab_list : list slab_info) c c' :
  NoDup (si_name <$> slab_list) -> c ∈ slab_list -> c' ∈ slab_list ->
  si_name c = si_name c' -> c = c'.
Proof.
  induction slab_list as [|x sl IH]; intros Hnd Hc Hc' Hn.
  - by apply elem_of_nil in Hc.
  - rewrite fmap_cons in Hnd. apply NoDup_cons in Hnd as [Hx Hnd].
    apply elem_of_cons in Hc as [->|Hc], Hc' as [->|Hc'].
    + done.
    + exfalso. apply Hx. rewrite Hn. by apply list_elem_of_fmap_2.
    + exfalso. apply Hx. rewrite <- Hn. by apply list_elem_of_fmap_2.
    + by apply IH.
Qed.

Lemma Forall2_elem_r {A B} (P : A -> B -> Prop) l k y :
  Forall2 P l k -> y ∈ k -> exists x, x ∈ l /\ P x y.
Proof.
  induction 1 as [|x y' l k Hxy _ IH]; intros Hy.
  - by apply elem_of_nil in Hy.
  - apply elem_of_cons in Hy as [->|Hy].
    + exists x. split; [by constructor|done].
    + destruct (IH Hy) as (x' & Hx' & HP). exists x'. split; [by constructor|done].
Qed.

(** The state a cache is left in by a cycle, and the records under its
    name. *)
Lemma monitor_cache t (slab_list : list slab_info) reg reg' rs c :
  NoDup (si_name <$> slab_list) ->
  monitor t slab_list reg = Done (reg', rs) ->
  c ∈ slab_list ->
  exists mk r0,
    monitor_entity t c (find_slab reg (si_name c)) = Done (mk, r0) /\
    find_slab reg' (si_name c) = Some mk /\
    forall r, r ∈ rs -> log_name r = si_name c -> r = r0.
Proof.
  intros Hnd E Hc. destruct (monitor_entities _ _ _ _ _ Hnd E) as [Hall _].
  destruct (Forall2_elem_l _ _ _ _ Hall Hc) as (r0 & mk & Hm & Hf).
  exists mk, r0. split; [done|]. split; [done|].
  intros r Hr Hname.
  destruct (Forall2_elem_r _ _ _ _ Hall Hr) as (c' & Hc' & mk' & Hm' & _).
  assert (c' = c) as ->.
  { apply (NoDup_name_inj slab_list); [done..|].
    apply monitor_entity_engine in Hm' as [_ He]. apply engine_header in He as [<- _].
    done. }
  congruence.
Qed.

Lemma leak_run sort_func delay nm (snapshots : list (list slab_info)) :
  forall (cs : list slab_info) i reg reg' log (inputs : list (Z * slab_info)),
  Forall2 (fun sl c => NoDup (si_name <$> sl) /\ c ∈ sl /\ si_name c = nm) snapshots cs ->
  StronglySorted Z.lt ((reading <$> inputs).*2 ++ (sample_value <$> cs)) ->
  Z.of_nat (length inputs + length cs) <= 4096 ->
  replay None inputs = Done (find_slab reg nm) ->
  main_loop sort_func delay i (Some <$> snapshots) reg = Done (reg', log) ->
  forall (l : nat) rs r,
    log !! l = Some rs -> r ∈ rs -> log_name r = nm ->
    (trend (stats Total r) = "YES" <-> 4 <= Z.of_nat (length inputs + l)).
Proof.
  induction snapshots as [|sl rest IH];
    intros cs i reg reg' log inputs Hcs Hrise Hlen Hr.
  - simpl. intros [= <- <-] l rs r Hl. done.
  - rewrite fmap_cons. cbn [main_loop].
    destruct cs as [|c cs']; [by inversion Hcs|].
    apply Forall2_cons in Hcs as [(Hnd & Hc & Hnm) Hcs].
    destruct (monitor _ (slabsort sort_func sl) reg) as [[reg1 rs1]|] eqn:E1; [|done].
    cbn [obind].
    destruct (main_loop sort_func delay (int (i + 1)) (Some <$> rest) reg1)
      as [[reg2 log']|] eqn:E2; cbn [obind]; [|done].
    intros [= <- <-] l rs r Hl Hin Hname.
    assert (NoDup (si_name <$> slabsort sort_func sl)) as Hnd'
      by (by rewrite slabsort_perm).
    assert (c ∈ slabsort sort_func sl) as Hc' by (by rewrite slabsort_perm).
    destruct (monitor_cache _ _ _ _ _ _ Hnd' E1 Hc') as (mk & r0 & Hm & Hf & Huniq).
    rewrite Hnm in Hm, Hf.
    set (t := int (long (i * delay))) in *.
    assert ((reading <$> inputs ++ [(t, c)]).*2 =
            (reading <$> inputs).*2 ++ [sample_value c]) as Hvals.
    { by rewrite !fmap_app. }
    simpl length in Hlen. destruct l as [|l'].
    + simpl in Hl. injection Hl as <-.
      rewrite (Huniq r Hin) by congruence.
      destruct (rising_flag inputs _ t c mk r0 Hr Hm) as (_ & _ & Hflag).
      * rewrite Hvals. simpl in Hrise.
        rewrite (cons_middle (sample_value c)), app_assoc in Hrise.
        by apply StronglySorted_app_1_l in Hrise.
      * lia.
      * rewrite Hflag. lia.
    + simpl in Hl.
      assert (StronglySorted Z.lt
                ((reading <$> inputs ++ [(t, c)]).*2 ++ (sample_value <$> cs'))) as H1.
      { rewrite Hvals, <- app_assoc. done. }
      assert (Z.of_nat (length (inputs ++ [(t, c)]) + length cs') <= 4096) as H2.
      { rewrite length_app. simpl. lia. }
      assert (replay None (inputs ++ [(t, c)]) = Done (find_slab reg1 nm)) as H3.
      { rewrite Hf. by eapply replay_extend. }
      rewrite (IH cs' (int (i + 1)) reg1 reg2 log' (inputs ++ [(t, c)])
                 Hcs H1 H2 H3 E2 l' rs r Hl Hin Hname).
      rewrite length_app. simpl. lia.
Qed.

(** X28. A leak, from the snapshots to the log: when a cache is reported in
    every cycle, once, and its size rises at every cycle, the records logged
    under its name say "YES" for the total horizon from the fifth cycle on
    and "NO" before, for runs of up to 4096 cycles, whatever the delay, the
    sort routine and the other caches. *)
Theorem leak_flagged_from_fifth_cycle sort_func delay nm
    (snapshots : list (list slab_info)) (cs : list slab_info) reg log :
  Forall2 (fun sl c => NoDup (si_name <$> sl) /\ c ∈ sl /\ si_name c = nm) snapshots cs ->
  StronglySorted Z.lt (sample_value <$> cs) ->
  Z.of_nat (length snapshots) <= 4096 ->
  main_loop sort_func delay 0 (Some <$> snapshots) [] = Done (reg, log) ->
  forall (j : nat) rs r,
    log !! j = Some rs -> r ∈ rs -> log_name r = nm ->
    (trend (stats Total r) = "YES" <-> 4 <= Z.of_nat j).
Proof.
  intros Hcs Hrise Hlen Hrun j rs r Hj Hr Hname.
  apply (leak_run sort_func delay nm snapshots cs 0 [] reg log [] Hcs Hrise) with (rs := rs);
    try done.
  simpl. by rewrite <- (Forall2_length _ _ _ Hcs).
Qed.

Lemma leak_flagged_from_fifth_cycle_witness :
  exists reg log,
    main_loop sort_name 30 0
      (Some <$> [ [cache "dentry" 1 192; cache "inode_cache" 3 600];
                  [cache "inode_cache" 3 600; cache "dentry" 2 192];
                  [cache "dentry" 3 192]; [cache "dentry" 4 192];
                  [cache "dentry" 5 192] ]) [] = Done (reg, log) /\
    forall (j : nat) rs r,
      log !! j = Some rs -> r ∈ rs -> log_name r = "dentry" ->
      (trend (stats Total r) = "YES" <-> 4 <= Z.of_nat j).
Proof.
  eexists _, _. evaluate_run E. split; [exact E|].
  refine (leak_flagged_from_fifth_cycle sort_name 30 "dentry" _
            [cache "dentry" 1 192; cache "dentry" 2 192; cache "dentry" 3 192;
             cache "dentry" 4 192; cache "dentry" 5 192] _ _ _ _ _ E).
  - repeat (apply Forall2_cons; split); [..|apply Forall2_nil_2].
    all: split; [distinct_names|]; split; [|done].
    all: rewrite !elem_of_cons; auto.
  - vm_compute. repeat constructor.
  - simpl. lia.
Defined.
